(** * merkle-go: a shallow embedding of the hashing-and-tree pipeline

    The development follows the packages of the repository:
    - [hash]     (internal/hash/hasher.go): [HashFile], [XXHashFunc];
    - [filepath] (the part of path/filepath that [tree] calls);
    - [tree]     (internal/tree: types.go, builder.go, serializer.go);
    - [compare]  (internal/compare/comparer.go);
    - [walker]   (internal/walker: the [HashFiles] worker pool).

    Go values are modelled as follows.  A [string] is a sequence of 8-bit
    characters, a [[]byte] is a [list byte], [uint64] and [int64] are [Z]
    with the wrap-around written out, a [map[string]V] is a [gmap string V]
    and a [range] over a map takes the order of iteration as an explicit
    list.  A function returning [(T, error)] returns a [result T]. *)

From Stdlib Require Import ZArith Lia List Ascii String.
From stdpp Require Import base gmap gmultiset list strings sorting pretty.

Local Open Scope Z_scope.

Abbreviation byte := Byte.byte.

(** ** Errors *)

Inductive result (A : Type) : Type :=
| Ok (a : A)
| Err (msg : string).
Arguments Ok {A} a.
Arguments Err {A} msg.

Global Instance result_ret : MRet result := λ A a, Ok a.
Global Instance result_bind : MBind result := λ A B k r,
  match r with
  | Ok a => k a
  | Err msg => Err msg
  end.

(** [fmt.Errorf("ctx: %w", err)]: the message of the wrapped error after
    the context. *)
Definition wrapErr {A B : Type} (ctx : string) (r : result A)
    (k : A → result B) : result B :=
  match r with
  | Ok a => k a
  | Err msg => Err (ctx +:+ ": " +:+ msg)
  end.

(** ** Machine integers *)

Definition wrap_u64 (z : Z) : Z := z mod 2 ^ 64.

(** The value of an [int64] after an operation whose exact result is [z]. *)
Definition wrap_i64 (z : Z) : Z := (z + 2 ^ 63) mod 2 ^ 64 - 2 ^ 63.

Definition int64_range (z : Z) : Prop := - 2 ^ 63 ≤ z < 2 ^ 63.

Definition Z_of_byte (b : byte) : Z := Z.of_N (Byte.to_N b).
Definition byte_of_Z (z : Z) : byte :=
  byte_of_ascii (ascii_of_N (Z.to_N (z mod 256))).

(** ** Package encoding/hex *)

Module hex.

(** [hextable = "0123456789abcdef"]. *)
Definition hextable : list ascii :=
  list_ascii_of_string "0123456789abcdef".

Definition digit (n : Z) : ascii :=
  nth (Z.to_nat n) hextable "0"%char.

(** [EncodeToString]: two digits per byte, high nibble first. *)
Fixpoint EncodeToString (src : list byte) : string :=
  match src with
  | [] => EmptyString
  | b :: rest =>
      String (digit (Z.shiftr (Z_of_byte b) 4))
        (String (digit (Z.land (Z_of_byte b) 15)) (EncodeToString rest))
  end.

(** [reverseHexTable]: the value of a hexadecimal digit of either case,
    [None] for the entries 0xff of the table. *)
Definition fromHexChar (c : ascii) : option Z :=
  let n := Z.of_N (N_of_ascii c) in
  if (48 <=? n) && (n <=? 57) then Some (n - 48)
  else if (97 <=? n) && (n <=? 102) then Some (n - 97 + 10)
  else if (65 <=? n) && (n <=? 70) then Some (n - 65 + 10)
  else None.

(** [Decode]: the bytes decoded before the first error, and whether an
    error (an invalid digit or an odd length) was met. *)
Fixpoint Decode (src : string) : list byte * bool :=
  match src with
  | EmptyString => ([], false)
  | String p EmptyString => ([], true)
  | String p (String q rest) =>
      match fromHexChar p, fromHexChar q with
      | Some a, Some b =>
          let '(out, err) := Decode rest in
          (byte_of_Z (Z.lor (Z.shiftl a 4) b) :: out, err)
      | _, _ => ([], true)
      end
  end.

Definition DecodeString (s : string) : list byte * bool := Decode s.

End hex.

(** ** Package github.com/cespare/xxhash/v2

    The 64-bit xxHash with seed 0, as the package's [Digest] computes it. *)

Module xxhash.

Definition prime1 : Z := 11400714785074694791.
Definition prime2 : Z := 14029467366897019727.
Definition prime3 : Z := 1609587929392839161.
Definition prime4 : Z := 9650029242287828579.
Definition prime5 : Z := 2870177450012600261.

Definition add64 (a b : Z) : Z := wrap_u64 (a + b).
Definition mul64 (a b : Z) : Z := wrap_u64 (a * b).
Definition xor64 (a b : Z) : Z := Z.lxor a b.

(** [bits.RotateLeft64]. *)
Definition rol (r : Z) (x : Z) : Z :=
  Z.lor (wrap_u64 (Z.shiftl x r)) (Z.shiftr x (64 - r)).

(** Little-endian value of the first bytes of [b]. *)
Fixpoint le_value (b : list byte) : Z :=
  match b with
  | [] => 0
  | x :: rest => Z_of_byte x + 256 * le_value rest
  end.

Definition u64 (b : list byte) : Z := le_value (firstn 8 b).
Definition u32 (b : list byte) : Z := le_value (firstn 4 b).

Definition round (acc input : Z) : Z :=
  mul64 (rol 31 (add64 acc (mul64 input prime2))) prime1.

Definition mergeRound (acc val : Z) : Z :=
  add64 (mul64 (xor64 acc (round 0 val)) prime1) prime4.

(** The four accumulators [v1 .. v4] of a [Digest]. *)
Record Lanes : Type := mkLanes { v1 : Z; v2 : Z; v3 : Z; v4 : Z }.

(** [mem] holds the bytes [d.mem[:d.n]]; [d.n] is its length. *)
Record Digest : Type := mkDigest {
  lanes : Lanes;
  total : Z;
  mem : list byte
}.

(** [New] (that is, [Reset]). *)
Definition New : Digest :=
  {| lanes := {| v1 := add64 prime1 prime2; v2 := prime2; v3 := 0;
                 v4 := wrap_u64 (- prime1) |};
     total := 0;
     mem := [] |}.

(** One 32-byte block through the four accumulators. *)
Definition roundBlock (v : Lanes) (b : list byte) : Lanes :=
  {| v1 := round (v1 v) (u64 b);
     v2 := round (v2 v) (u64 (skipn 8 b));
     v3 := round (v3 v) (u64 (skipn 16 b));
     v4 := round (v4 v) (u64 (skipn 24 b)) |}.

(** [k] blocks of [b]: the accumulators and the bytes left over. *)
Fixpoint blocks (k : nat) (v : Lanes) (b : list byte) : Lanes * list byte :=
  match k with
  | O => (v, b)
  | S k' => blocks k' (roundBlock v (firstn 32 b)) (skipn 32 b)
  end.

(** [writeBlocks]: every full block of [b]. *)
Definition writeBlocks (v : Lanes) (b : list byte) : Lanes * list byte :=
  blocks (length b / 32)%nat v b.

Definition Write (d : Digest) (b : list byte) : Digest :=
  let total' := add64 (total d) (Z.of_nat (length b)) in
  if (length (mem d) + length b <? 32)%nat then
    (* This new data doesn't even fill the current block. *)
    {| lanes := lanes d; total := total'; mem := mem d ++ b |}
  else
    let '(v, b1) :=
      if (0 <? length (mem d))%nat then
        (* Finish off the partial block. *)
        let c := (32 - length (mem d))%nat in
        (roundBlock (lanes d) (mem d ++ firstn c b), skipn c b)
      else (lanes d, b) in
    let '(v', b2) :=
      if (32 <=? length b1)%nat then writeBlocks v b1 else (v, b1) in
    (* Store any remaining partial block. *)
    {| lanes := v'; total := total'; mem := b2 |}.

(** The loop of [Sum64] over the 8-byte words of [mem]. *)
Fixpoint tail8 (k : nat) (h : Z) (b : list byte) : Z * list byte :=
  match k with
  | O => (h, b)
  | S k' =>
      let k1 := round 0 (u64 b) in
      tail8 k' (add64 (mul64 (rol 27 (xor64 h k1)) prime1) prime4)
        (skipn 8 b)
  end.

Fixpoint tail1 (h : Z) (b : list byte) : Z :=
  match b with
  | [] => h
  | x :: rest =>
      tail1 (mul64 (rol 11 (xor64 h (mul64 (Z_of_byte x) prime5))) prime1)
        rest
  end.

Definition avalanche (h : Z) : Z :=
  let h := mul64 (xor64 h (Z.shiftr h 33)) prime2 in
  let h := mul64 (xor64 h (Z.shiftr h 29)) prime3 in
  xor64 h (Z.shiftr h 32).

Definition Sum64 (d : Digest) : Z :=
  let h :=
    if 32 <=? total d then
      let v := lanes d in
      let h := add64 (add64 (add64 (rol 1 (v1 v)) (rol 7 (v2 v)))
                        (rol 12 (v3 v))) (rol 18 (v4 v)) in
      let h := mergeRound h (v1 v) in
      let h := mergeRound h (v2 v) in
      let h := mergeRound h (v3 v) in
      mergeRound h (v4 v)
    else add64 (v3 (lanes d)) prime5 in
  let h := add64 h (total d) in
  let '(h, b) := tail8 (length (mem d) / 8)%nat h (mem d) in
  let '(h, b) :=
    if (4 <=? length b)%nat then
      (add64 (mul64 (rol 23 (xor64 h (mul64 (u32 b) prime1))) prime2)
         prime3, skipn 4 b)
    else (h, b) in
  avalanche (tail1 h b).

(** The eight bytes of [s], most significant first. *)
Definition be_bytes (s : Z) : list byte :=
  map (λ k, byte_of_Z (Z.shiftr s k)) [56; 48; 40; 32; 24; 16; 8; 0].

(** [Sum(b)] appends the digest to [b]. *)
Definition Sum (d : Digest) (b : list byte) : list byte :=
  b ++ be_bytes (Sum64 d).

End xxhash.

(** ** Package os: a file as [HashFile] sees it

    [Open] fails or gives a file; a file is the sequence of results of the
    successive calls of [Read]: [n] bytes with a nil error, with [io.EOF]
    or with another error. *)

Module os.

Inductive ReadResult : Type :=
| ReadData (data : list byte)
| ReadEOF (data : list byte)
| ReadFail (data : list byte) (msg : string).

Definition File : Type := list ReadResult.

(** What [Open] returns for each path. *)
Definition FileSystem : Type := string → result File.

End os.

(** ** Package hash (internal/hash/hasher.go) *)

Module hash.

Definition bufferSize : Z := 32 * 1024.

(** The body of the loop up to the tests of [err]: [h.Write(buf[:n])]
    when [n > 0]. *)
Definition feed (h : xxhash.Digest) (data : list byte) : xxhash.Digest :=
  if (0 <? length data)%nat then xxhash.Write h data else h.

(** The read loop; [None] when the file gives no further result, so the
    loop has not returned. *)
Fixpoint readLoop (h : xxhash.Digest) (file : os.File)
    : option (result string) :=
  match file with
  | [] => None
  | os.ReadData data :: rest => readLoop (feed h data) rest
  | os.ReadEOF data :: _ =>
      Some (Ok (hex.EncodeToString (xxhash.Sum (feed h data) [])))
  | os.ReadFail data msg :: _ =>
      Some (Err ("failed to read file: " +:+ msg))
  end.

Definition HashFile (fs : os.FileSystem) (path : string)
    : option (result string) :=
  match fs path with
  | Err msg => Some (Err ("failed to open file: " +:+ msg))
  | Ok file => readLoop xxhash.New file
  end.

Definition XXHashFunc (data : list byte) : result (list byte) :=
  let h := xxhash.Write xxhash.New data in
  let sum := xxhash.Sum64 h in
  Ok (xxhash.be_bytes sum).

End hash.

(** ** Package strings *)

Module strings.

Fixpoint HasPrefix (s prefix : string) : bool :=
  match prefix, s with
  | EmptyString, _ => true
  | String c p, String d r => if decide (c = d) then HasPrefix r p else false
  | String _ _, EmptyString => false
  end.

Fixpoint drop (n : nat) (s : string) : string :=
  match n, s with
  | O, _ => s
  | S n', String _ r => drop n' r
  | S _, EmptyString => EmptyString
  end.

Definition TrimPrefix (s prefix : string) : string :=
  if HasPrefix s prefix then drop (String.length prefix) s else s.

Fixpoint Join (elems : list string) (sep : string) : string :=
  match elems with
  | [] => EmptyString
  | [e] => e
  | e :: rest => e +:+ sep +:+ Join rest sep
  end.

(** [len(s) >= len(suffix) && s[len(s)-len(suffix):] == suffix]. *)
Definition HasSuffix (s suffix : string) : bool :=
  (String.length suffix <=? String.length s)%nat
  && String.eqb
       (String.substring (String.length s - String.length suffix)
          (String.length suffix) s)
       suffix.

Definition TrimSuffix (s suffix : string) : string :=
  if HasSuffix s suffix then
    String.substring 0 (String.length s - String.length suffix) s
  else s.

(** Whether [substr] is within [s]. *)
Fixpoint Contains (s substr : string) : bool :=
  HasPrefix s substr
  || match s with
     | String _ r => Contains r substr
     | EmptyString => false
     end.

(** [Split(s, sep)] for a separator of one byte: the pieces of [s] between
    the separators, empty ones included. *)
Fixpoint Split (s : string) (sep : ascii) : list string :=
  match s with
  | EmptyString => [EmptyString]
  | String c r =>
      if decide (c = sep) then EmptyString :: Split r sep
      else match Split r sep with
           | e :: es => String c e :: es
           | [] => [String c EmptyString]
           end
  end.

End strings.

(** ** Package path/filepath (Unix) *)

Module filepath.

Definition Separator : ascii := "/"%char.

(** The path elements between separators, empty ones included. *)
Fixpoint elements (path : string) : list string :=
  match path with
  | EmptyString => [EmptyString]
  | String c r =>
      if decide (c = Separator) then EmptyString :: elements r
      else match elements r with
           | e :: es => String c e :: es
           | [] => [String c EmptyString]
           end
  end.

Definition rooted (path : string) : bool :=
  match path with
  | String c _ => bool_decide (c = Separator)
  | EmptyString => false
  end.

(** One element of the path against the elements kept so far (last
    first): empty and [.] elements vanish, [..] removes the element
    before it, or stays when there is none to remove and the path is not
    rooted. *)
Definition cleanStep (isRooted : bool) (out : list string) (e : string)
    : list string :=
  if decide (e = EmptyString) then out
  else if decide (e = ".") then out
  else if decide (e = "..") then
    match out with
    | top :: rest =>
        if decide (top = "..") then (if isRooted then out else e :: out)
        else rest
    | [] => if isRooted then out else [e]
    end
  else e :: out.

Definition Clean (path : string) : string :=
  if decide (path = EmptyString) then "."
  else
    let out := fold_left (cleanStep (rooted path)) (elements path) [] in
    let body := strings.Join (rev out) "/" in
    if rooted path then "/" +:+ body
    else if decide (body = EmptyString) then "." else body.

Fixpoint Join (elem : list string) : string :=
  match elem with
  | [] => EmptyString
  | e :: rest =>
      if decide (e = EmptyString) then Join rest
      else Clean (strings.Join (e :: rest) "/")
  end.

(** [path] without its trailing separators. *)
Definition stripTrailing (path : string) : string :=
  String.rev (
    (fix strip (s : string) : string :=
       match s with
       | String c r => if decide (c = Separator) then strip r else s
       | EmptyString => EmptyString
       end) (String.rev path)).

Definition Base (path : string) : string :=
  if decide (path = EmptyString) then "."
  else
    let path := stripTrailing path in
    let path := List.last (elements path) path in
    if decide (path = EmptyString) then "/" else path.

End filepath.

(** ** Package time

    A [Time] is an instant: seconds since the Unix epoch and nanoseconds
    within the second.  The location only matters to printing. *)

Module time.

Record Time : Type := mkTime { sec : Z; nsec : Z }.

Global Instance Time_eq_dec : EqDecision Time.
Proof. solve_decision. Defined.

(** [t.Unix()]. *)
Definition Unix_of (t : Time) : Z := sec t.

(** [time.Unix(sec, 0)]. *)
Definition Unix (s : Z) : Time := {| sec := s; nsec := 0 |}.

(** The zero value of [Time] (year 1), as a map lookup returns it for an
    absent key. *)
Definition zero : Time := {| sec := -62135596800; nsec := 0 |}.

End time.

(** ** Package sort *)

Module sort.

(** [sort.Strings]: ascending in the byte-wise order of strings. *)
Definition Strings (a : list string) : list string :=
  merge_sort String.le a.

End sort.

(** ** Package unicode/utf8 *)

Module utf8.

Definition byteOf (c : ascii) : Z := Z.of_N (N_of_ascii c).

(** [RuneError], U+FFFD, as its three bytes. *)
Definition RuneError : string :=
  String (ascii_of_nat 239)
    (String (ascii_of_nat 191) (String (ascii_of_nat 189) EmptyString)).

(** The tables [first] and [acceptRanges]: for the first byte of an
    encoded rune its width and the range of its second byte; [None] for a
    byte that starts no rune. *)
Definition first (b : Z) : option (nat * Z * Z) :=
  if b <? 128 then Some (1%nat, 0, 0)
  else if (194 <=? b) && (b <=? 223) then Some (2%nat, 128, 191)
  else if b =? 224 then Some (3%nat, 160, 191)
  else if (225 <=? b) && (b <=? 236) then Some (3%nat, 128, 191)
  else if b =? 237 then Some (3%nat, 128, 159)
  else if (238 <=? b) && (b <=? 239) then Some (3%nat, 128, 191)
  else if b =? 240 then Some (4%nat, 144, 191)
  else if (241 <=? b) && (b <=? 243) then Some (4%nat, 128, 191)
  else if b =? 244 then Some (4%nat, 128, 143)
  else None.

Definition inRange (c : ascii) (lo hi : Z) : bool :=
  (lo <=? byteOf c) && (byteOf c <=? hi).

(** [DecodeRuneInString]: the width of the rune at the head of [s];
    [None] where it returns [(RuneError, 1)], for bytes that encode no
    rune, or [(RuneError, 0)], for the empty string. *)
Definition runeWidth (s : string) : option nat :=
  match s with
  | EmptyString => None
  | String s0 r0 =>
      match first (byteOf s0) with
      | None => None
      | Some (1%nat, _, _) => Some 1%nat
      | Some (sz, lo, hi) =>
          match r0 with
          | EmptyString => None
          | String s1 r1 =>
              if negb (inRange s1 lo hi) then None
              else if (sz <=? 2)%nat then Some 2%nat
              else
                match r1 with
                | EmptyString => None
                | String s2 r2 =>
                    if negb (inRange s2 128 191) then None
                    else if (sz <=? 3)%nat then Some 3%nat
                    else
                      match r2 with
                      | EmptyString => None
                      | String s3 _ =>
                          if negb (inRange s3 128 191) then None
                          else Some 4%nat
                      end
                end
          end
      end
  end.

(** [ValidString], rune by rune; [skip] counts the bytes that are left of
    the rune that was decoded last. *)
Fixpoint validFrom (skip : nat) (s : string) : bool :=
  match s with
  | EmptyString => true
  | String _ r =>
      match skip with
      | S k => validFrom k r
      | O =>
          match runeWidth s with
          | Some n => validFrom (n - 1) r
          | None => false
          end
      end
  end.

Definition ValidString (s : string) : bool := validFrom 0 s.

End utf8.

(** ** Package encoding/json: strings and names *)

Module json.

(** A string as the decoder reads it from the text that the encoder
    writes for it: the runes of the string, with U+FFFD for each byte
    that is not part of a well-formed rune; the escapes that the encoder
    writes are read back as the runes that they stand for.  [skip]
    counts the bytes that are left of the rune that was decoded last. *)
Fixpoint coerceFrom (skip : nat) (s : string) : string :=
  match s with
  | EmptyString => EmptyString
  | String c r =>
      match skip with
      | S k => String c (coerceFrom k r)
      | O =>
          match utf8.runeWidth s with
          | Some n => String c (coerceFrom (n - 1) r)
          | None => utf8.RuneError +:+ coerceFrom 0 r
          end
      end
  end.

Definition coerce (s : string) : string := coerceFrom 0 s.

(** [foldName], as far as a comparison with a name of ASCII letters
    needs it: the letters of ASCII in upper case, and the two other runes
    that fold to a letter of ASCII, U+017F to S and U+212A to K; the
    other runes fold to runes outside ASCII and are left as they are. *)
Fixpoint foldName (s : string) : string :=
  match s with
  | EmptyString => EmptyString
  | String c r =>
      let b := utf8.byteOf c in
      if (97 <=? b) && (b <=? 122) then
        String (ascii_of_N (Z.to_N (b - 32))) (foldName r)
      else
        match r with
        | String c1 r1 =>
            if (b =? 197) && (utf8.byteOf c1 =? 191) then
              String "S" (foldName r1)
            else
              match r1 with
              | String c2 r2 =>
                  if (b =? 226) && (utf8.byteOf c1 =? 132)
                     && (utf8.byteOf c2 =? 170) then
                    String "K" (foldName r2)
                  else String c (foldName r)
              | EmptyString => String c (foldName r)
              end
        | EmptyString => String c EmptyString
        end
  end.

(** Whether the key of an object names the field with the JSON name
    [name]: the same name, or else the same folded name. *)
Definition names (key name : string) : bool :=
  String.eqb key name || String.eqb (foldName key) (foldName name).

End json.

(** ** Package tree: types.go *)

Module tree.

Record FileData : Type := mkFileData {
  Hash : string;
  Size : Z;
  ModTime : time.Time
}.

Global Instance FileData_eq_dec : EqDecision FileData.
Proof. solve_decision. Defined.

(** The fields [Hash] and [Size] of a [Node] are [NodeHash] and
    [NodeSize] here; a nil pointer is [None]. *)
#[warnings="-register-all"]
Inductive Node : Type := mkNode {
  NodeHash : string;
  Left : option Node;
  Right : option Node;
  Path : string;       (* Only set for leaf nodes *)
  NodeSize : Z;        (* Only set for leaf nodes *)
  MTime : Z            (* Only set for leaf nodes (Unix timestamp) *)
}.

Record MerkleTree : Type := mkMerkleTree {
  Root : option Node;
  RootPath : string;
  TotalSize : Z;
  Files : gmap string FileData
}.

(** [files[path]]: the zero value for an absent key. *)
Definition zeroFileData : FileData :=
  {| Hash := ""; Size := 0; ModTime := time.zero |}.

Definition lookupFile (files : gmap string FileData) (path : string)
    : FileData :=
  default zeroFileData (files !! path).

(** An order in which a [range] over [m] can yield its keys. *)
Definition IterOrder {V : Type} (m : gmap string V) (order : list string)
    : Prop :=
  order ≡ₚ (map_to_list m).*1.

(** ** builder.go *)

(** The relative path of one file under the cleaned root. *)
Definition relativePath (cleanRoot path : string) : string :=
  let cleanPath := filepath.Clean path in
  let prefix := cleanRoot +:+ String filepath.Separator EmptyString in
  if strings.HasPrefix cleanPath prefix then
    strings.TrimPrefix cleanPath prefix
  else if decide (cleanPath = cleanRoot) then filepath.Base cleanPath
  else path.

(** The leaf of one sorted path. *)
Definition leafNode (files : gmap string FileData) (cleanRoot path : string)
    : Node :=
  let fileData := lookupFile files path in
  {| NodeHash := Hash fileData;
     Left := None; Right := None;
     Path := relativePath cleanRoot path;
     NodeSize := Size fileData;
     MTime := time.Unix_of (ModTime fileData) |}.

(** The hash of a parent: the digest of the two decoded hashes, one after
    the other; the errors of [hex.DecodeString] are dropped. *)
Definition parentHash (leftHash rightHash : string) : result string :=
  let leftHashBytes := (hex.DecodeString leftHash).1 in
  let rightHashBytes := (hex.DecodeString rightHash).1 in
  let combined := leftHashBytes ++ rightHashBytes in
  wrapErr "failed to hash parent node" (hash.XXHashFunc combined)
    (λ parentHash, Ok (hex.EncodeToString parentHash)).

(** One pass of the inner loop [for i := 0; i < len(currentLevel); i += 2]. *)
Fixpoint pairLevel (currentLevel : list Node) : result (list Node) :=
  match currentLevel with
  | [] => Ok []
  | leftNode :: rightNode :: rest =>
      (* Create parent from pair of nodes *)
      h ← parentHash (NodeHash leftNode) (NodeHash rightNode);
      let parentNode :=
        {| NodeHash := h; Left := Some leftNode; Right := Some rightNode;
           Path := ""; NodeSize := 0; MTime := 0 |} in
      nextLevel ← pairLevel rest;
      Ok (parentNode :: nextLevel)
  | [node] =>
      (* Odd node: duplicate it *)
      h ← parentHash (NodeHash node) (NodeHash node);
      let parentNode :=
        {| NodeHash := h; Left := Some node; Right := Some node;
           Path := ""; NodeSize := 0; MTime := 0 |} in
      Ok [parentNode]
  end.

(** The outer loop [for len(currentLevel) > 1], at most [fuel] passes. *)
Fixpoint buildLevels (fuel : nat) (currentLevel : list Node)
    : option (result (list Node)) :=
  if (1 <? length currentLevel)%nat then
    match fuel with
    | O => None
    | S fuel' =>
        match pairLevel currentLevel with
        | Ok nextLevel => buildLevels fuel' nextLevel
        | Err msg => Some (Err msg)
        end
    end
  else Some (Ok currentLevel).

(** [totalSize += fileData.Size] over the map in the order [order]. *)
Definition sumSizes (files : gmap string FileData) (order : list string)
    : Z :=
  fold_left (λ totalSize path,
               wrap_i64 (totalSize + Size (lookupFile files path)))
    order 0.

(** [Build], with the orders in which its two [range] loops over [files]
    yield the keys.  The result is [None] only if the pairing loop needs
    more than [length paths] passes. *)
Definition Build (files : gmap string FileData) (rootPath : string)
    (order1 order2 : list string) : option (result MerkleTree) :=
  if decide (size files = 0%nat) then
    (* Handle empty files case *)
    let emptyData := list_byte_of_string "empty-tree" in
    Some (wrapErr "failed to create empty tree hash"
            (hash.XXHashFunc emptyData)
            (λ rootHash,
               Ok {| Root := Some {| NodeHash := hex.EncodeToString rootHash;
                                     Left := None; Right := None;
                                     Path := ""; NodeSize := 0; MTime := 0 |};
                     RootPath := rootPath;
                     TotalSize := 0;
                     Files := ∅ |}))
  else
    (* Sort paths alphabetically for deterministic ordering *)
    let paths := sort.Strings order1 in
    (* Calculate total size *)
    let totalSize := sumSizes files order2 in
    (* Clean the root path for comparison *)
    let cleanRoot := filepath.Clean rootPath in
    (* Build leaf level *)
    let currentLevel := map (leafNode files cleanRoot) paths in
    match buildLevels (length currentLevel) currentLevel with
    | None => None
    | Some (Err msg) => Some (Err msg)
    | Some (Ok currentLevel) =>
        (* The last remaining node is the root *)
        Some (Ok {| Root := head currentLevel;
                    RootPath := rootPath;
                    TotalSize := totalSize;
                    Files := files |})
    end.

(** ** serializer.go

    A file that holds JSON text is modelled by the JSON value that the
    decoder reads from the text: the text layer of encoding/json
    ([MarshalIndent], the scanner of [Unmarshal]) is not part of the
    model, its mapping between values of Go types and JSON values is.  A
    string of Go stands in the value as it is read back, with U+FFFD for
    each byte that is no UTF-8 ([json.coerce]), and the key of an object
    names a field whatever the case of its letters ([json.names]).  The
    scanner refuses a text of more than 10000 nested values; the model
    has no such bound: a statement on the saving of a tree that [Build]
    has not made bounds the height of the tree, and a statement on the
    loading of a document bounds its nesting. *)

#[warnings="-register-all"]
Inductive JSON : Type :=
| JNull
| JBool (b : bool)
| JNumber (n : Z)
| JString (s : string)
| JArray (items : list JSON)
| JObject (fields : list (string * JSON)).

(** What the model takes from outside the repository: the RFC 3339 text
    of a [time.Time] in JSON, and the ["%.2f"] rendering of
    [float64(bytes)/float64(unit)] in [formatSize]. *)
Record Platform : Type := mkPlatform {
  timeMarshalJSON : time.Time → result string;
  timeUnmarshalJSON : string → result time.Time;
  sprintf_2f : Z → Z → string
}.

Record SerializedTree : Type := mkSerializedTree {
  Generator : string;      (* json:"generator" *)
  Created : time.Time;     (* json:"created" *)
  SRoot : string;          (* Root, json:"root" *)
  SSize : string;          (* Size, json:"size" *)
  Tree : option Node       (* json:"tree" *)
}.

Definition zeroNode : Node :=
  {| NodeHash := ""; Left := None; Right := None; Path := "";
     NodeSize := 0; MTime := 0 |}.

Definition zeroSerializedTree : SerializedTree :=
  {| Generator := ""; Created := time.zero; SRoot := ""; SSize := "";
     Tree := None |}.

(** A [Node] as a JSON object, its fields in the order of the struct;
    the fields tagged [omitempty] are left out when nil, empty or 0.  A
    string stands in the document as the decoder reads it back. *)
Fixpoint marshalNode (n : Node) : JSON :=
  match n with
  | mkNode h l r p sz mt =>
      JObject (
        [("hash", JString (json.coerce h))]
        ++ match l with Some l' => [("left", marshalNode l')] | None => [] end
        ++ match r with Some r' => [("right", marshalNode r')] | None => [] end
        ++ (if decide (p = "") then []
            else [("path", JString (json.coerce p))])
        ++ (if decide (sz = 0) then [] else [("size", JNumber sz)])
        ++ (if decide (mt = 0) then [] else [("mtime", JNumber mt)]))
  end.

Definition typeError {A : Type} : result A :=
  Err "json: cannot unmarshal value into Go struct field".

(** A JSON value into a [string] field: [null] leaves the field. *)
Definition unmarshalString (j : JSON) (into : string) : result string :=
  match j with
  | JString s => Ok s
  | JNull => Ok into
  | _ => typeError
  end.

(** A JSON value into an [int64] field. *)
Definition unmarshalInt64 (j : JSON) (into : Z) : result Z :=
  match j with
  | JNumber n =>
      if decide (- 2 ^ 63 ≤ n < 2 ^ 63) then Ok n else typeError
  | JNull => Ok into
  | _ => typeError
  end.

(** A JSON value into a [*Node] that holds [into]: [null] gives nil, an
    object is decoded into the node pointed to (a new one if nil), key by
    key in the order of the text; a key names the field of the same name,
    or else of the same name but for the case of its letters, and other
    keys are skipped. *)
Fixpoint unmarshalNode (j : JSON) (into : option Node)
    : result (option Node) :=
  match j with
  | JNull => Ok None
  | JObject fields =>
      n ← (fix members (fs : list (string * JSON)) (acc : Node)
              : result Node :=
             match fs with
             | [] => Ok acc
             | (k, v) :: rest =>
                 acc' ←
                   (if json.names k "hash" then
                      h ← unmarshalString v (NodeHash acc);
                      Ok (mkNode h (Left acc) (Right acc) (Path acc)
                            (NodeSize acc) (MTime acc))
                    else if json.names k "left" then
                      l ← unmarshalNode v (Left acc);
                      Ok (mkNode (NodeHash acc) l (Right acc) (Path acc)
                            (NodeSize acc) (MTime acc))
                    else if json.names k "right" then
                      r ← unmarshalNode v (Right acc);
                      Ok (mkNode (NodeHash acc) (Left acc) r (Path acc)
                            (NodeSize acc) (MTime acc))
                    else if json.names k "path" then
                      p ← unmarshalString v (Path acc);
                      Ok (mkNode (NodeHash acc) (Left acc) (Right acc) p
                            (NodeSize acc) (MTime acc))
                    else if json.names k "size" then
                      sz ← unmarshalInt64 v (NodeSize acc);
                      Ok (mkNode (NodeHash acc) (Left acc) (Right acc)
                            (Path acc) sz (MTime acc))
                    else if json.names k "mtime" then
                      mt ← unmarshalInt64 v (MTime acc);
                      Ok (mkNode (NodeHash acc) (Left acc) (Right acc)
                            (Path acc) (NodeSize acc) mt)
                    else Ok acc);
                 members rest acc'
             end) fields (default zeroNode into);
      Ok (Some n)
  | _ => typeError
  end.

Section serializer.

Variable platform : Platform.

Definition KB : Z := 1024.
Definition MB : Z := KB * 1024.
Definition GB : Z := MB * 1024.

Definition formatSize (bytes : Z) : string :=
  if GB <=? bytes then sprintf_2f platform bytes GB +:+ " GB"
  else if MB <=? bytes then sprintf_2f platform bytes MB +:+ " MB"
  else if KB <=? bytes then sprintf_2f platform bytes KB +:+ " KB"
  else pretty bytes +:+ " B".

(** [json.MarshalIndent(serialized, ...)], as a JSON value. *)
Definition marshal (serialized : SerializedTree) : result JSON :=
  created ← timeMarshalJSON platform (Created serialized);
  Ok (JObject [
    ("generator", JString (json.coerce (Generator serialized)));
    ("created", JString created);
    ("root", JString (json.coerce (SRoot serialized)));
    ("size", JString (json.coerce (SSize serialized)));
    ("tree", match Tree serialized with
             | Some n => marshalNode n
             | None => JNull
             end)]).

Definition unmarshalTime (j : JSON) (into : time.Time)
    : result time.Time :=
  match j with
  | JString s => timeUnmarshalJSON platform s
  | JNull => Ok into
  | _ => typeError
  end.

Fixpoint unmarshalMembers (fs : list (string * JSON))
    (acc : SerializedTree) : result SerializedTree :=
  match fs with
  | [] => Ok acc
  | (k, v) :: rest =>
      acc' ←
        (if json.names k "generator" then
           g ← unmarshalString v (Generator acc);
           Ok (mkSerializedTree g (Created acc) (SRoot acc) (SSize acc)
                 (Tree acc))
         else if json.names k "created" then
           c ← unmarshalTime v (Created acc);
           Ok (mkSerializedTree (Generator acc) c (SRoot acc) (SSize acc)
                 (Tree acc))
         else if json.names k "root" then
           r ← unmarshalString v (SRoot acc);
           Ok (mkSerializedTree (Generator acc) (Created acc) r
                 (SSize acc) (Tree acc))
         else if json.names k "size" then
           sz ← unmarshalString v (SSize acc);
           Ok (mkSerializedTree (Generator acc) (Created acc) (SRoot acc)
                 sz (Tree acc))
         else if json.names k "tree" then
           t ← unmarshalNode v (Tree acc);
           Ok (mkSerializedTree (Generator acc) (Created acc) (SRoot acc)
                 (SSize acc) t)
         else Ok acc);
      unmarshalMembers rest acc'
  end.

(** [json.Unmarshal(data, &serialized)] into a zero [SerializedTree]. *)
Definition unmarshal (data : JSON) : result SerializedTree :=
  match data with
  | JObject fields => unmarshalMembers fields zeroSerializedTree
  | JNull => Ok zeroSerializedTree
  | _ => typeError
  end.

(** The files of the disk that hold JSON, and whether [os.WriteFile]
    succeeds on a path. *)
Record Disk : Type := mkDisk {
  content : gmap string JSON;
  writable : string → bool
}.

Definition WriteFile (disk : Disk) (path : string) (data : JSON)
    : result () * Disk :=
  if writable disk path then
    (Ok (), {| content := <[path := data]> (content disk);
               writable := writable disk |})
  else (Err "permission denied", disk).

Definition ReadFile (disk : Disk) (path : string) : result JSON :=
  match content disk !! path with
  | Some data => Ok data
  | None => Err "no such file or directory"
  end.

(** [Save]; [now] is what [time.Now()] returns. *)
Definition Save (tree : MerkleTree) (path : string) (now : time.Time)
    (disk : Disk) : result () * Disk :=
  let serialized :=
    {| Generator := "merkle-go";
       Created := now;
       SRoot := RootPath tree;
       SSize := formatSize (TotalSize tree);
       Tree := Root tree |} in
  match marshal serialized with
  | Err msg => (Err ("failed to marshal tree: " +:+ msg), disk)
  | Ok data =>
      match WriteFile disk path data with
      | (Err msg, disk') => (Err ("failed to write file: " +:+ msg), disk')
      | (Ok _, disk') => (Ok (), disk')
      end
  end.

(** The closure [collectLeaves] of [Load]; the state it updates is the
    pair of [totalSize] and [files]. *)
Fixpoint collectLeaves (root : string) (node : Node)
    (acc : Z * gmap string FileData) : Z * gmap string FileData :=
  match node with
  | mkNode h l r p sz mt =>
      let acc :=
        if decide (p ≠ "") then
          (* This is a leaf node *)
          let totalSize := wrap_i64 (acc.1 + sz) in
          (* Convert relative path to absolute path *)
          let absolutePath := filepath.Join [root; p] in
          if decide (mt ≠ 0) then
            (totalSize,
             <[absolutePath := {| Hash := h; Size := sz;
                                  ModTime := time.Unix mt |}]> acc.2)
          else (totalSize, acc.2)
        else acc in
      let acc :=
        match l with Some l' => collectLeaves root l' acc | None => acc end in
      match r with Some r' => collectLeaves root r' acc | None => acc end
  end.

(** The part of [Load] after the file is decoded. *)
Definition fromSerialized (serialized : SerializedTree) : MerkleTree :=
  let '(totalSize, files) :=
    match Tree serialized with
    | Some node => collectLeaves (SRoot serialized) node (0, ∅)
    | None => (0, ∅)
    end in
  {| Root := Tree serialized;
     RootPath := SRoot serialized;
     TotalSize := totalSize;
     Files := files |}.

Definition Load (path : string) (disk : Disk) : result MerkleTree :=
  wrapErr "failed to read file" (ReadFile disk path) (λ data,
    wrapErr "failed to unmarshal tree" (unmarshal data) (λ serialized,
      Ok (fromSerialized serialized))).

End serializer.

End tree.

(** ** Package compare (internal/compare/comparer.go) *)

Module compare.

Inductive ChangeType : Type := Added | Modified | Deleted.

Global Instance ChangeType_eq_dec : EqDecision ChangeType.
Proof. solve_decision. Defined.

Record Change : Type := mkChange {
  Type' : ChangeType;
  Path : string;
  OldData : option tree.FileData;
  NewData : option tree.FileData
}.

Global Instance Change_eq_dec : EqDecision Change.
Proof. solve_decision. Defined.

Record CompareResult : Type := mkCompareResult {
  added : list Change;      (* Added *)
  modified : list Change;   (* Modified *)
  deleted : list Change     (* Deleted *)
}.

Definition HasChanges (r : CompareResult) : bool :=
  (0 <? length (added r))%nat || (0 <? length (modified r))%nat
  || (0 <? length (deleted r))%nat.

(** [sort.Slice(changes, func(i, j) { return changes[i].Path <
    changes[j].Path })]. *)
Definition byPath : relation Change := λ a b, String.le (Path a) (Path b).

Definition sortByPath (changes : list Change) : list Change :=
  merge_sort byPath changes.

(** The first loop: one key of [newTree.Files]. *)
Definition checkNew (oldFiles newFiles : gmap string tree.FileData)
    (r : CompareResult) (path : string) : CompareResult :=
  match newFiles !! path with
  | None => r
  | Some newData =>
      match oldFiles !! path with
      | Some oldData =>
          (* File exists in both - check if modified *)
          if decide (tree.Hash oldData ≠ tree.Hash newData) then
            {| added := added r;
               modified := modified r ++
                 [{| Type' := Modified; Path := path;
                     OldData := Some oldData; NewData := Some newData |}];
               deleted := deleted r |}
          else r
      | None =>
          (* File only in new tree - added *)
          {| added := added r ++
               [{| Type' := Added; Path := path;
                   OldData := None; NewData := Some newData |}];
             modified := modified r;
             deleted := deleted r |}
      end
  end.

(** The second loop: one key of [oldTree.Files]. *)
Definition checkOld (oldFiles newFiles : gmap string tree.FileData)
    (r : CompareResult) (path : string) : CompareResult :=
  match oldFiles !! path with
  | None => r
  | Some oldData =>
      match newFiles !! path with
      | Some _ => r
      | None =>
          {| added := added r;
             modified := modified r;
             deleted := deleted r ++
               [{| Type' := Deleted; Path := path;
                   OldData := Some oldData; NewData := None |}] |}
      end
  end.

(** [Compare]; [orderNew] and [orderOld] are the orders in which the two
    [range] loops yield the keys of [newTree.Files] and [oldTree.Files]. *)
Definition Compare (oldTree newTree : tree.MerkleTree)
    (orderNew orderOld : list string) : CompareResult :=
  let result := {| added := []; modified := []; deleted := [] |} in
  (* Check for added and modified files *)
  let result :=
    fold_left (checkNew (tree.Files oldTree) (tree.Files newTree))
      orderNew result in
  (* Check for deleted files *)
  let result :=
    fold_left (checkOld (tree.Files oldTree) (tree.Files newTree))
      orderOld result in
  (* Sort for deterministic output *)
  {| added := sortByPath (added result);
     modified := sortByPath (modified result);
     deleted := sortByPath (deleted result) |}.

Section report.

(** [t.Format("2006-01-02")]: the day of [t] in the zone of [t]. *)
Variable formatDate : time.Time → string.

Definition newline : string := String (ascii_of_nat 10) EmptyString.

(** [*p] of a pointer that can be nil: [None] is the panic of a nil
    dereference, which ends [FormatReport] without a report. *)
Definition deref {A : Type} (p : option A) : option A := p.

(** The lines of one change in each of the three loops. *)
Definition addedLine (change : Change) : option string :=
  newData ← deref (NewData change);
  Some ("  + " +:+ Path change +:+ " (hash: " +:+ tree.Hash newData
        +:+ ", size: " +:+ pretty (tree.Size newData) +:+ " bytes)"
        +:+ newline).

Definition modifiedLines (change : Change) : option string :=
  oldData ← deref (OldData change);
  newData ← deref (NewData change);
  Some ("  ~ " +:+ Path change +:+ newline
        +:+ "    Old: hash=" +:+ tree.Hash oldData +:+ ", size="
        +:+ pretty (tree.Size oldData) +:+ " bytes, modified="
        +:+ formatDate (tree.ModTime oldData) +:+ newline
        +:+ "    New: hash=" +:+ tree.Hash newData +:+ ", size="
        +:+ pretty (tree.Size newData) +:+ " bytes, modified="
        +:+ formatDate (tree.ModTime newData) +:+ newline).

Definition deletedLine (change : Change) : option string :=
  oldData ← deref (OldData change);
  Some ("  - " +:+ Path change +:+ " (hash: " +:+ tree.Hash oldData
        +:+ ", size: " +:+ pretty (tree.Size oldData) +:+ " bytes)"
        +:+ newline).

(** One of the three blocks: nothing for an empty sequence, else the
    heading, the lines of each change and an empty line. *)
Definition block (heading : string) (line : Change → option string)
    (changes : list Change) (report : string) : option string :=
  if (0 <? length changes)%nat then
    report ←
      fold_left (λ report change,
                   report ← report;
                   l ← line change;
                   Some (report +:+ l))
        changes
        (Some (report +:+ heading +:+ " (" +:+ pretty (length changes)
               +:+ " files):" +:+ newline));
    Some (report +:+ newline)
  else Some report.

Definition FormatReport (result : CompareResult) : option string :=
  if negb (HasChanges result) then Some "No changes detected."
  else
    let report := "Changes detected:" +:+ newline +:+ newline in
    report ← block "ADDED" addedLine (added result) report;
    report ← block "MODIFIED" modifiedLines (modified result) report;
    report ← block "DELETED" deletedLine (deleted result) report;
    Some (report +:+ "Summary: " +:+ pretty (length (added result))
          +:+ " added, " +:+ pretty (length (modified result))
          +:+ " modified, " +:+ pretty (length (deleted result))
          +:+ " deleted" +:+ newline).

End report.

End compare.

(** ** Package walker: the worker pool of [HashFiles]

    The goroutines of [HashFiles] (the sender of jobs, [numWorkers]
    workers, the goroutine that closes [results], and the collecting loop
    of the caller) are modelled by a transition system; a run is a list of
    actions, one per step of one goroutine.  The two channels are queues:
    both are made with room for [len(files)] values, so that a send never
    waits.  An error is its message, the one of [fmt.Errorf("%s: %w")] for
    a collected error.  The progress bar is left out. *)

Module walker.

Record FileInfo : Type := mkFileInfo {
  Path : string;
  Size : Z;
  ModTime : time.Time
}.

(** What [shouldExclude] is given of a directory entry. *)
Record DirEntry : Type := mkDirEntry { Name : string; IsDir : bool }.

Section exclusions.

(** [filepath.Match(pattern, name)], taken as it is. *)
Variable Match : string → string → result bool.

(** [matched, err := filepath.Match(...)] followed by
    [err == nil && matched]; [matched] is false with an error. *)
Definition matches (pattern name : string) : bool :=
  match Match pattern name with
  | Ok matched => matched
  | Err _ => false
  end.

(** The body of the loop for one pattern: whether it returns true. *)
Definition excludes (relPath : string) (pattern : string) : bool :=
  if strings.HasSuffix pattern "/" then
    (* Handle directory exclusions (patterns ending with /) *)
    let dirPattern := strings.TrimSuffix pattern "/" in
    let parts := strings.Split relPath filepath.Separator in
    existsb (λ part, matches dirPattern part
                     || bool_decide (part = dirPattern)) parts
  else
    (* Handle file pattern exclusions *)
    matches pattern (filepath.Base relPath)
    || (strings.Contains pattern "/" && matches pattern relPath).

Fixpoint shouldExclude (relPath : string) (d : DirEntry)
    (exclusions : list string) : bool :=
  match exclusions with
  | [] => false
  | pattern :: rest =>
      if excludes relPath pattern then true
      else shouldExclude relPath d rest
  end.

End exclusions.

Record HashResult : Type := mkHashResult {
  Hashes : gmap string string;   (* path -> hash *)
  Errors : list string
}.

Record hashJob : Type := mkHashJob { fileInfo : FileInfo }.

Record hashJobResult : Type := mkHashJobResult {
  path : string;
  hash : string;
  err : option string
}.

(** Where a worker stands in its loop [for job := range jobs]. *)
Inductive Worker : Type :=
| Waiting                       (* at the receive from [jobs] *)
| Working (job : hashJob)       (* received, before [hash.HashFile] *)
| Sending (r : hashJobResult)   (* hashed, before the send to [results] *)
| Done.                         (* left the loop: [wg.Done()] *)

Record State : Type := mkState {
  toSend : list FileInfo;        (* what the sender has yet to send *)
  jobs : list hashJob;           (* the buffer of the channel [jobs] *)
  jobsClosed : bool;
  workers : list Worker;
  results : list hashJobResult;  (* the buffer of the channel [results] *)
  resultsClosed : bool;
  result : HashResult;
  returned : bool;
  attempts : list string         (* the calls of [hash.HashFile] so far *)
}.

Inductive Action : Type :=
| SendJob                 (* jobs <- hashJob{fileInfo} *)
| CloseJobs               (* close(jobs) *)
| Receive (i : nat)       (* worker i: job := <-jobs *)
| Hash (i : nat)          (* worker i: hash.HashFile(job.fileInfo.Path) *)
| SendResult (i : nat)    (* worker i: results <- hashJobResult{...} *)
| Exit (i : nat)          (* worker i: jobs is closed and drained *)
| CloseResults            (* wg.Wait(); close(results) *)
| Collect                 (* the caller: jobResult := <-results *)
| Return.                 (* the caller: results is closed and drained *)

Definition allDone (ws : list Worker) : bool :=
  forallb (λ w, match w with Done => true | _ => false end) ws.

(** The body of the collecting loop. *)
Definition collect (r : HashResult) (jobResult : hashJobResult)
    : HashResult :=
  match err jobResult with
  | Some e =>
      {| Hashes := Hashes r;
         Errors := Errors r ++ [path jobResult +:+ ": " +:+ e] |}
  | None =>
      {| Hashes := <[path jobResult := hash jobResult]> (Hashes r);
         Errors := Errors r |}
  end.

Section pool.

Variable fs : os.FileSystem.

(** One step of one goroutine; [None] when that goroutine cannot take
    the step in state [s] (it is blocked, or elsewhere in its code). *)
Definition step (a : Action) (s : State) : option State :=
  if returned s then None else
  match a with
  | SendJob =>
      match toSend s with
      | f :: rest =>
          Some (mkState rest (jobs s ++ [mkHashJob f]) (jobsClosed s)
                  (workers s) (results s) (resultsClosed s) (result s)
                  (returned s) (attempts s))
      | [] => None
      end
  | CloseJobs =>
      match toSend s with
      | [] =>
          if jobsClosed s then None else
          Some (mkState [] (jobs s) true (workers s) (results s)
                  (resultsClosed s) (result s) (returned s) (attempts s))
      | _ => None
      end
  | Receive i =>
      match workers s !! i, jobs s with
      | Some Waiting, job :: rest =>
          Some (mkState (toSend s) rest (jobsClosed s)
                  (<[i := Working job]> (workers s)) (results s)
                  (resultsClosed s) (result s) (returned s) (attempts s))
      | _, _ => None
      end
  | Hash i =>
      match workers s !! i with
      | Some (Working job) =>
          let p := Path (fileInfo job) in
          match hash.HashFile fs p with
          | Some (Ok hashStr) =>
              Some (mkState (toSend s) (jobs s) (jobsClosed s)
                      (<[i := Sending (mkHashJobResult p hashStr None)]>
                         (workers s))
                      (results s) (resultsClosed s) (result s)
                      (returned s) (attempts s ++ [p]))
          | Some (Err e) =>
              Some (mkState (toSend s) (jobs s) (jobsClosed s)
                      (<[i := Sending (mkHashJobResult p "" (Some e))]>
                         (workers s))
                      (results s) (resultsClosed s) (result s)
                      (returned s) (attempts s ++ [p]))
          | None => None
          end
      | _ => None
      end
  | SendResult i =>
      match workers s !! i with
      | Some (Sending r) =>
          Some (mkState (toSend s) (jobs s) (jobsClosed s)
                  (<[i := Waiting]> (workers s)) (results s ++ [r])
                  (resultsClosed s) (result s) (returned s) (attempts s))
      | _ => None
      end
  | Exit i =>
      match workers s !! i, jobs s with
      | Some Waiting, [] =>
          if jobsClosed s then
            Some (mkState (toSend s) [] true (<[i := Done]> (workers s))
                    (results s) (resultsClosed s) (result s) (returned s)
                    (attempts s))
          else None
      | _, _ => None
      end
  | CloseResults =>
      if allDone (workers s) && negb (resultsClosed s) then
        Some (mkState (toSend s) (jobs s) (jobsClosed s) (workers s)
                (results s) true (result s) (returned s) (attempts s))
      else None
  | Collect =>
      match results s with
      | jobResult :: rest =>
          Some (mkState (toSend s) (jobs s) (jobsClosed s) (workers s)
                  rest (resultsClosed s) (collect (result s) jobResult)
                  (returned s) (attempts s))
      | [] => None
      end
  | Return =>
      match results s with
      | [] =>
          if resultsClosed s then
            Some (mkState (toSend s) (jobs s) (jobsClosed s) (workers s)
                    [] true (result s) true (attempts s))
          else None
      | _ => None
      end
  end.

(** The worker count after [if numWorkers <= 0 { numWorkers = 1 }]. *)
Definition workerCount (numWorkers : Z) : nat :=
  if numWorkers <=? 0 then 1%nat else Z.to_nat numWorkers.

(** The state of [HashFiles] once its goroutines are started; with no
    file it has returned the empty result already. *)
Definition start (files : list FileInfo) (numWorkers : Z) : State :=
  let result := {| Hashes := ∅; Errors := [] |} in
  if decide (length files = 0%nat) then
    mkState [] [] false [] [] false result true []
  else
    mkState files [] false (replicate (workerCount numWorkers) Waiting)
      [] false result false [].

(** A run: the actions of a schedule, each one enabled in its turn. *)
Fixpoint run (schedule : list Action) (s : State) : option State :=
  match schedule with
  | [] => Some s
  | a :: rest =>
      match step a s with
      | Some s' => run rest s'
      | None => None
      end
  end.

(** [HashFiles] under a schedule that runs it to its return. *)
Definition HashFiles (files : list FileInfo) (numWorkers : Z)
    (schedule : list Action) : option HashResult :=
  match run schedule (start files numWorkers) with
  | Some s => if returned s then Some (result s) else None
  | None => None
  end.

End pool.

End walker.

(** ** Package main (cmd/merkle-go/main.go)

    The loop of [generateTree] and of [compareTree] that makes the files
    mapping of [tree.Build] from the files of the walk and their hashes. *)

Module main.

Definition fileDataMap (files : list walker.FileInfo)
    (hashes : gmap string string) : gmap string tree.FileData :=
  fold_left
    (λ fileDataMap fileInfo,
       match hashes !! walker.Path fileInfo with
       | Some hash =>
           <[walker.Path fileInfo :=
               {| tree.Hash := hash;
                  tree.Size := walker.Size fileInfo;
                  tree.ModTime := walker.ModTime fileInfo |}]> fileDataMap
       | None => fileDataMap
       end)
    files ∅.

End main.

(** * Definitions used by the statements *)

Import tree.

(** H of the specification: the digest of the two decoded hashes. *)
Definition digest (data : list byte) : string :=
  hex.EncodeToString (xxhash.be_bytes (xxhash.Sum64 (xxhash.Write xxhash.New data))).

Definition H (leftHash rightHash : string) : string :=
  digest ((hex.DecodeString leftHash).1 ++ (hex.DecodeString rightHash).1).

Definition parentOf (l r : Node) : Node :=
  {| NodeHash := H (NodeHash l) (NodeHash r); Left := Some l; Right := Some r;
     Path := ""; NodeSize := 0; MTime := 0 |}.

Fixpoint pairs (level : list Node) : list Node :=
  match level with
  | [] => []
  | l :: r :: rest => parentOf l r :: pairs rest
  | [n] => [parentOf n n]
  end.

Fixpoint reduce (fuel : nat) (level : list Node) : list Node :=
  if (1 <? length level)%nat then
    match fuel with
    | O => level
    | S fuel' => reduce fuel' (pairs level)
    end
  else level.

Definition rootHash (t : MerkleTree) : option string := NodeHash <$> Root t.

Fixpoint hpairs (level : list string) : list string :=
  match level with
  | [] => []
  | l :: r :: rest => H l r :: hpairs rest
  | [n] => [H n n]
  end.

Fixpoint hreduce (fuel : nat) (level : list string) : list string :=
  if (1 <? length level)%nat then
    match fuel with
    | O => level
    | S fuel' => hreduce fuel' (hpairs level)
    end
  else level.

(** The hashes of the leaves: the content hashes in the order of the sorted paths. *)
Definition leafHashes (files : gmap string FileData) (paths : list string) : list string :=
  map (λ p, Hash (lookupFile files p)) paths.

(** The nodes of the tree under [n], [n] first. *)
Fixpoint subnodes (n : Node) : list Node :=
  match n with
  | mkNode _ l r _ _ _ =>
      n :: match l with Some l' => subnodes l' | None => [] end
        ++ match r with Some r' => subnodes r' | None => [] end
  end.

(** The bytes that a hash decodes to, as [Build] takes them. *)
Definition decoded (n : Node) : list byte :=
  (hex.DecodeString (NodeHash n)).1.

(** The bytes that [Build] hashes for an inner node: the decoded hash of
    the left child followed by that of the right one. *)
Definition hashedBytes (n : Node) : option (list byte) :=
  match Left n, Right n with
  | Some l, Some r => Some (decoded l ++ decoded r)
  | _, _ => None
  end.

(** The trees [t] and [t'] hold a collision of the parent digest: an
    inner node of each whose hash is the digest of the bytes hashed for
    it, where the bytes differ and [XXHashFunc] returns the same sum. *)
Definition DigestCollision (t t' : MerkleTree) : Prop :=
  ∃ root root' n n' data data',
    Root t = Some root ∧ Root t' = Some root'
    ∧ n ∈ subnodes root ∧ n' ∈ subnodes root'
    ∧ hashedBytes n = Some data ∧ hashedBytes n' = Some data'
    ∧ NodeHash n = digest data ∧ NodeHash n' = digest data'
    ∧ data ≠ data'
    ∧ hash.XXHashFunc data = hash.XXHashFunc data'.

(** Two levels of the same length whose hashes decode to different bytes
    at index [i], and are the same elsewhere. *)
Definition DiffAt (i : nat) (level level' : list Node) : Prop :=
  length level = length level'
  ∧ (∃ x x', level !! i = Some x ∧ level' !! i = Some x'
             ∧ decoded x ≠ decoded x')
  ∧ ∀ j, j ≠ i → NodeHash <$> level !! j = NodeHash <$> level' !! j.

(** What one key contributes to each sequence of [Compare]. *)
Definition addedOf (oldFiles newFiles : gmap string FileData) (p : string)
    : option compare.Change :=
  match newFiles !! p, oldFiles !! p with
  | Some newData, None =>
      Some (compare.mkChange compare.Added p None (Some newData))
  | _, _ => None
  end.

Definition modifiedOf (oldFiles newFiles : gmap string FileData) (p : string)
    : option compare.Change :=
  match newFiles !! p, oldFiles !! p with
  | Some newData, Some oldData =>
      if decide (Hash oldData ≠ Hash newData) then
        Some (compare.mkChange compare.Modified p (Some oldData)
                (Some newData))
      else None
  | _, _ => None
  end.

Definition deletedOf (oldFiles newFiles : gmap string FileData) (p : string)
    : option compare.Change :=
  match oldFiles !! p, newFiles !! p with
  | Some oldData, None =>
      Some (compare.mkChange compare.Deleted p (Some oldData) None)
  | _, _ => None
  end.

(** The sum of [f] over a list. *)
Fixpoint sum_with {A : Type} (f : A → Z) (l : list A) : Z :=
  match l with
  | [] => 0
  | x :: rest => f x + sum_with f rest
  end.

(** What [collectLeaves] does at one node, before it descends. *)
Definition visit (root : string) (acc : Z * gmap string FileData) (x : Node)
    : Z * gmap string FileData :=
  if decide (Path x ≠ "") then
    let totalSize := wrap_i64 (acc.1 + NodeSize x) in
    if decide (MTime x ≠ 0) then
      (totalSize,
       <[filepath.Join [root; Path x] :=
           {| Hash := NodeHash x; Size := NodeSize x;
              ModTime := time.Unix (MTime x) |}]> acc.2)
    else (totalSize, acc.2)
  else acc.

(** The size a node adds to [totalSize]: its own if it carries a path. *)
Definition sizeOf (x : Node) : Z :=
  if decide (Path x ≠ "") then NodeSize x else 0.

(** The sum of the sizes over every occurrence of a leaf in the walk. *)
Definition walkSum (n : Node) : Z := sum_with sizeOf (subnodes n).

(** Whether a node makes an entry of the files map, and for which path. *)
Definition entryOf (root : string) (x : Node) : option string :=
  if decide (Path x ≠ "") then
    if decide (MTime x ≠ 0) then Some (filepath.Join [root; Path x])
    else None
  else None.

(** The number of arrays and objects of a JSON value that are nested in
    one another. *)
Fixpoint nesting (j : JSON) : nat :=
  match j with
  | JArray items =>
      S ((fix go (l : list JSON) : nat :=
            match l with
            | [] => 0%nat
            | x :: l' => Nat.max (nesting x) (go l')
            end) items)
  | JObject fields =>
      S ((fix go (l : list (string * JSON)) : nat :=
            match l with
            | [] => 0%nat
            | (_, v) :: l' => Nat.max (nesting v) (go l')
            end) fields)
  | _ => 0%nat
  end.

(** Sizes and times of a tree fit [int64]. *)
Definition wfNode (n : Node) : Prop :=
  Forall (λ x, int64_range (NodeSize x) ∧ int64_range (MTime x)) (subnodes n).

(** A node as [Load] reads it from what [Save] has written of it: the
    hash and the path of every node as the decoder reads them back. *)
Fixpoint coerceNode (n : Node) : Node :=
  match n with
  | mkNode h l r p sz mt =>
      mkNode (json.coerce h)
        match l with Some l' => Some (coerceNode l') | None => None end
        match r with Some r' => Some (coerceNode r') | None => None end
        (json.coerce p) sz mt
  end.

(** The hashes and the paths of a tree are valid UTF-8. *)
Definition validNode (n : Node) : Prop :=
  Forall (λ x, utf8.ValidString (NodeHash x) = true
               ∧ utf8.ValidString (Path x) = true) (subnodes n).

(** The number of nodes from a node down to its deepest leaf. *)
Fixpoint height (n : Node) : nat :=
  match n with
  | mkNode _ l r _ _ _ =>
      S (Nat.max match l with Some l' => height l' | None => 0%nat end
                 match r with Some r' => height r' | None => 0%nat end)
  end.

(** A platform for the examples: the time is written as its seconds in
    decimal, and every text is read back as the epoch. *)
Definition examplePlatform : Platform :=
  {| timeMarshalJSON := λ t, Ok (pretty (time.sec t));
     timeUnmarshalJSON := λ _, Ok (time.Unix 0);
     sprintf_2f := λ bytes unit, pretty (bytes / unit) |}.

(** A stored tree whose two leaves carry the same path, the first with
    mtime 0. *)
Definition twoLeavesOnePath : JSON :=
  JObject [
    ("generator", JString "merkle-go");
    ("root", JString "/r");
    ("tree", JObject [
       ("hash", JString "bd071e350e380bf8");
       ("left", JObject [("hash", JString "8371a648434290e4");
                         ("path", JString "a"); ("size", JNumber 5)]);
       ("right", JObject [("hash", JString "8371a648434290e4");
                          ("path", JString "a"); ("size", JNumber 5);
                          ("mtime", JNumber 7)])])].

(** A stored tree whose keys are not in the case of the tags: one leaf
    with the mtime [mtime] under the key [MTime]. *)
Definition otherCaseKeys (mtime : JSON) : JSON :=
  JObject [
    ("Generator", JString "merkle-go");
    ("ROOT", JString "/r");
    ("Tree", JObject [("Hash", JString "8371a648434290e4");
                      ("PATH", JString "a"); ("Size", JNumber 5);
                      ("MTime", mtime)])].

Definition diskWith (path : string) (data : JSON) : Disk :=
  {| content := {[ path := data ]}; writable := λ _, true |}.

(** Whether one of the levels that the pairing loop meets from a level of
    [n] nodes has an odd length greater than 1. *)
Fixpoint oddLevel (fuel n : nat) : bool :=
  if (1 <? n)%nat then
    match fuel with
    | O => false
    | S fuel' => Nat.odd n || oddLevel fuel' ((n + 1) / 2)
    end
  else false.

Definition hasOddLevel (n : nat) : bool := oddLevel n n.

(** The exact sum of the sizes of the files under the keys [paths]. *)
Definition sizesOf (files : gmap string FileData) (paths : list string) : Z :=
  sum_with (λ p, Size (lookupFile files p)) paths.

(** The entry that [Load] makes of a node. *)
Definition dataOf (x : Node) : FileData :=
  {| Hash := NodeHash x; Size := NodeSize x;
     ModTime := time.Unix (MTime x) |}.

(** A files mapping that [Save] and [Load] carry through unchanged under
    the root [rootPath]: each time is a whole number of seconds other than
    0, sizes and times fit [int64], each path is the join of the root
    with its relative path, and the hashes and the relative paths are
    valid UTF-8. *)
Definition Storable (rootPath : string) (files : gmap string FileData)
    : Prop :=
  ∀ p fd, files !! p = Some fd →
    time.nsec (ModTime fd) = 0
    ∧ time.sec (ModTime fd) ≠ 0
    ∧ int64_range (Size fd)
    ∧ int64_range (time.sec (ModTime fd))
    ∧ relativePath (filepath.Clean rootPath) p ≠ ""
    ∧ filepath.Join [rootPath; relativePath (filepath.Clean rootPath) p] = p
    ∧ utf8.ValidString (Hash fd) = true
    ∧ utf8.ValidString (relativePath (filepath.Clean rootPath) p) = true.

(** ** Inputs of the examples *)

Definition mkFile (h : string) (sz sec nsec : Z) : FileData :=
  {| Hash := h; Size := sz;
     ModTime := {| time.sec := sec; time.nsec := nsec |} |}.

(** Two contents of eight bytes, and a file system that holds them. *)
Definition contentC : list byte :=
  map byte_of_Z [177; 67; 135; 85; 100; 219; 49; 241].
Definition contentC' : list byte :=
  map byte_of_Z [92; 179; 40; 119; 110; 4; 100; 101].

Definition sampleFS : os.FileSystem := λ path,
  if String.eqb path "/r/a" then
    Ok [os.ReadData (list_byte_of_string "as");
        os.ReadData (list_byte_of_string "df"); os.ReadEOF []]
  else if String.eqb path "/r/b" then
    Ok [os.ReadEOF (list_byte_of_string "a")]
  else if String.eqb path "/r/c" then Ok [os.ReadData contentC; os.ReadEOF []]
  else if String.eqb path "/r/c2" then
    Ok [os.ReadData contentC'; os.ReadEOF []]
  else if String.eqb path "/r/bad" then
    Ok [os.ReadData contentC; os.ReadFail [] "input/output error"]
  else Err "no such file or directory".

(** Three files under /r with the digests of the contents above. *)
Definition sampleFiles : gmap string FileData :=
  <["/r/a" := mkFile "415872f599cea71e" 4 1700000000 0]>
    (<["/r/b" := mkFile "d24ec4f1a98c6e5b" 1 1700000001 0]>
       (<["/r/c" := mkFile "8371a648434290e4" 8 1700000002 0]> ∅)).

(** The same paths and hashes with other sizes and times. *)
Definition sampleFiles' : gmap string FileData :=
  <["/r/c" := mkFile "8371a648434290e4" 9 5 7]>
    (<["/r/b" := mkFile "d24ec4f1a98c6e5b" 0 0 0]>
       (<["/r/a" := mkFile "415872f599cea71e" 12 99 1]> ∅)).

Definition sampleOrder : list string := ["/r/c"; "/r/a"; "/r/b"].
Definition sampleOrder' : list string := ["/r/b"; "/r/c"; "/r/a"].

(** The third file with the digest of the other content. *)
Definition changedC : FileData := mkFile "a557b882098de358" 8 1700000002 0.

(** One file last modified at the epoch. *)
Definition epochFiles : gmap string FileData :=
  <["/r/a" := mkFile "415872f599cea71e" 4 0 0]> ∅.

(** Three files, the last of 2^62 bytes. *)
Definition hugeFiles : gmap string FileData :=
  <["/r/a" := mkFile "415872f599cea71e" 1 1700000000 0]>
    (<["/r/b" := mkFile "d24ec4f1a98c6e5b" 1 1700000001 0]>
       (<["/r/c" := mkFile "8371a648434290e4" (2 ^ 62) 1700000002 0]> ∅)).

Definition emptyDisk : Disk := {| content := ∅; writable := λ _, true |}.

Definition sampleNow : time.Time := {| time.sec := 1762691751; time.nsec := 594793000 |}.

Definition buildOr (files : gmap string FileData) (rootPath : string)
    (order : list string) : MerkleTree :=
  match Build files rootPath order order with
  | Some (Ok t) => t
  | _ => {| Root := None; RootPath := ""; TotalSize := 0; Files := ∅ |}
  end.

Definition sampleTree : MerkleTree :=
  Eval vm_compute in buildOr sampleFiles "/r" sampleOrder.

Definition sampleRoot : Node :=
  Eval vm_compute in default zeroNode (Root sampleTree).

(** The scenario of the comparator: a.txt unchanged but for size and time,
    b.txt with another hash, c.txt new. *)
Definition oldTree : MerkleTree :=
  {| Root := None; RootPath := "/r"; TotalSize := 0;
     Files := <["a.txt" := mkFile "58" 1 10 0]>
                (<["b.txt" := mkFile "59" 2 10 0]> ∅) |}.
Definition newTree : MerkleTree :=
  {| Root := None; RootPath := "/r"; TotalSize := 0;
     Files := <["a.txt" := mkFile "58" 7 20 0]>
                (<["b.txt" := mkFile "5a" 2 10 0]>
                   (<["c.txt" := mkFile "57" 3 10 0]> ∅)) |}.
Definition sampleOrder_new : list string := ["c.txt"; "a.txt"; "b.txt"].
Definition sampleOrder_old : list string := ["b.txt"; "a.txt"].

(** ** The streaming digest *)

(** Every full block of [s] through the accumulators, and the rest of [s]:
    what a [Digest] has done with the bytes written so far. *)
Definition absorb (v : xxhash.Lanes) (s : list byte)
    : xxhash.Lanes * list byte :=
  xxhash.blocks (length s / 32)%nat v s.

(** A [Digest] between two calls: less than a block in [mem], and a total
    within [uint64]. *)
Definition wfDigest (d : xxhash.Digest) : Prop :=
  (length (xxhash.mem d) < 32)%nat ∧ 0 ≤ xxhash.total d < 2 ^ 64.

(** Hashing a whole byte sequence at once: one [Write], then [Sum]. *)
Definition hashBytes (content : list byte) : string :=
  hex.EncodeToString (xxhash.Sum (xxhash.Write xxhash.New content) []).

(** A string of lowercase hexadecimal digits. *)
Definition lowerHex (s : string) : Prop :=
  Forall (λ c, c ∈ hex.hextable) (list_ascii_of_string s).

(** ** The worker pool *)

(** What a worker makes of the path of its job. *)
Definition outcome (fs : os.FileSystem) (p : string)
    : option walker.hashJobResult :=
  match hash.HashFile fs p with
  | Some (Ok hashStr) => Some (walker.mkHashJobResult p hashStr None)
  | Some (Err e) => Some (walker.mkHashJobResult p "" (Some e))
  | None => None
  end.

(** The outcomes of the files of a batch, in the order of the batch. *)
Definition outcomes (fs : os.FileSystem) (files : list walker.FileInfo)
    : list walker.hashJobResult :=
  omap (λ f, outcome fs (walker.Path f)) files.

Definition okOf (r : walker.hashJobResult) : option (string * string) :=
  match walker.err r with
  | None => Some (walker.path r, walker.hash r)
  | Some _ => None
  end.

(** The error of a failed file, tagged with its path. *)
Definition errOf (r : walker.hashJobResult) : option string :=
  match walker.err r with
  | Some e => Some (walker.path r +:+ ": " +:+ e)
  | None => None
  end.

(** The two outputs that a batch must give. *)
Definition hashesOf (fs : os.FileSystem) (files : list walker.FileInfo)
    : gmap string string :=
  list_to_map (omap okOf (outcomes fs files)).

Definition errorsOf (fs : os.FileSystem) (files : list walker.FileInfo)
    : list string :=
  omap errOf (outcomes fs files).

(** The path that a worker has received and not hashed yet. *)
Definition workingOf (w : walker.Worker) : list string :=
  match w with
  | walker.Working job => [walker.Path (walker.fileInfo job)]
  | _ => []
  end.

(** The result that a worker has computed and not sent yet. *)
Definition sendingOf (w : walker.Worker) : list walker.hashJobResult :=
  match w with
  | walker.Sending r => [r]
  | _ => []
  end.

(** The steps that a worker has yet to take. *)
Definition workerSteps (w : walker.Worker) : nat :=
  match w with
  | walker.Waiting => 1
  | walker.Working _ => 4
  | walker.Sending _ => 3
  | walker.Done => 0
  end.

(** The number of steps that are left to a state of the pool. *)
Definition potential (s : walker.State) : nat :=
  5 * length (walker.toSend s) + 4 * length (walker.jobs s)
  + sum_list (map workerSteps (walker.workers s))
  + length (walker.results s)
  + (if walker.jobsClosed s then 0 else 1)
  + (if walker.resultsClosed s then 0 else 1)
  + (if walker.returned s then 0 else 1).

(** The paths of a list, as a multiset. *)
Definition bag (l : list string) : gmultiset string := list_to_set_disj l.

(** The paths that are sent or to send, and not hashed yet. *)
Definition pending (s : walker.State) : list string :=
  map walker.Path (walker.toSend s)
  ++ map (λ job, walker.Path (walker.fileInfo job)) (walker.jobs s)
  ++ mjoin (map workingOf (walker.workers s)).

(** The paths of the results that the workers have yet to send. *)
Definition unsent (ws : list walker.Worker) : list string :=
  mjoin (map (λ w, map walker.path (sendingOf w)) ws).

(** The paths that are hashed, given the results [collected] so far. *)
Definition hashed (s : walker.State) (collected : list walker.hashJobResult)
    : list string :=
  unsent (walker.workers s) ++ map walker.path (walker.results s)
  ++ map walker.path collected.

(** A result is what [hash.HashFile] gives for its path. *)
Definition faithful (fs : os.FileSystem) (r : walker.hashJobResult) : Prop :=
  outcome fs (walker.path r) = Some r.

Definition emptyResult : walker.HashResult :=
  {| walker.Hashes := ∅; walker.Errors := [] |}.

(** What holds of every state of a run of [HashFiles] on [files], where
    [collected] is what the caller has received from [results]. *)
Record poolInv (fs : os.FileSystem) (files : list walker.FileInfo)
    (s : walker.State) (collected : list walker.hashJobResult) : Prop := {
  inv_paths :
    bag (pending s) ⊎ bag (hashed s collected)
    = bag (map walker.Path files);
  inv_attempts : bag (walker.attempts s) = bag (hashed s collected);
  inv_workers :
    Forall (λ w, Forall (faithful fs) (sendingOf w)) (walker.workers s);
  inv_results : Forall (faithful fs) (walker.results s);
  inv_collected : Forall (faithful fs) collected;
  inv_result : walker.result s = fold_left walker.collect collected emptyResult;
  inv_jobsClosed : walker.jobsClosed s = true → walker.toSend s = [];
  inv_resultsClosed :
    walker.resultsClosed s = true →
    walker.allDone (walker.workers s) = true;
  inv_done :
    walker.Done ∈ walker.workers s →
    walker.jobsClosed s = true ∧ walker.jobs s = [];
  inv_returned :
    walker.returned s = true →
    walker.toSend s = [] ∧ walker.jobs s = [] ∧ walker.results s = []
    ∧ walker.allDone (walker.workers s) = true;
  inv_pool :
    walker.returned s = false → (0 < length (walker.workers s))%nat
}.

(** A batch of four files of [sampleFS]: two can be read, one fails in the
    middle of its content and one does not exist. *)
Definition sampleBatch : list walker.FileInfo :=
  [walker.mkFileInfo "/r/a" 4 {| time.sec := 1700000000; time.nsec := 0 |};
   walker.mkFileInfo "/r/bad" 8 {| time.sec := 1700000003; time.nsec := 0 |};
   walker.mkFileInfo "/r/b" 1 {| time.sec := 1700000001; time.nsec := 0 |};
   walker.mkFileInfo "/r/none" 0 {| time.sec := 0; time.nsec := 0 |}].

(** The first worker alone takes the four jobs, one after the other. *)
Definition scheduleOne : list walker.Action :=
  [walker.SendJob; walker.SendJob; walker.SendJob; walker.SendJob;
   walker.CloseJobs;
   walker.Receive 0; walker.Hash 0; walker.SendResult 0;
   walker.Receive 0; walker.Hash 0; walker.SendResult 0;
   walker.Receive 0; walker.Hash 0; walker.SendResult 0;
   walker.Receive 0; walker.Hash 0; walker.SendResult 0;
   walker.Exit 0; walker.Exit 1; walker.CloseResults;
   walker.Collect; walker.Collect; walker.Collect; walker.Collect;
   walker.Return].

(** The second worker holds the result of the second file while the first
    worker takes the other three. *)
Definition scheduleTwo : list walker.Action :=
  [walker.SendJob; walker.SendJob; walker.Receive 0; walker.Receive 1;
   walker.Hash 1; walker.Hash 0; walker.SendResult 0; walker.Collect;
   walker.SendJob; walker.SendJob; walker.CloseJobs;
   walker.Receive 0; walker.Hash 0; walker.SendResult 0;
   walker.Receive 0; walker.Hash 0; walker.SendResult 0;
   walker.Exit 0; walker.Collect; walker.SendResult 1; walker.Collect;
   walker.Exit 1; walker.CloseResults; walker.Collect; walker.Return].

Global Instance int64_range_dec z : Decision (int64_range z).
Proof. unfold int64_range. apply _. Defined.

(** ** Further definitions *)

(** An inner node of a built tree: both children, their parent hash, and
    no path, size or time of its own. *)
Definition innerNode (n : Node) : Prop :=
  ∃ l r, Left n = Some l ∧ Right n = Some r
         ∧ NodeHash n = H (NodeHash l) (NodeHash r)
         ∧ Path n = "" ∧ NodeSize n = 0 ∧ MTime n = 0.

(** The leaf that [Build] makes of an entry of the mapping. *)
Definition leafOf (rootPath path : string) (fd : FileData) (n : Node)
    : Prop :=
  NodeHash n = Hash fd ∧ Left n = None ∧ Right n = None
  ∧ Path n = relativePath (filepath.Clean rootPath) path
  ∧ NodeSize n = Size fd ∧ MTime n = time.sec (ModTime fd).

(** Two hashes that [hex.DecodeString] takes to the same bytes. *)
Definition sameBytes (h h' : string) : Prop :=
  (hex.DecodeString h).1 = (hex.DecodeString h').1.

(** A change seen from the other side: what was added is deleted, and the
    old data is the new. *)
Definition swap (c : compare.Change) : compare.Change :=
  {| compare.Type' :=
       match compare.Type' c with
       | compare.Added => compare.Deleted
       | compare.Modified => compare.Modified
       | compare.Deleted => compare.Added
       end;
     compare.Path := compare.Path c;
     compare.OldData := compare.NewData c;
     compare.NewData := compare.OldData c |}.

(** A sequence of changes in the strict order of their paths. *)
Definition sortedByPath (changes : list compare.Change) : Prop :=
  StronglySorted compare.byPath changes
  ∧ NoDup (map compare.Path changes).

(** The first byte of a string. *)
Definition firstByte (s : string) : option ascii :=
  match s with
  | String c _ => Some c
  | EmptyString => None
  end.

(** The entry that the loop makes of a file of the walk and its hash. *)
Definition fileDataOf (fileInfo : walker.FileInfo) (hashStr : string)
    : FileData :=
  {| Hash := hashStr; Size := walker.Size fileInfo;
     ModTime := walker.ModTime fileInfo |}.

(** With one worker the files stand in a line: those whose result is
    collected, then those whose result waits in [results], the one that
    the worker holds, and those that wait in [jobs] or are yet to send. *)
Definition line (s : walker.State) (collected : list walker.hashJobResult)
    : list string :=
  map walker.path collected
  ++ map walker.path (walker.results s)
  ++ unsent (walker.workers s)
  ++ mjoin (map workingOf (walker.workers s))
  ++ map (λ job, walker.Path (walker.fileInfo job)) (walker.jobs s)
  ++ map walker.Path (walker.toSend s).

Record lineInv (fs : os.FileSystem) (files : list walker.FileInfo)
    (s : walker.State) (collected : list walker.hashJobResult) : Prop := {
  line_files : line s collected = map walker.Path files;
  line_attempts :
    walker.attempts s
    = map walker.path collected ++ map walker.path (walker.results s)
      ++ unsent (walker.workers s);
  line_workers :
    Forall (λ w, Forall (faithful fs) (sendingOf w)) (walker.workers s);
  line_results : Forall (faithful fs) (walker.results s);
  line_collected : Forall (faithful fs) collected;
  line_result :
    walker.result s = fold_left walker.collect collected emptyResult;
  line_one : (length (walker.workers s) ≤ 1)%nat
}.

(** The name of an entry of a directory: not empty, neither [.] nor [..],
    and without a separator. *)
Definition entryName (e : string) : Prop :=
  e ≠ "" ∧ e ≠ "." ∧ e ≠ ".." ∧ strings.Contains e "/" = false.

(** ** Samples of the further properties *)

(** Two mappings whose hashes differ in case, and beyond the digits that
    can be decoded. *)
Definition mixedCaseFiles : gmap string FileData :=
  <["/r/a" := mkFile "AB12" 4 1700000000 0]>
    (<["/r/b" := mkFile "cd" 1 1700000001 0]> ∅).
Definition mixedCaseFiles' : gmap string FileData :=
  <["/r/a" := mkFile "ab12" 0 0 0]>
    (<["/r/b" := mkFile "CDxyz" 7 5 0]> ∅).

(** Two files under /r. *)
Definition pairFiles : gmap string FileData :=
  <["/r/a" := mkFile "415872f599cea71e" 4 1700000000 0]>
    (<["/r/b" := mkFile "d24ec4f1a98c6e5b" 1 1700000001 0]> ∅).
Definition pairOrder : list string := ["/r/b"; "/r/a"].

(** The tree that is loaded from the stored tree of two leaves. *)
Definition loadedTwoLeaves : MerkleTree :=
  Eval vm_compute in
    match Load examplePlatform "tree.json"
            (diskWith "tree.json" twoLeavesOnePath) with
    | Ok t => t
    | Err _ => {| Root := None; RootPath := ""; TotalSize := 0; Files := ∅ |}
    end.

(** A tree of one leaf whose path begins with a byte that is no UTF-8. *)
Definition invalidTree : MerkleTree :=
  {| Root := Some {| NodeHash := "415872f599cea71e";
                     Left := None; Right := None;
                     Path := String (ascii_of_nat 255) ".txt";
                     NodeSize := 4; MTime := 1700000000 |};
     RootPath := "/r"; TotalSize := 4;
     Files := {[ "/r/" +:+ String (ascii_of_nat 255) ".txt"
                 := mkFile "415872f599cea71e" 4 1700000000 0 ]} |}.

(** A date as its seconds. *)
Definition sampleDate (t : time.Time) : string := pretty (time.sec t).

(** [filepath.Match] on patterns without metacharacters. *)
Definition literalMatch (pattern name : string) : result bool :=
  Ok (String.eqb pattern name).

(** What [HashFiles] returns for the batch. *)
Definition sampleResult : walker.HashResult :=
  {| walker.Hashes :=
       <["/r/a" := "415872f599cea71e"]>
         (<["/r/b" := "d24ec4f1a98c6e5b"]> ∅);
     walker.Errors :=
       ["/r/bad: failed to read file: input/output error";
        "/r/none: failed to open file: no such file or directory"] |}.

(** The schedule of the only worker of a pool of one. *)
Definition scheduleSolo : list walker.Action :=
  [walker.SendJob; walker.Receive 0; walker.SendJob; walker.Hash 0;
   walker.SendResult 0; walker.Collect;
   walker.Receive 0; walker.SendJob; walker.SendJob; walker.CloseJobs;
   walker.Hash 0; walker.SendResult 0;
   walker.Receive 0; walker.Hash 0; walker.SendResult 0;
   walker.Receive 0; walker.Hash 0; walker.SendResult 0;
   walker.Exit 0; walker.CloseResults;
   walker.Collect; walker.Collect; walker.Collect;
   walker.Return].

Definition soloState : walker.State :=
  Eval vm_compute in
    default (walker.start [] 1)
      (walker.run sampleFS scheduleSolo (walker.start sampleBatch 1)).

(** * Checks of the embedding *)

(** Known digests of the algorithm, as a check of the embedding. *)
Example xxhash_empty :
  xxhash.Sum64 (xxhash.Write xxhash.New []) = 0xef46db3751d8e999.
Proof. vm_compute. reflexivity. Qed.

Example xxhash_a :
  xxhash.Sum64 (xxhash.Write xxhash.New (list_byte_of_string "a"))
  = 0xd24ec4f1a98c6e5b.
Proof. vm_compute. reflexivity. Qed.

Example xxhash_asdf :
  xxhash.Sum64 (xxhash.Write xxhash.New (list_byte_of_string "asdf"))
  = 0x415872f599cea71e.
Proof. vm_compute. reflexivity. Qed.

Example xxhash_long :
  xxhash.Sum64 (xxhash.Write xxhash.New (list_byte_of_string
    "Call me Ishmael. Some years ago--never mind how long precisely-"))
  = 0x02a2e85470d6fd96.
Proof. vm_compute. reflexivity. Qed.

(** Samples of [Clean], [Join] and [Base]. *)
Example Clean_samples :
  map filepath.Clean ["/a//b/./c/.."; "a/../.."; "/.."; ""; "/"; "a/"; "./"]
  = ["/a/b"; ".."; "/"; "."; "/"; "a"; "."]%string.
Proof. vm_compute. reflexivity. Qed.

Example Join_samples :
  map filepath.Join [["/r"; "a/b"]; [""; "a"]; ["/r"; ""]; ["/r"; "/abs"]; [""; ""]]
  = ["/r/a/b"; "a"; "/r"; "/r/abs"; ""]%string.
Proof. vm_compute. reflexivity. Qed.

Example Base_samples :
  map filepath.Base ["/a/b"; "/a/b/"; "/"; ""; "abc"; "//"]
  = ["b"; "b"; "/"; "."; "abc"; "/"]%string.
Proof. vm_compute. reflexivity. Qed.


(** Strings through encoding/json: a well-formed rune is kept, each byte
    that is part of none becomes U+FFFD (a byte that starts no rune, a
    rune cut short, the three bytes of a surrogate); the key of an object
    names a field whatever the case of its letters, with U+017F for s. *)
Example json_samples :
  json.coerce "a/b.txt" = "a/b.txt"
  ∧ json.coerce (String (ascii_of_nat 255) "x") = utf8.RuneError +:+ "x"
  ∧ json.coerce (String (ascii_of_nat 195) (String (ascii_of_nat 169) "x"))
    = String (ascii_of_nat 195) (String (ascii_of_nat 169) "x")
  ∧ json.coerce (String (ascii_of_nat 195) "x") = utf8.RuneError +:+ "x"
  ∧ json.coerce
      (String (ascii_of_nat 237)
         (String (ascii_of_nat 160) (String (ascii_of_nat 128) "")))
    = utf8.RuneError +:+ utf8.RuneError +:+ utf8.RuneError
  ∧ utf8.ValidString "a/b.txt" = true
  ∧ utf8.ValidString (String (ascii_of_nat 255) "x") = false
  ∧ utf8.ValidString utf8.RuneError = true
  ∧ json.names "mtime" "mtime" = true
  ∧ json.names "MTime" "mtime" = true
  ∧ json.names "time" "mtime" = false
  ∧ json.names "HASH" "hash" = true
  ∧ json.names
      ("ha" +:+ String (ascii_of_nat 197) (String (ascii_of_nat 191) "h"))
      "hash" = true.
Proof. repeat split; vm_compute; reflexivity. Qed.

(** * Properties of [Build] *)

Lemma parentHash_Ok l r : parentHash l r = Ok (H l r).
Proof. reflexivity. Qed.

Lemma pairLevel_Ok level : pairLevel level = Ok (pairs level).
Proof.
  induction level as [level IH] using (induction_ltof1 _ (@length Node)).
  destruct level as [|l [|r rest]]; [done..|].
  cbn [pairLevel pairs]. rewrite parentHash_Ok. cbn.
  rewrite IH; [done|]. unfold ltof. simpl. lia.
Qed.

Lemma length_pairs level : (length (pairs level) = (length level + 1) / 2)%nat.
Proof.
  induction level as [level IH] using (induction_ltof1 _ (@length Node)).
  destruct level as [|l [|r rest]]; [done..|].
  cbn [pairs length]. rewrite IH by (unfold ltof; simpl; lia).
  replace (S (S (length rest)) + 1)%nat with ((length rest + 1) + 1 * 2)%nat by lia.
  rewrite Nat.div_add by lia. lia.
Qed.

Lemma pairs_length_lt level : (1 < length level → length (pairs level) < length level)%nat.
Proof.
  intros. rewrite length_pairs.
  apply Nat.Div0.div_lt_upper_bound. lia.
Qed.

Lemma buildLevels_reduce fuel level :
  (length level ≤ S fuel)%nat → buildLevels fuel level = Some (Ok (reduce fuel level)).
Proof.
  revert level. induction fuel as [|fuel IH]; intros level Hlen; cbn [buildLevels reduce].
  - destruct (1 <? length level)%nat eqn:E; [|done].
    apply Nat.ltb_lt in E. lia.
  - destruct (1 <? length level)%nat eqn:E; [|done].
    apply Nat.ltb_lt in E. rewrite pairLevel_Ok. apply IH.
    pose proof (pairs_length_lt level E). lia.
Qed.

Lemma reduce_length fuel level :
  (length level ≤ S fuel)%nat → (length (reduce fuel level) ≤ 1)%nat.
Proof.
  revert level. induction fuel as [|fuel IH]; intros level Hlen; cbn [reduce].
  - destruct (1 <? length level)%nat eqn:E; [apply Nat.ltb_lt in E|apply Nat.ltb_ge in E]; lia.
  - destruct (1 <? length level)%nat eqn:E; [apply Nat.ltb_lt in E|apply Nat.ltb_ge in E]; [|lia].
    apply IH. pose proof (pairs_length_lt level E). lia.
Qed.

Lemma Build_nonempty files rootPath order1 order2 :
  size files ≠ 0%nat →
  Build files rootPath order1 order2 =
    let leaves := map (leafNode files (filepath.Clean rootPath)) (sort.Strings order1) in
    Some (Ok {| Root := head (reduce (length leaves) leaves);
                RootPath := rootPath;
                TotalSize := sumSizes files order2;
                Files := files |}).
Proof.
  intros Hne. unfold Build. destruct (decide (size files = 0%nat)); [done|].
  cbv zeta. rewrite buildLevels_reduce by lia. done.
Qed.

Lemma Build_empty rootPath order1 order2 :
  Build ∅ rootPath order1 order2 =
    Some (Ok {| Root := Some {| NodeHash := "ec229c7e99d32baa"; Left := None; Right := None;
                               Path := ""; NodeSize := 0; MTime := 0 |};
                RootPath := rootPath; TotalSize := 0; Files := ∅ |}).
Proof.
  unfold Build. rewrite map_size_empty. 
  destruct (decide (0%nat = 0%nat)); [|done]. vm_compute. reflexivity.
Qed.

Lemma map_NodeHash_pairs level : map NodeHash (pairs level) = hpairs (map NodeHash level).
Proof.
  induction level as [level IH] using (induction_ltof1 _ (@length Node)).
  destruct level as [|l [|r rest]]; [done..|].
  cbn [pairs map hpairs]. rewrite IH by (unfold ltof; simpl; lia). done.
Qed.

Lemma map_NodeHash_reduce fuel level :
  map NodeHash (reduce fuel level) = hreduce fuel (map NodeHash level).
Proof.
  revert level. induction fuel as [|fuel IH]; intros level; cbn [reduce hreduce];
    rewrite length_map; destruct (1 <? length level)%nat; try done.
  by rewrite IH, map_NodeHash_pairs.
Qed.

Lemma map_NodeHash_leaves files cleanRoot paths :
  map NodeHash (map (leafNode files cleanRoot) paths) = leafHashes files paths.
Proof. unfold leafHashes. rewrite map_map. done. Qed.

Lemma rootHash_Build files rootPath order1 order2 :
  size files ≠ 0%nat →
  ∃ t, Build files rootPath order1 order2 = Some (Ok t)
       ∧ rootHash t =
           head (hreduce (length order1) (leafHashes files (sort.Strings order1)))
       ∧ Files t = files ∧ RootPath t = rootPath.
Proof.
  intros Hne. rewrite Build_nonempty by done. cbv zeta.
  eexists; split; [done|]. split; [|done].
  unfold rootHash; cbn [Root].
  rewrite <- (map_NodeHash_leaves files (filepath.Clean rootPath)).
  rewrite <- map_NodeHash_reduce, !length_map.
  assert (length (sort.Strings order1) = length order1) as ->.
  { apply Permutation_length, merge_sort_Permutation. }
  by destruct (reduce _ _).
Qed.

Lemma sort_Strings_unique (a b : list string) :
  a ≡ₚ b → sort.Strings a = sort.Strings b.
Proof.
  intros Hab. unfold sort.Strings.
  apply (Sorted_unique String.le); try apply (Sorted_merge_sort String.le).
  by rewrite !merge_sort_Permutation.
Qed.

Lemma IterOrder_fmap {A B} (f : A → B) (m : gmap string A) order :
  IterOrder m order ↔ IterOrder (f <$> m) order.
Proof.
  unfold IterOrder. rewrite map_to_list_fmap, <- list_fmap_compose.
  done.
Qed.

Lemma IterOrder_size {V} (m : gmap string V) order :
  IterOrder m order → length order = size m.
Proof.
  unfold IterOrder. intros ->. by rewrite length_fmap, length_map_to_list.
Qed.

Lemma IterOrder_lookup {V} (m : gmap string V) order p :
  IterOrder m order → p ∈ order ↔ is_Some (m !! p).
Proof.
  unfold IterOrder. intros ->. rewrite list_elem_of_fmap. split.
  - intros [[k v] [-> Hin]]. apply elem_of_map_to_list in Hin. by exists v.
  - intros [v Hv]. exists (p, v). split; [done|]. by apply elem_of_map_to_list.
Qed.

Lemma IterOrder_NoDup {V} (m : gmap string V) order :
  IterOrder m order → NoDup order.
Proof. unfold IterOrder. intros ->. apply NoDup_fst_map_to_list. Qed.

Lemma sort_Strings_elem_of order p : p ∈ sort.Strings order ↔ p ∈ order.
Proof. unfold sort.Strings. by rewrite merge_sort_Permutation. Qed.

Lemma sort_Strings_length order : length (sort.Strings order) = length order.
Proof. apply Permutation_length, merge_sort_Permutation. Qed.

(** C7: [Build] of an empty files mapping returns a tree whose root is a
    single leaf (no children, no path) whose hash is the digest of the
    constant marker "empty-tree", the same for every root path and every
    call. *)
Theorem Build_empty_sentinel rootPath order1 order2 :
  Build ∅ rootPath order1 order2 =
    Some (Ok {| Root := Some {| NodeHash := "ec229c7e99d32baa";
                               Left := None; Right := None;
                               Path := ""; NodeSize := 0; MTime := 0 |};
                RootPath := rootPath; TotalSize := 0; Files := ∅ |})
  ∧ digest (list_byte_of_string "empty-tree") = "ec229c7e99d32baa".
Proof.
  split; [apply Build_empty|vm_compute; reflexivity].
Qed.



Lemma reduce_head_nonempty fuel level :
  length level ≠ 0%nat → head (reduce fuel level) ≠ None.
Proof.
  revert level. induction fuel as [|fuel IH]; intros level Hl; cbn [reduce].
  - destruct (1 <? length level)%nat; by destruct level.
  - destruct (1 <? length level)%nat eqn:E; [|by destruct level].
    apply IH. rewrite length_pairs. apply Nat.ltb_lt in E.
    assert (1 ≤ (length level + 1) / 2)%nat; [|lia].
    apply Nat.div_le_lower_bound; lia.
Qed.

(** C3: [Build] is deterministic and independent of the order in which the
    entries are iterated: two calls over mappings with the same paths and
    content hashes (whatever the sizes, times, root paths and iteration
    orders) return trees with the same root hash. *)
Theorem Build_order_independent
    (files files' : gmap string FileData) (rootPath rootPath' : string)
    (order1 order2 order1' order2' : list string) :
  IterOrder files order1 → IterOrder files order2 →
  IterOrder files' order1' → IterOrder files' order2' →
  Hash <$> files = Hash <$> files' →
  ∃ t t' h,
    Build files rootPath order1 order2 = Some (Ok t)
    ∧ Build files' rootPath' order1' order2' = Some (Ok t')
    ∧ rootHash t = Some h ∧ rootHash t' = Some h.
Proof.
  intros Ho1 _ Ho1' _ Heq.
  destruct (decide (size files = 0%nat)) as [Hz|Hnz].
  - apply map_size_empty_inv in Hz. subst files.
    assert (files' = ∅) as ->.
    { rewrite fmap_empty in Heq. symmetry in Heq.
      by apply fmap_empty_inv in Heq. }
    rewrite !Build_empty.
    by eexists _, _, _.
  - assert (size files' = size files) as Hsz.
    { by rewrite <- (map_size_fmap Hash files'), <- Heq, map_size_fmap. }
    destruct (rootHash_Build files rootPath order1 order2 Hnz)
      as (t & Ht & Hh & _).
    destruct (rootHash_Build files' rootPath' order1' order2')
      as (t' & Ht' & Hh' & _); [lia|].
    assert (order1 ≡ₚ order1') as Hperm.
    { apply (IterOrder_fmap Hash) in Ho1, Ho1'. unfold IterOrder in *.
      by rewrite Ho1, Ho1', Heq. }
    assert (leafHashes files (sort.Strings order1)
            = leafHashes files' (sort.Strings order1')) as Hleaves.
    { rewrite (sort_Strings_unique _ _ Hperm). unfold leafHashes.
      apply map_ext. intros p. unfold lookupFile.
      assert ((Hash <$> files) !! p = (Hash <$> files') !! p) as Hp
        by (by rewrite Heq).
      rewrite !lookup_fmap in Hp.
      destruct (files !! p), (files' !! p); simplify_eq/=; done. }
    rewrite Hleaves, (Permutation_length Hperm) in Hh. rewrite <- Hh' in Hh.
    destruct (rootHash t) as [h|] eqn:Hr.
    + by exists t, t', h.
    + exfalso. rewrite Build_nonempty in Ht by done. cbv zeta in Ht.
      simplify_eq. unfold rootHash in Hr; cbn in Hr.
      apply fmap_None in Hr. revert Hr. apply reduce_head_nonempty.
      rewrite length_map, sort_Strings_length, (IterOrder_size files) by done.
      done.
Qed.

(** ** Induction on nodes *)

Lemma Node_ind' (P : Node → Prop) :
  (∀ h l r p sz mt,
     (∀ l', l = Some l' → P l') → (∀ r', r = Some r' → P r') →
     P (mkNode h l r p sz mt)) →
  ∀ n, P n.
Proof.
  intros Hstep. fix IH 1. intros [h l r p sz mt]. apply Hstep.
  - destruct l as [l'|]; intros x Hx; [|discriminate].
    injection Hx as <-. apply IH.
  - destruct r as [r'|]; intros x Hx; [|discriminate].
    injection Hx as <-. apply IH.
Qed.

Lemma subnodes_self n : n ∈ subnodes n.
Proof. destruct n. cbn. left. Qed.

Lemma subnodes_trans x y z :
  x ∈ subnodes y → y ∈ subnodes z → x ∈ subnodes z.
Proof.
  intros Hxy. revert z. induction z as [h l r p sz mt IHl IHr] using Node_ind'.
  intros Hyz. cbn [subnodes] in Hyz.
  rewrite elem_of_cons, elem_of_app in Hyz.
  destruct Hyz as [->|[Hl|Hr]]; [done| |];
    cbn [subnodes]; rewrite elem_of_cons, elem_of_app; right.
  - left. destruct l as [l'|]; [|by apply elem_of_nil in Hl].
    by apply IHl.
  - right. destruct r as [r'|]; [|by apply elem_of_nil in Hr].
    by apply IHr.
Qed.

Lemma subnodes_parentOf_l l r : l ∈ subnodes (parentOf l r).
Proof.
  cbn. rewrite elem_of_cons, elem_of_app. right; left. apply subnodes_self.
Qed.

Lemma subnodes_parentOf_r l r : r ∈ subnodes (parentOf l r).
Proof.
  cbn. rewrite elem_of_cons, elem_of_app. right; right. apply subnodes_self.
Qed.

(** ** The parent level by index *)

Lemma pairs_lookup level k :
  pairs level !! k =
    match level !! (2 * k)%nat with
    | Some l => Some (parentOf l (default l (level !! (2 * k + 1)%nat)))
    | None => None
    end.
Proof.
  revert level. induction k as [|k IH]; intros [|l [|r rest]]; try done.
  cbn [pairs]. replace (2 * S k)%nat with (S (S (2 * k))) by lia.
  replace (S (S (2 * k)) + 1)%nat with (S (S (2 * k + 1))) by lia.
  cbn [lookup list_lookup]. apply IH.
Qed.

Lemma pairs_hash_lookup level k :
  NodeHash <$> pairs level !! k =
    match NodeHash <$> level !! (2 * k)%nat with
    | Some hl =>
        Some (H hl (default hl (NodeHash <$> level !! (2 * k + 1)%nat)))
    | None => None
    end.
Proof.
  rewrite pairs_lookup. destruct (level !! (2 * k)%nat) as [l|]; [|done].
  by destruct (level !! (2 * k + 1)%nat).
Qed.

Lemma elem_of_pairs_parent level x :
  x ∈ level → ∃ P, P ∈ pairs level ∧ x ∈ subnodes P.
Proof.
  intros [i Hi]%list_elem_of_lookup.
  assert (∃ l, level !! (2 * (i / 2))%nat = Some l
               ∧ (l = x ∨ level !! (2 * (i / 2) + 1)%nat = Some x))
    as (l & Hl & Hx).
  { pose proof (Nat.div_mod_eq i 2) as Hdm.
    pose proof (Nat.mod_upper_bound i 2 ltac:(lia)) as Hlt.
    destruct (decide (i mod 2 = 0)%nat) as [Hz|Hnz].
    - exists x. split; [|by left]. rewrite <- Hi. f_equal. lia.
    - destruct (level !! (2 * (i / 2))%nat) as [l|] eqn:El.
      + exists l. split; [done|]. right.
        rewrite <- Hi. f_equal. lia.
      + apply lookup_ge_None in El. apply lookup_lt_Some in Hi. lia. }
  exists (parentOf l (default l (level !! (2 * (i / 2) + 1)%nat))). split.
  - apply list_elem_of_lookup. exists (i / 2)%nat.
    by rewrite pairs_lookup, Hl.
  - destruct Hx as [->|Hx].
    + apply subnodes_parentOf_l.
    + rewrite Hx. apply subnodes_parentOf_r.
Qed.

Lemma elem_of_reduce_root fuel level x :
  x ∈ level → ∃ r, r ∈ reduce fuel level ∧ x ∈ subnodes r.
Proof.
  revert level x. induction fuel as [|fuel IH]; intros level x Hx;
    cbn [reduce].
  - exists x. split; [by destruct (_ <? _)%nat|apply subnodes_self].
  - destruct (1 <? length level)%nat.
    + destruct (elem_of_pairs_parent level x Hx) as (P & HP & HxP).
      destruct (IH _ _ HP) as (r & Hr & HPr).
      exists r. split; [done|]. by apply (subnodes_trans _ P).
    + exists x. split; [done|apply subnodes_self].
Qed.

(** ** Two levels that differ in one hash *)

(** The two digits of a byte give the byte back. *)
Lemma fromHexChar_digits (b : byte) :
  ∃ hi lo,
    hex.fromHexChar (hex.digit (Z.shiftr (Z_of_byte b) 4)) = Some hi
    ∧ hex.fromHexChar (hex.digit (Z.land (Z_of_byte b) 15)) = Some lo
    ∧ byte_of_Z (Z.lor (Z.shiftl hi 4) lo) = b.
Proof.
  exists (Z.shiftr (Z_of_byte b) 4), (Z.land (Z_of_byte b) 15).
  destruct b; vm_compute; done.
Qed.

Lemma Decode_EncodeToString (src : list byte) :
  hex.Decode (hex.EncodeToString src) = (src, false).
Proof.
  induction src as [|b src IH]; [done|].
  destruct (fromHexChar_digits b) as (hi & lo & Hhi & Hlo & Hb).
  cbn [hex.EncodeToString hex.Decode]. by rewrite Hhi, Hlo, IH, Hb.
Qed.

Lemma EncodeToString_inj a b :
  hex.EncodeToString a = hex.EncodeToString b → a = b.
Proof.
  intros Heq.
  pose proof (Decode_EncodeToString a) as Ha.
  rewrite Heq, Decode_EncodeToString in Ha. congruence.
Qed.

Lemma digest_XXHashFunc data data' :
  digest data = digest data' → hash.XXHashFunc data = hash.XXHashFunc data'.
Proof.
  unfold digest, hash.XXHashFunc. by intros ->%EncodeToString_inj.
Qed.

Lemma decoded_parentOf l r :
  hashedBytes (parentOf l r) = Some (decoded l ++ decoded r)
  ∧ NodeHash (parentOf l r) = digest (decoded l ++ decoded r).
Proof. done. Qed.

(** Two parents with different hashes decode to different bytes. *)
Lemma decoded_parentOf_ne l r l' r' :
  NodeHash (parentOf l r) ≠ NodeHash (parentOf l' r') →
  decoded (parentOf l r) ≠ decoded (parentOf l' r').
Proof.
  intros Hne Heq. apply Hne. unfold decoded in Heq.
  cbn [parentOf NodeHash] in *. unfold H, digest, hex.DecodeString in *.
  rewrite !Decode_EncodeToString in Heq. cbn [fst] in Heq. by rewrite Heq.
Qed.

Lemma app_self_inj {A} (x y : list A) : x ++ x = y ++ y → x = y.
Proof.
  intros Heq. apply (app_inj_1 x y x y); [|done].
  apply (f_equal length) in Heq. rewrite !length_app in Heq. lia.
Qed.

Lemma DiffAt_pairs i level level' :
  DiffAt i level level' →
  DiffAt (i / 2) (pairs level) (pairs level')
  ∨ ∃ P P' data data',
      P ∈ pairs level ∧ P' ∈ pairs level'
      ∧ hashedBytes P = Some data ∧ hashedBytes P' = Some data'
      ∧ NodeHash P = digest data ∧ NodeHash P' = digest data'
      ∧ data ≠ data'
      ∧ hash.XXHashFunc data = hash.XXHashFunc data'.
Proof.
  intros (Hlen & (x & x' & Hx & Hx' & Hne) & Hother).
  pose proof (Nat.div_mod_eq i 2) as Hdm.
  pose proof (Nat.mod_upper_bound i 2 ltac:(lia)) as Hlt.
  set (k := (i / 2)%nat) in *.
  (* the two parents at index k *)
  destruct (level !! (2 * k)%nat) as [l|] eqn:El; cycle 1.
  { apply lookup_ge_None in El. apply lookup_lt_Some in Hx. lia. }
  destruct (level' !! (2 * k)%nat) as [l'|] eqn:El'; cycle 1.
  { apply lookup_ge_None in El'. apply lookup_lt_Some in Hx'. lia. }
  set (r := default l (level !! (2 * k + 1)%nat)).
  set (r' := default l' (level' !! (2 * k + 1)%nat)).
  assert (pairs level !! k = Some (parentOf l r)) as HP
    by (by rewrite pairs_lookup, El).
  assert (pairs level' !! k = Some (parentOf l' r')) as HP'
    by (by rewrite pairs_lookup, El').
  assert (decoded l ++ decoded r ≠ decoded l' ++ decoded r') as Hdata.
  { destruct (decide (i mod 2 = 0)%nat) as [Hz|Hnz].
    - (* the left child differs *)
      assert ((2 * k)%nat = i) as Hi by lia. rewrite Hi in El, El'.
      assert (l = x) as -> by congruence.
      assert (l' = x') as -> by congruence.
      pose proof (Hother (2 * k + 1)%nat ltac:(lia)) as Hr.
      unfold r, r'.
      destruct (level !! (2 * k + 1)%nat) as [r0|],
        (level' !! (2 * k + 1)%nat) as [r0'|]; try done; cbn in Hr |- *.
      + intros Heq. apply Hne. unfold decoded in *.
        assert (NodeHash r0 = NodeHash r0') as Hh by congruence.
        rewrite Hh in Heq. by apply app_inv_tail in Heq.
      + by intros Heq%app_self_inj.
    - (* the right child differs *)
      assert ((2 * k + 1)%nat = i) as Hi by lia.
      pose proof (Hother (2 * k)%nat ltac:(lia)) as Hl.
      rewrite El, El' in Hl. cbn in Hl.
      unfold r, r'. rewrite Hi, Hx, Hx'. cbn.
      intros Heq. apply Hne. unfold decoded in *.
      assert (NodeHash l = NodeHash l') as Hh by congruence.
      rewrite Hh in Heq. by apply app_inv_head in Heq. }
  destruct (decide (NodeHash (parentOf l r) = NodeHash (parentOf l' r')))
    as [Heq|Hneq].
  - right.
    exists (parentOf l r), (parentOf l' r'),
      (decoded l ++ decoded r), (decoded l' ++ decoded r').
    split; [by eapply list_elem_of_lookup_2|].
    split; [by eapply list_elem_of_lookup_2|].
    repeat (split; [done|]). by apply digest_XXHashFunc.
  - left. split; [by rewrite !length_pairs, Hlen|]. split.
    + exists (parentOf l r), (parentOf l' r').
      split; [done|]. split; [done|]. by apply decoded_parentOf_ne.
    + intros j Hj. rewrite !pairs_hash_lookup.
      by rewrite !(Hother (2 * j)%nat), !(Hother (2 * j + 1)%nat) by lia.
Qed.

Lemma DiffAt_short i level level' :
  (length level ≤ 1)%nat → DiffAt i level level' →
  head (map NodeHash level) ≠ head (map NodeHash level').
Proof.
  intros Hshort (Hlen & (x & x' & Hx & Hx' & Hne) & _).
  destruct level as [|a [|]]; [done| |simpl in Hshort; lia].
  destruct level' as [|a' [|]]; [done| |done].
  destruct i; simplify_eq/=. unfold decoded in Hne. congruence.
Qed.

Lemma DiffAt_reduce fuel i level level' :
  (length level ≤ S fuel)%nat →
  DiffAt i level level' →
  head (map NodeHash (reduce fuel level))
    ≠ head (map NodeHash (reduce fuel level'))
  ∨ ∃ r r' n n' data data',
      r ∈ reduce fuel level ∧ r' ∈ reduce fuel level'
      ∧ n ∈ subnodes r ∧ n' ∈ subnodes r'
      ∧ hashedBytes n = Some data ∧ hashedBytes n' = Some data'
      ∧ NodeHash n = digest data ∧ NodeHash n' = digest data'
      ∧ data ≠ data'
      ∧ hash.XXHashFunc data = hash.XXHashFunc data'.
Proof.
  revert i level level'.
  induction fuel as [|fuel IH]; intros i level level' Hfuel Hdiff.
  - left. cbn [reduce]. destruct Hdiff as (Hlen & Hrest). rewrite <- Hlen.
    assert ((1 <? length level)%nat = false) as -> by (apply Nat.ltb_ge; lia).
    by apply (DiffAt_short i).
  - cbn [reduce]. destruct Hdiff as (Hlen & Hrest). rewrite <- Hlen.
    destruct (1 <? length level)%nat eqn:E.
    + apply Nat.ltb_lt in E.
      destruct (DiffAt_pairs i level level' (conj Hlen Hrest))
        as [Hnext|(P & P' & data & data' & HP & HP' & Hrest')].
      * apply (IH (i / 2)%nat (pairs level) (pairs level')); [|done].
        pose proof (pairs_length_lt level E). lia.
      * right.
        destruct (elem_of_reduce_root fuel _ _ HP) as (r & Hr & HPr).
        destruct (elem_of_reduce_root fuel _ _ HP') as (r' & Hr' & HPr').
        by exists r, r', P, P', data, data'.
    + left. apply Nat.ltb_ge in E. by apply (DiffAt_short i).
Qed.

Lemma IterOrder_insert_same (files : gmap string FileData) p fd fd' order order' :
  files !! p = Some fd →
  IterOrder files order → IterOrder (<[p := fd']> files) order' →
  order ≡ₚ order'.
Proof.
  intros Hp Ho Ho'.
  apply (IterOrder_fmap (λ _, ())) in Ho, Ho'. unfold IterOrder in *.
  rewrite Ho, Ho'. rewrite fmap_insert.
  rewrite insert_id; [done|]. by rewrite lookup_fmap, Hp.
Qed.

Lemma head_fmap_list {A B} (f : A → B) (l : list A) :
  head (map f l) = f <$> head l.
Proof. by destruct l. Qed.

Lemma leaves_DiffAt (files : gmap string FileData) cleanRoot p fd fd' paths :
  files !! p = Some fd →
  (hex.DecodeString (Hash fd)).1 ≠ (hex.DecodeString (Hash fd')).1 →
  NoDup paths → p ∈ paths →
  ∃ i, DiffAt i (map (leafNode files cleanRoot) paths)
         (map (leafNode (<[p := fd']> files) cleanRoot) paths).
Proof.
  intros Hp Hne Hnd [i Hi]%list_elem_of_lookup. exists i.
  split; [by rewrite !length_map|]. split.
  - exists (leafNode files cleanRoot p),
      (leafNode (<[p := fd']> files) cleanRoot p).
    rewrite !list_lookup_fmap, Hi. split; [done|]. split; [done|].
    unfold decoded, leafNode, lookupFile. cbn.
    by rewrite lookup_insert_eq, Hp.
  - intros j Hj. rewrite !list_lookup_fmap.
    destruct (paths !! j) as [q|] eqn:Hq; [|done]. cbn. f_equal.
    assert (q ≠ p) as Hqp.
    { intros ->. apply Hj. by eapply NoDup_lookup. }
    unfold lookupFile. by rewrite lookup_insert_ne.
Qed.

(** C6 (amended): for content hashes that are the texts of digests, as
    [HashFile] returns them, changing the content hash of one file
    changes the root hash unless the parent digest collides: the two
    builds either return different root hashes, or the two trees hold
    inner nodes for which different bytes were hashed (the decoded hashes
    of the two children, the left one first) and [XXHashFunc] returns the
    same sum for both. *)
Theorem Build_leaf_change
    (files : gmap string FileData) (rootPath p : string) (fd fd' : FileData)
    (sum sum' : list byte)
    (order1 order2 order1' order2' : list string) :
  files !! p = Some fd →
  Hash fd = hex.EncodeToString sum →
  Hash fd' = hex.EncodeToString sum' →
  Hash fd' ≠ Hash fd →
  IterOrder files order1 →
  IterOrder (<[p := fd']> files) order1' →
  ∃ t t',
    Build files rootPath order1 order2 = Some (Ok t)
    ∧ Build (<[p := fd']> files) rootPath order1' order2' = Some (Ok t')
    ∧ (rootHash t ≠ rootHash t' ∨ DigestCollision t t').
Proof.
  intros Hp Hsum Hsum' Hne Ho Ho'.
  assert ((hex.DecodeString (Hash fd)).1 ≠ (hex.DecodeString (Hash fd')).1)
    as Hdec.
  { rewrite Hsum, Hsum'. unfold hex.DecodeString.
    rewrite !Decode_EncodeToString. cbn [fst]. intros ->.
    apply Hne. by rewrite Hsum, Hsum'. }
  assert (size files ≠ 0%nat) as Hnz.
  { intros Hz. apply map_size_empty_inv in Hz. by subst. }
  assert (size (<[p := fd']> files) ≠ 0%nat) as Hnz'.
  { intros Hz. apply map_size_empty_inv in Hz.
    by apply insert_non_empty in Hz. }
  rewrite !Build_nonempty by done. cbv zeta.
  eexists _, _. split; [done|]. split; [done|].
  pose proof (IterOrder_insert_same _ _ _ _ _ _ Hp Ho Ho') as Hperm.
  rewrite <- (sort_Strings_unique _ _ Hperm).
  set (paths := sort.Strings order1).
  assert (NoDup paths) as Hnd.
  { unfold paths, sort.Strings. rewrite merge_sort_Permutation.
    by apply (IterOrder_NoDup files). }
  assert (p ∈ paths) as Hin.
  { apply sort_Strings_elem_of, (IterOrder_lookup files); eauto. }
  destruct (leaves_DiffAt files (filepath.Clean rootPath) p fd fd' paths
              Hp Hdec Hnd Hin) as [i Hdiff].
  set (level := map (leafNode files _) paths) in *.
  set (level' := map (leafNode (<[p := fd']> files) _) paths) in *.
  assert (length level' = length level) as Hlen
    by (unfold level, level'; by rewrite !length_map).
  rewrite Hlen.
  destruct (DiffAt_reduce (length level) i level level' ltac:(lia) Hdiff)
    as [Hd|(r & r' & n & n' & data & data' & Hr & Hr' & Hrest)].
  - left. unfold rootHash. cbn [Root]. by rewrite <- !head_fmap_list.
  - right.
    pose proof (reduce_length (length level) level ltac:(lia)) as Hl1.
    pose proof (reduce_length (length level) level' ltac:(lia)) as Hl1'.
    exists r, r', n, n', data, data'. cbn [Root].
    destruct (reduce (length level) level) as [|a [|]];
      [by apply elem_of_nil in Hr| |simpl in Hl1; lia].
    destruct (reduce (length level) level') as [|a' [|]];
      [by apply elem_of_nil in Hr'| |simpl in Hl1'; lia].
    apply list_elem_of_singleton in Hr, Hr'. by subst.
Qed.

(** ** Properties of [Compare] *)

Lemma checkNew_step oldFiles newFiles r p :
  compare.checkNew oldFiles newFiles r p =
    {| compare.added :=
         compare.added r ++ option_list (addedOf oldFiles newFiles p);
       compare.modified :=
         compare.modified r ++ option_list (modifiedOf oldFiles newFiles p);
       compare.deleted := compare.deleted r |}.
Proof.
  unfold compare.checkNew, addedOf, modifiedOf.
  destruct (newFiles !! p) as [nd|], (oldFiles !! p) as [od|];
    try case_decide; cbn; rewrite ?app_nil_r; by destruct r.
Qed.

Lemma checkOld_step oldFiles newFiles r p :
  compare.checkOld oldFiles newFiles r p =
    {| compare.added := compare.added r;
       compare.modified := compare.modified r;
       compare.deleted :=
         compare.deleted r ++ option_list (deletedOf oldFiles newFiles p) |}.
Proof.
  unfold compare.checkOld, deletedOf.
  destruct (oldFiles !! p) as [od|], (newFiles !! p) as [nd|];
    cbn; rewrite ?app_nil_r; by destruct r.
Qed.

Lemma omap_cons_option_list {A B} (f : A → option B) x l :
  omap f (x :: l) = option_list (f x) ++ omap f l.
Proof. cbn. by destruct (f x). Qed.

Lemma checkNew_fold oldFiles newFiles order r :
  fold_left (compare.checkNew oldFiles newFiles) order r =
    {| compare.added :=
         compare.added r ++ omap (addedOf oldFiles newFiles) order;
       compare.modified :=
         compare.modified r ++ omap (modifiedOf oldFiles newFiles) order;
       compare.deleted := compare.deleted r |}.
Proof.
  revert r. induction order as [|p order IH]; intros r.
  - cbn. rewrite !app_nil_r. by destruct r.
  - cbn [fold_left]. rewrite IH, checkNew_step, !omap_cons_option_list.
    cbn. by rewrite <- !app_assoc.
Qed.

Lemma checkOld_fold oldFiles newFiles order r :
  fold_left (compare.checkOld oldFiles newFiles) order r =
    {| compare.added := compare.added r;
       compare.modified := compare.modified r;
       compare.deleted :=
         compare.deleted r ++ omap (deletedOf oldFiles newFiles) order |}.
Proof.
  revert r. induction order as [|p order IH]; intros r.
  - cbn. rewrite !app_nil_r. by destruct r.
  - cbn [fold_left]. rewrite IH, checkOld_step, !omap_cons_option_list.
    cbn. by rewrite <- !app_assoc.
Qed.

Lemma Compare_sequences oldTree newTree orderNew orderOld :
  compare.Compare oldTree newTree orderNew orderOld =
    {| compare.added :=
         compare.sortByPath
           (omap (addedOf (Files oldTree) (Files newTree)) orderNew);
       compare.modified :=
         compare.sortByPath
           (omap (modifiedOf (Files oldTree) (Files newTree)) orderNew);
       compare.deleted :=
         compare.sortByPath
           (omap (deletedOf (Files oldTree) (Files newTree)) orderOld) |}.
Proof.
  unfold compare.Compare. by rewrite checkNew_fold, checkOld_fold.
Qed.

Lemma elem_of_sortByPath c changes :
  c ∈ compare.sortByPath changes ↔ c ∈ changes.
Proof. unfold compare.sortByPath. by rewrite merge_sort_Permutation. Qed.

Lemma NoDup_sortByPath changes :
  NoDup (compare.sortByPath changes) ↔ NoDup changes.
Proof. unfold compare.sortByPath. by rewrite merge_sort_Permutation. Qed.

Lemma NoDup_omap_path (f : string → option compare.Change) order :
  (∀ p c, f p = Some c → compare.Path c = p) →
  NoDup order → NoDup (omap f order).
Proof.
  intros Hf. induction 1 as [|p order Hp Hnd IH]; [constructor|].
  rewrite omap_cons_option_list.
  destruct (f p) as [c|] eqn:Hc; cbn; [|done]. constructor; [|done].
  rewrite list_elem_of_omap. intros (q & Hq & Hfq).
  apply Hf in Hc, Hfq. congruence.
Qed.

(** C4: [Compare] classifies each path by the two flat maps alone: the
    added sequence holds exactly the paths of [new.files] absent from
    [old.files], the modified sequence exactly the paths of both maps whose
    content hashes differ (sizes and times play no part), the deleted
    sequence exactly the paths of [old.files] absent from [new.files]; each
    entry carries the data of its path and occurs once. *)
Theorem Compare_classifies
    (oldTree newTree : MerkleTree) (orderNew orderOld : list string) :
  IterOrder (Files newTree) orderNew →
  IterOrder (Files oldTree) orderOld →
  let r := compare.Compare oldTree newTree orderNew orderOld in
  (∀ c, c ∈ compare.added r ↔
        ∃ p newData,
          c = compare.mkChange compare.Added p None (Some newData)
          ∧ Files newTree !! p = Some newData
          ∧ Files oldTree !! p = None)
  ∧ (∀ c, c ∈ compare.modified r ↔
          ∃ p oldData newData,
            c = compare.mkChange compare.Modified p (Some oldData)
                  (Some newData)
            ∧ Files oldTree !! p = Some oldData
            ∧ Files newTree !! p = Some newData
            ∧ Hash oldData ≠ Hash newData)
  ∧ (∀ c, c ∈ compare.deleted r ↔
          ∃ p oldData,
            c = compare.mkChange compare.Deleted p (Some oldData) None
            ∧ Files oldTree !! p = Some oldData
            ∧ Files newTree !! p = None)
  ∧ NoDup (compare.added r) ∧ NoDup (compare.modified r)
  ∧ NoDup (compare.deleted r).
Proof.
  intros Hnew Hold r. unfold r. rewrite Compare_sequences.
  cbn [compare.added compare.modified compare.deleted].
  repeat split.
  - rewrite elem_of_sortByPath, list_elem_of_omap.
    intros (p & Hp & Hc). unfold addedOf in Hc.
    destruct (Files newTree !! p) as [nd|] eqn:En; [|done].
    destruct (Files oldTree !! p) eqn:Eo; [done|].
    exists p, nd. by simplify_eq.
  - intros (p & nd & -> & Hn & Ho).
    rewrite elem_of_sortByPath, list_elem_of_omap. exists p. split.
    + apply (IterOrder_lookup _ _ p Hnew). eauto.
    + unfold addedOf. by rewrite Hn, Ho.
  - rewrite elem_of_sortByPath, list_elem_of_omap.
    intros (p & Hp & Hc). unfold modifiedOf in Hc.
    destruct (Files newTree !! p) as [nd|] eqn:En; [|done].
    destruct (Files oldTree !! p) as [od|] eqn:Eo; [|done].
    destruct (decide (Hash od ≠ Hash nd)); [|done].
    exists p, od, nd. by simplify_eq.
  - intros (p & od & nd & -> & Ho & Hn & Hne).
    rewrite elem_of_sortByPath, list_elem_of_omap. exists p. split.
    + apply (IterOrder_lookup _ _ p Hnew). eauto.
    + unfold modifiedOf. rewrite Hn, Ho.
      by destruct (decide (Hash od ≠ Hash nd)).
  - rewrite elem_of_sortByPath, list_elem_of_omap.
    intros (p & Hp & Hc). unfold deletedOf in Hc.
    destruct (Files oldTree !! p) as [od|] eqn:Eo; [|done].
    destruct (Files newTree !! p) eqn:En; [done|].
    exists p, od. by simplify_eq.
  - intros (p & od & -> & Ho & Hn).
    rewrite elem_of_sortByPath, list_elem_of_omap. exists p. split.
    + apply (IterOrder_lookup _ _ p Hold). eauto.
    + unfold deletedOf. by rewrite Ho, Hn.
  - apply NoDup_sortByPath, NoDup_omap_path;
      [|by apply (IterOrder_NoDup (Files newTree))].
    intros p c. unfold addedOf.
    destruct (Files newTree !! p), (Files oldTree !! p); naive_solver.
  - apply NoDup_sortByPath, NoDup_omap_path;
      [|by apply (IterOrder_NoDup (Files newTree))].
    intros p c. unfold modifiedOf.
    destruct (Files newTree !! p), (Files oldTree !! p);
      try case_decide; naive_solver.
  - apply NoDup_sortByPath, NoDup_omap_path;
      [|by apply (IterOrder_NoDup (Files oldTree))].
    intros p c. unfold deletedOf.
    destruct (Files oldTree !! p), (Files newTree !! p); naive_solver.
Qed.

(** ** Properties of [Load] *)

Lemma wrap_i64_range z : int64_range (wrap_i64 z).
Proof.
  unfold int64_range, wrap_i64.
  pose proof (Z.mod_pos_bound (z + 2 ^ 63) (2 ^ 64) ltac:(lia)). lia.
Qed.

Lemma wrap_i64_id z : int64_range z → wrap_i64 z = z.
Proof.
  unfold int64_range, wrap_i64. intros Hz.
  rewrite Z.mod_small by lia. lia.
Qed.

Lemma wrap_i64_add_l a b : wrap_i64 (wrap_i64 a + b) = wrap_i64 (a + b).
Proof.
  unfold wrap_i64.
  replace ((a + 2 ^ 63) mod 2 ^ 64 - 2 ^ 63 + b + 2 ^ 63)
    with ((a + 2 ^ 63) mod 2 ^ 64 + b) by lia.
  rewrite Zplus_mod_idemp_l. f_equal. f_equal. lia.
Qed.

Lemma collectLeaves_subnodes root n acc :
  collectLeaves root n acc = fold_left (visit root) (subnodes n) acc.
Proof.
  revert acc. induction n as [h l r p sz mt IHl IHr] using Node_ind'.
  intros acc.
  destruct l as [l'|], r as [r'|]; cbn [collectLeaves subnodes fold_left];
    rewrite ?fold_left_app, ?(IHl _ eq_refl), ?(IHr _ eq_refl);
    reflexivity.
Qed.

Lemma visit_fst_range root acc x :
  int64_range acc.1 → int64_range (visit root acc x).1.
Proof.
  intros Hacc. unfold visit. destruct (decide (Path x ≠ "")); [|done].
  destruct (decide (MTime x ≠ 0)); apply wrap_i64_range.
Qed.

Lemma visit_fst root acc x :
  int64_range acc.1 → (visit root acc x).1 = wrap_i64 (acc.1 + sizeOf x).
Proof.
  intros Hacc. unfold visit, sizeOf. destruct (decide (Path x ≠ "")).
  - by destruct (decide (MTime x ≠ 0)).
  - by rewrite Z.add_0_r, wrap_i64_id.
Qed.

Lemma visit_fold_total root nodes acc :
  int64_range acc.1 →
  (fold_left (visit root) nodes acc).1
  = wrap_i64 (acc.1 + sum_with sizeOf nodes).
Proof.
  revert acc. induction nodes as [|x nodes IH]; intros acc Hacc.
  - cbn. rewrite Z.add_0_r. by rewrite wrap_i64_id.
  - cbn [fold_left sum_with]. rewrite IH by by apply visit_fst_range.
    rewrite visit_fst by done. rewrite wrap_i64_add_l. f_equal. lia.
Qed.

Lemma visit_fold_lookup_None root nodes acc k :
  (fold_left (visit root) nodes acc).2 !! k = None ↔
  acc.2 !! k = None ∧ ∀ x, x ∈ nodes → entryOf root x ≠ Some k.
Proof.
  revert acc. induction nodes as [|x nodes IH]; intros acc.
  - cbn. split; [|tauto]. intros ?; split; [done|].
    intros x Hx. by apply elem_of_nil in Hx.
  - cbn [fold_left]. rewrite IH. unfold visit, entryOf.
    setoid_rewrite elem_of_cons.
    destruct (decide (Path x ≠ "")) as [Hp|Hp];
      [destruct (decide (MTime x ≠ 0)) as [Hm|Hm]|]; cbn [snd].
    + rewrite lookup_insert_None. split.
      * intros [[? Hk] Hrest]. split; [done|]. intros y [->|Hy]; [|eauto].
        rewrite decide_True, decide_True by done. congruence.
      * intros [Hacc Hall]. split; [split; [done|]|eauto].
        intros Heq. apply (Hall x); [by left|].
        rewrite decide_True, decide_True by done. by f_equal.
    + split.
      * intros [Hacc Hrest]. split; [done|]. intros y [->|Hy]; [|eauto].
        by rewrite decide_True, decide_False by done.
      * intros [Hacc Hall]. eauto.
    + split.
      * intros [Hacc Hrest]. split; [done|]. intros y [->|Hy]; [|eauto].
        by rewrite decide_False by done.
      * intros [Hacc Hall]. eauto.
Qed.

Lemma fromSerialized_spec st :
  fromSerialized st =
    {| Root := Tree st;
       RootPath := SRoot st;
       TotalSize :=
         match Tree st with
         | Some root => wrap_i64 (walkSum root)
         | None => 0
         end;
       Files :=
         match Tree st with
         | Some root => (fold_left (visit (SRoot st)) (subnodes root) (0, ∅)).2
         | None => ∅
         end |}.
Proof.
  unfold fromSerialized. destruct (Tree st) as [root|]; [|done].
  rewrite collectLeaves_subnodes.
  pose proof (visit_fold_total (SRoot st) (subnodes root) (0, ∅)) as Ht.
  destruct (fold_left _ _ _) as [total files]. cbn in *.
  rewrite Ht by (unfold int64_range; lia). done.
Qed.

Lemma wfNode_inv h l r p sz mt :
  wfNode (mkNode h l r p sz mt) →
  int64_range sz ∧ int64_range mt
  ∧ (∀ l', l = Some l' → wfNode l') ∧ (∀ r', r = Some r' → wfNode r').
Proof.
  unfold wfNode. cbn [subnodes]. rewrite Forall_cons, Forall_app.
  intros [[Hsz Hmt] [Hl Hr]]. cbn in Hsz, Hmt.
  split; [done|]. split; [done|]. split.
  - by intros l' ->.
  - by intros r' ->.
Qed.

Lemma unmarshalInt64_Ok n into :
  int64_range n → unmarshalInt64 (JNumber n) into = Ok n.
Proof.
  intros Hn. unfold unmarshalInt64. by rewrite decide_True.
Qed.

(** ** Strings through the encoder and the decoder *)

Lemma coerceFrom_valid skip s :
  utf8.validFrom skip s = true → json.coerceFrom skip s = s.
Proof.
  revert skip. induction s as [|c s IH]; intros skip Hv; [done|].
  cbn [utf8.validFrom json.coerceFrom] in *. destruct skip as [|k].
  - destruct (utf8.runeWidth (String c s)) as [n|]; [|done].
    by rewrite IH.
  - by rewrite IH.
Qed.

Lemma coerce_valid s : utf8.ValidString s = true → json.coerce s = s.
Proof. apply coerceFrom_valid. Qed.

Lemma coerce_empty s : json.coerce s = "" ↔ s = "".
Proof.
  destruct s as [|c s]; [done|]. split; [|done].
  unfold json.coerce. cbn [json.coerceFrom].
  by destruct (utf8.runeWidth (String c s)).
Qed.

(** A string of ASCII is valid. *)
Lemma ValidString_ascii s :
  Forall (λ c, utf8.byteOf c < 128) (list_ascii_of_string s) →
  utf8.ValidString s = true.
Proof.
  unfold utf8.ValidString.
  induction s as [|c s IH]; intros Hall; [done|].
  cbn [list_ascii_of_string] in Hall. apply Forall_cons in Hall as [Hc Hall].
  cbn [utf8.validFrom utf8.runeWidth]. unfold utf8.first.
  assert ((utf8.byteOf c <? 128) = true) as -> by (by apply Z.ltb_lt).
  by apply IH.
Qed.

(** What is left of a rune is copied as it is. *)
Lemma runeWidth_coerceFrom c s n :
  utf8.runeWidth (String c s) = Some n →
  utf8.runeWidth (String c (json.coerceFrom (n - 1) s)) = Some n.
Proof.
  cbn [utf8.runeWidth].
  destruct (utf8.first (utf8.byteOf c)) as [[[sz lo] hi]|]; [|done].
  destruct sz as [|[|sz]]; [|by intros [= <-]|].
  - destruct s as [|s1 r1]; [done|].
    destruct (negb (utf8.inRange s1 lo hi)) eqn:E1; [done|].
    cbn [Nat.leb]. intros [= <-]. cbn [Nat.sub json.coerceFrom].
    by rewrite E1.
  - destruct s as [|s1 r1]; [done|].
    destruct (negb (utf8.inRange s1 lo hi)) eqn:E1; [done|].
    destruct (S (S sz) <=? 2)%nat eqn:E2.
    { intros [= <-]. cbn [Nat.sub json.coerceFrom]. by rewrite E1. }
    destruct r1 as [|s2 r2]; [done|].
    destruct (negb (utf8.inRange s2 128 191)) eqn:E3; [done|].
    destruct (S (S sz) <=? 3)%nat eqn:E4.
    { intros [= <-]. cbn [Nat.sub json.coerceFrom]. by rewrite E1, E3. }
    destruct r2 as [|s3 r3]; [done|].
    destruct (negb (utf8.inRange s3 128 191)) eqn:E5; [done|].
    intros [= <-]. cbn [Nat.sub json.coerceFrom].
    by rewrite E1, E3, E5.
Qed.

Lemma validFrom_coerceFrom skip s :
  utf8.validFrom skip (json.coerceFrom skip s) = true.
Proof.
  revert skip. induction s as [|c s IH]; intros skip; [done|].
  cbn [json.coerceFrom]. destruct skip as [|k].
  - destruct (utf8.runeWidth (String c s)) as [n|] eqn:Hw.
    + cbn [utf8.validFrom]. rewrite (runeWidth_coerceFrom c s n Hw).
      apply IH.
    + unfold utf8.RuneError.
      change (utf8.validFrom 0
                (String (ascii_of_nat 239)
                   (String (ascii_of_nat 191)
                      (String (ascii_of_nat 189) (json.coerceFrom 0 s))))
              = true).
      cbn -[json.coerceFrom]. apply IH.
  - cbn [utf8.validFrom]. apply IH.
Qed.

(** What the decoder has read is written and read again as it is. *)
Lemma coerce_coerce s : json.coerce (json.coerce s) = json.coerce s.
Proof. apply coerce_valid, validFrom_coerceFrom. Qed.

Lemma subnodes_coerceNode n :
  subnodes (coerceNode n) = map coerceNode (subnodes n).
Proof.
  induction n as [h l r p sz mt IHl IHr] using Node_ind'.
  destruct l as [l'|], r as [r'|]; cbn [coerceNode subnodes map];
    rewrite ?map_app, ?(IHl _ eq_refl), ?(IHr _ eq_refl); reflexivity.
Qed.

Lemma coerceNode_valid n : validNode n → coerceNode n = n.
Proof.
  induction n as [h l r p sz mt IHl IHr] using Node_ind'.
  unfold validNode. cbn [subnodes]. rewrite Forall_cons, Forall_app.
  cbn [NodeHash Path]. intros [[Hh Hp] [Hl Hr]].
  cbn [coerceNode]. rewrite !coerce_valid by done.
  destruct l as [l'|], r as [r'|];
    rewrite ?(IHl _ eq_refl), ?(IHr _ eq_refl) by done; reflexivity.
Qed.

Lemma coerceNode_coerceNode n : coerceNode (coerceNode n) = coerceNode n.
Proof.
  induction n as [h l r p sz mt IHl IHr] using Node_ind'.
  cbn [coerceNode]. rewrite !coerce_coerce.
  destruct l as [l'|], r as [r'|];
    rewrite ?(IHl _ eq_refl), ?(IHr _ eq_refl); reflexivity.
Qed.

Lemma sizeOf_coerceNode x : sizeOf (coerceNode x) = sizeOf x.
Proof.
  destruct x as [h l r p sz mt]. unfold sizeOf. cbn [coerceNode Path NodeSize].
  destruct (decide (p ≠ "")) as [Hp|Hp].
  - rewrite decide_True; [done|]. by rewrite coerce_empty.
  - rewrite decide_False; [done|]. rewrite coerce_empty. done.
Qed.

Lemma walkSum_coerceNode n : walkSum (coerceNode n) = walkSum n.
Proof.
  unfold walkSum. rewrite subnodes_coerceNode.
  induction (subnodes n) as [|x xs IH]; [done|].
  cbn [map sum_with]. by rewrite sizeOf_coerceNode, IH.
Qed.

Lemma wfNode_coerceNode n : wfNode n → wfNode (coerceNode n).
Proof.
  unfold wfNode. rewrite subnodes_coerceNode, Forall_map.
  intros Hall. eapply Forall_impl; [exact Hall|]. by intros [].
Qed.

Ltac names_compute :=
  repeat match goal with
         | |- context [json.names ?k ?f] =>
             let b := eval vm_compute in (json.names k f) in
             change (json.names k f) with b
         end.

Ltac decode_step :=
  cbn -[unmarshalInt64 marshalNode json.names json.coerce coerceNode];
  names_compute;
  cbn -[unmarshalInt64 marshalNode json.names json.coerce coerceNode].

Lemma unmarshalNode_marshalNode n :
  wfNode n → unmarshalNode (marshalNode n) None = Ok (Some (coerceNode n)).
Proof.
  induction n as [h l r p sz mt IHl IHr] using Node_ind'.
  intros (Hsz & Hmt & Hl & Hr)%wfNode_inv.
  cbn [marshalNode].
  destruct l as [l'|], r as [r'|];
    destruct (decide (p = "")) as [->|Hp];
    destruct (decide (sz = 0)) as [->|Hs];
    destruct (decide (mt = 0)) as [->|Hm];
    decode_step;
    repeat (first [ rewrite (IHl _ eq_refl) by eauto
                  | rewrite (IHr _ eq_refl) by eauto
                  | rewrite unmarshalInt64_Ok by done ];
            decode_step);
    reflexivity.
Qed.

Lemma unmarshal_marshal platform st created created' :
  timeMarshalJSON platform (Created st) = Ok created →
  timeUnmarshalJSON platform created = Ok created' →
  (∀ n, Tree st = Some n → wfNode n) →
  ∃ data,
    marshal platform st = Ok data
    ∧ unmarshal platform data =
        Ok {| Generator := json.coerce (Generator st); Created := created';
              SRoot := json.coerce (SRoot st);
              SSize := json.coerce (SSize st);
              Tree := coerceNode <$> Tree st |}.
Proof.
  intros Hm Hu Hwf. unfold marshal. rewrite Hm. cbn -[json.coerce].
  eexists; split; [done|].
  cbn -[unmarshalNode marshalNode json.names json.coerce].
  names_compute. cbn -[unmarshalNode marshalNode json.names json.coerce].
  rewrite Hu. cbn -[unmarshalNode marshalNode json.names json.coerce].
  names_compute.
  destruct (Tree st) as [n|] eqn:Ht;
    cbn -[unmarshalNode marshalNode json.names json.coerce].
  - rewrite unmarshalNode_marshalNode by eauto. done.
  - done.
Qed.

Lemma Load_Save platform t dest now disk created now' :
  writable disk dest = true →
  timeMarshalJSON platform now = Ok created →
  timeUnmarshalJSON platform created = Ok now' →
  (∀ n, Root t = Some n → wfNode n) →
  ∃ disk',
    Save platform t dest now disk = (Ok (), disk')
    ∧ Load platform dest disk' =
        Ok (fromSerialized
              {| Generator := "merkle-go"; Created := now';
                 SRoot := json.coerce (RootPath t);
                 SSize := json.coerce (formatSize platform (TotalSize t));
                 Tree := coerceNode <$> Root t |}).
Proof.
  intros Hw Hm Hu Hwf. unfold Save.
  destruct (unmarshal_marshal platform
              {| Generator := "merkle-go"; Created := now;
                 SRoot := RootPath t;
                 SSize := formatSize platform (TotalSize t);
                 Tree := Root t |} created now' Hm Hu Hwf)
    as (data & -> & Hdata).
  unfold WriteFile. rewrite Hw. eexists; split; [done|].
  unfold Load, ReadFile. cbn [content]. rewrite lookup_insert_eq.
  cbn -[json.coerce]. rewrite Hdata. done.
Qed.

Lemma sum_with_app {A} (f : A → Z) l1 l2 :
  sum_with f (l1 ++ l2) = sum_with f l1 + sum_with f l2.
Proof. induction l1 as [|x l1 IH]; cbn; lia. Qed.

Lemma Load_fromSerialized platform disk path data st :
  ReadFile disk path = Ok data →
  unmarshal platform data = Ok st →
  Load platform path disk = Ok (fromSerialized st).
Proof. intros Hr Hu. unfold Load. rewrite Hr. cbn. by rewrite Hu. Qed.

(** C9 (amended): a leaf of the stored tree (a node with a non-empty path)
    whose mtime is 0 makes no entry of the files map, while its size is
    added to TotalSize: for a stored document of no more than the 10000
    nested values that the decoder accepts, which is decoded into a tree
    with such a leaf, Load succeeds, TotalSize is the sum over the walk
    with this leaf's size in it, and the map has no entry for the leaf's
    absolute path unless another node with a non-empty path and a non-zero
    mtime resolves to the same absolute path. *)
Theorem Load_skips_zero_mtime
    (platform : Platform) (disk : Disk) (path : string) (data : JSON)
    (st : SerializedTree) (root leaf : Node) (before after : list Node) :
  ReadFile disk path = Ok data →
  Z.of_nat (nesting data) ≤ 10000 →
  unmarshal platform data = Ok st →
  Tree st = Some root →
  subnodes root = before ++ leaf :: after →
  Path leaf ≠ "" →
  MTime leaf = 0 →
  ∃ t,
    Load platform path disk = Ok t
    ∧ TotalSize t =
        wrap_i64 (sum_with sizeOf before + NodeSize leaf
                  + sum_with sizeOf after)
    ∧ (Files t !! filepath.Join [SRoot st; Path leaf] = None ↔
       ∀ x, x ∈ subnodes root → Path x ≠ "" → MTime x ≠ 0 →
            filepath.Join [SRoot st; Path x]
            ≠ filepath.Join [SRoot st; Path leaf]).
Proof.
  intros Hread _ Hdec Htree Hsub Hpath Hmt.
  exists (fromSerialized st). split; [by apply (Load_fromSerialized _ _ _ data)|].
  rewrite fromSerialized_spec, Htree. cbn [TotalSize Files]. split.
  - unfold walkSum. rewrite Hsub, sum_with_app. cbn [sum_with].
    unfold sizeOf at 2. rewrite decide_True by done. f_equal. lia.
  - rewrite visit_fold_lookup_None. cbn [snd]. rewrite lookup_empty.
    split.
    + intros [_ Hall] x Hx Hp Hm Heq. apply (Hall x Hx).
      unfold entryOf. rewrite !decide_True by done. by f_equal.
    + intros Hall. split; [done|]. intros x Hx. unfold entryOf.
      destruct (decide (Path x ≠ "")); [|done].
      destruct (decide (MTime x ≠ 0)); [|done].
      intros [= Heq]. by apply (Hall x).
Qed.

(** The claim C9 as stated fails when a second leaf with a non-zero mtime
    carries the same path: the map then has an entry for the path of the
    leaf whose mtime is 0. *)
Lemma Load_skips_zero_mtime_counterexample :
  ∃ t root leaf,
    Load examplePlatform "tree.json" (diskWith "tree.json" twoLeavesOnePath)
      = Ok t
    ∧ Root t = Some root ∧ Left root = Some leaf
    ∧ Path leaf = "a" ∧ MTime leaf = 0
    ∧ Left leaf = None ∧ Right leaf = None
    ∧ Files t !! filepath.Join [RootPath t; Path leaf]
      = Some {| Hash := "8371a648434290e4"; Size := 5;
                ModTime := time.Unix 7 |}.
Proof.
  eexists _, _, _. split; [vm_compute; reflexivity|].
  cbn [Root Left Path MTime Right RootPath].
  repeat (split; [reflexivity|]). vm_compute. reflexivity.
Qed.

(** ** The sizes of a built tree *)

Lemma sum_with_Permutation {A} (f : A → Z) l1 l2 :
  l1 ≡ₚ l2 → sum_with f l1 = sum_with f l2.
Proof. induction 1; cbn; lia. Qed.

Lemma sum_with_map {A B} (f : B → Z) (g : A → B) l :
  sum_with f (map g l) = sum_with (f ∘ g) l.
Proof. induction l as [|x l IH]; cbn; [done|]. by rewrite IH. Qed.

Lemma sum_with_ext_in {A} (f g : A → Z) l :
  (∀ x, x ∈ l → f x = g x) → sum_with f l = sum_with g l.
Proof.
  induction l as [|x l IH]; intros Hfg; cbn; [done|].
  rewrite Hfg by left. rewrite IH; [done|]. intros y Hy. apply Hfg. by right.
Qed.

Lemma sumSizes_wrap files order :
  sumSizes files order = wrap_i64 (sizesOf files order).
Proof.
  unfold sumSizes, sizesOf.
  assert (∀ acc, int64_range acc →
            fold_left (λ totalSize path,
                         wrap_i64 (totalSize + Size (lookupFile files path)))
              order acc
            = wrap_i64 (acc + sum_with (λ p, Size (lookupFile files p)) order))
    as Hgen.
  { induction order as [|p order IH]; intros acc Hacc; cbn.
    - by rewrite Z.add_0_r, wrap_i64_id.
    - rewrite IH by apply wrap_i64_range. rewrite wrap_i64_add_l.
      f_equal. lia. }
  rewrite Hgen by (unfold int64_range; lia). done.
Qed.

Lemma walkSum_parentOf l r : walkSum (parentOf l r) = walkSum l + walkSum r.
Proof.
  unfold walkSum. cbn [parentOf subnodes sum_with]. rewrite sum_with_app.
  unfold sizeOf at 1. cbn [Path]. by rewrite decide_False by (by intros []).
Qed.

Lemma levelSum_pairs level :
  Forall (λ x, 0 < walkSum x) level →
  Forall (λ x, 0 < walkSum x) (pairs level)
  ∧ sum_with walkSum level ≤ sum_with walkSum (pairs level)
  ∧ (Nat.odd (length level) = true →
     sum_with walkSum level < sum_with walkSum (pairs level)).
Proof.
  induction level as [level IH] using (induction_ltof1 _ (@length Node)).
  destruct level as [|l [|r rest]]; intros Hpos.
  - cbn. split; [done|]. split; [lia|done].
  - rewrite Forall_singleton in Hpos. cbn [pairs sum_with].
    rewrite walkSum_parentOf. split; [|split; [lia|intros _; lia]].
    apply Forall_singleton. rewrite walkSum_parentOf. lia.
  - rewrite !Forall_cons in Hpos. destruct Hpos as (Hl & Hr & Hpos).
    destruct (IH rest) as (Hp & Hle & Hlt); [unfold ltof; simpl; lia|done|].
    cbn [pairs sum_with length]. rewrite walkSum_parentOf. split.
    + apply Forall_cons. split; [rewrite walkSum_parentOf; lia|done].
    + split; [lia|]. rewrite Nat.odd_succ, Nat.even_succ. intros Ho.
      specialize (Hlt Ho). lia.
Qed.

Lemma levelSum_reduce fuel level :
  Forall (λ x, 0 < walkSum x) level →
  sum_with walkSum level ≤ sum_with walkSum (reduce fuel level)
  ∧ (oddLevel fuel (length level) = true →
     sum_with walkSum level < sum_with walkSum (reduce fuel level)).
Proof.
  revert level. induction fuel as [|fuel IH]; intros level Hpos;
    cbn [reduce oddLevel].
  - destruct (1 <? length level)%nat; split; (lia || done).
  - destruct (1 <? length level)%nat; [|split; (lia || done)].
    destruct (levelSum_pairs level Hpos) as (Hp & Hle & Hlt).
    destruct (IH (pairs level) Hp) as (Hle' & Hlt').
    split; [lia|]. rewrite length_pairs in Hlt'.
    intros [Ho|Ho]%orb_true_iff.
    + specialize (Hlt Ho). lia.
    + specialize (Hlt' Ho). lia.
Qed.

Lemma subnodes_leafNode files cleanRoot p :
  subnodes (leafNode files cleanRoot p) = [leafNode files cleanRoot p].
Proof. done. Qed.

Lemma walkSum_leafNode files cleanRoot p :
  relativePath cleanRoot p ≠ "" →
  walkSum (leafNode files cleanRoot p) = Size (lookupFile files p).
Proof.
  intros Hrel. unfold walkSum. rewrite subnodes_leafNode. cbn [sum_with].
  unfold sizeOf. cbn [Path leafNode NodeSize]. rewrite decide_True by done.
  lia.
Qed.

Lemma levelSum_leaves files cleanRoot paths :
  (∀ p, p ∈ paths → relativePath cleanRoot p ≠ "") →
  sum_with walkSum (map (leafNode files cleanRoot) paths) = sizesOf files paths.
Proof.
  intros Hrel. rewrite sum_with_map. unfold sizesOf.
  apply sum_with_ext_in. intros p Hp. cbn. by apply walkSum_leafNode, Hrel.
Qed.

(** The root of a level: the one node left by the pairing loop. *)
Lemma reduce_singleton fuel level :
  (length level ≤ S fuel)%nat → length level ≠ 0%nat →
  ∃ root, reduce fuel level = [root].
Proof.
  intros Hfuel Hne.
  pose proof (reduce_length fuel level Hfuel) as Hlen.
  pose proof (reduce_head_nonempty fuel level Hne) as Hhead.
  destruct (reduce fuel level) as [|root [|]]; [done| |simpl in Hlen; lia].
  by exists root.
Qed.

(** ** The nodes of a built tree *)

Lemma Forall_subnodes_pairs (P : Node → Prop) level :
  (∀ l r, P (parentOf l r)) →
  Forall (λ y, Forall P (subnodes y)) level →
  Forall (λ y, Forall P (subnodes y)) (pairs level).
Proof.
  intros Hpar.
  induction level as [level IH] using (induction_ltof1 _ (@length Node)).
  destruct level as [|l [|r rest]]; intros Hall; cbn [pairs].
  - constructor.
  - rewrite Forall_singleton in Hall. apply Forall_singleton.
    cbn [parentOf subnodes]. rewrite Forall_cons, Forall_app.
    split; [apply (Hpar l l)|done].
  - rewrite !Forall_cons in Hall. destruct Hall as (Hl & Hr & Hrest).
    apply Forall_cons. split.
    + cbn [parentOf subnodes]. rewrite Forall_cons, Forall_app.
      split; [apply (Hpar l r)|done].
    + apply IH; [unfold ltof; simpl; lia|done].
Qed.

Lemma Forall_subnodes_reduce (P : Node → Prop) fuel level :
  (∀ l r, P (parentOf l r)) →
  Forall (λ y, Forall P (subnodes y)) level →
  Forall (λ y, Forall P (subnodes y)) (reduce fuel level).
Proof.
  intros Hpar. revert level.
  induction fuel as [|fuel IH]; intros level Hall; cbn [reduce];
    destruct (1 <? length level)%nat; try done.
  by apply IH, Forall_subnodes_pairs.
Qed.

(** What holds of the parents and of the leaves holds of every node of the
    built root. *)
Lemma Build_root_Forall (P : Node → Prop) files rootPath order1 order2 :
  IterOrder files order1 →
  size files ≠ 0%nat →
  (∀ l r, P (parentOf l r)) →
  (∀ p fd, files !! p = Some fd →
           P (leafNode files (filepath.Clean rootPath) p)) →
  ∃ t root,
    Build files rootPath order1 order2 = Some (Ok t)
    ∧ Root t = Some root ∧ RootPath t = rootPath ∧ Files t = files
    ∧ TotalSize t = sumSizes files order2
    ∧ reduce (length order1)
        (map (leafNode files (filepath.Clean rootPath))
           (sort.Strings order1)) = [root]
    ∧ Forall P (subnodes root).
Proof.
  intros Hord Hne Hpar Hleaf. rewrite Build_nonempty by done. cbv zeta.
  set (leaves := map _ (sort.Strings order1)).
  assert (length leaves = length order1) as Hlen
    by (unfold leaves; by rewrite length_map, sort_Strings_length).
  rewrite Hlen.
  destruct (reduce_singleton (length order1) leaves) as [root Hroot];
    [lia|rewrite Hlen, (IterOrder_size files) by done; done|].
  rewrite Hroot. eexists _, root. repeat (split; [done|]).
  assert (Forall (λ y, Forall P (subnodes y)) [root]) as Hall.
  { rewrite <- Hroot. apply Forall_subnodes_reduce; [done|].
    unfold leaves. apply Forall_map, Forall_forall. intros p Hp.
    rewrite sort_Strings_elem_of, (IterOrder_lookup files order1 p Hord) in Hp.
    destruct Hp as [fd Hfd]. cbn beta. rewrite subnodes_leafNode.
    apply Forall_singleton. by apply (Hleaf p fd). }
  by rewrite Forall_singleton in Hall.
Qed.

Lemma visit_fold_subseteq root files nodes acc :
  Forall (λ x, ∀ k, entryOf root x = Some k → files !! k = Some (dataOf x))
    nodes →
  acc.2 ⊆ files →
  (fold_left (visit root) nodes acc).2 ⊆ files.
Proof.
  revert acc. induction nodes as [|x nodes IH]; intros acc Hall Hacc;
    [done|].
  rewrite Forall_cons in Hall. destruct Hall as [Hx Hall].
  cbn [fold_left]. apply IH; [done|].
  unfold visit. unfold entryOf in Hx.
  destruct (decide (Path x ≠ "")); [|done].
  destruct (decide (MTime x ≠ 0)); [|done]. cbn [snd].
  apply insert_subseteq_l; [|done]. by apply Hx.
Qed.

Lemma leafNode_entry rootPath files p fd :
  files !! p = Some fd →
  Storable rootPath files →
  let leaf := leafNode files (filepath.Clean rootPath) p in
  entryOf rootPath leaf = Some p ∧ dataOf leaf = fd
  ∧ int64_range (NodeSize leaf) ∧ int64_range (MTime leaf).
Proof.
  intros Hp Hst.
  destruct (Hst p fd Hp) as (Hns & Hs & Hsz & Hmt & Hrel & Hjoin & _).
  cbv zeta. unfold entryOf, dataOf, leafNode, lookupFile. rewrite Hp.
  cbn [Path MTime NodeHash NodeSize default time.Unix_of].
  rewrite !decide_True by done. rewrite Hjoin. split; [done|].
  split; [|done]. destruct fd as [h sz [s ns]]. cbn in *. subst ns.
  done.
Qed.

Lemma Load_Save_tree platform t dest now disk created now' :
  writable disk dest = true →
  timeMarshalJSON platform now = Ok created →
  timeUnmarshalJSON platform created = Ok now' →
  (∀ n, Root t = Some n → wfNode n) →
  ∃ disk' t',
    Save platform t dest now disk = (Ok (), disk')
    ∧ Load platform dest disk' = Ok t'
    ∧ Root t' = coerceNode <$> Root t
    ∧ RootPath t' = json.coerce (RootPath t)
    ∧ TotalSize t' =
        match Root t with
        | Some root => wrap_i64 (walkSum root)
        | None => 0
        end
    ∧ Files t' =
        match Root t with
        | Some root =>
            (fold_left (visit (json.coerce (RootPath t)))
               (subnodes (coerceNode root)) (0, ∅)).2
        | None => ∅
        end.
Proof.
  intros Hw Hm Hu Hwf.
  destruct (Load_Save platform t dest now disk created now' Hw Hm Hu Hwf)
    as (disk' & HS & HL).
  eexists disk', _. split; [exact HS|]. split; [exact HL|].
  rewrite fromSerialized_spec. cbn [Tree SRoot Root RootPath TotalSize Files].
  destruct (Root t) as [root|]; cbn [fmap option_fmap option_map]; [|done].
  by rewrite walkSum_coerceNode.
Qed.

Lemma digit_ascii n : utf8.byteOf (hex.digit n) < 128.
Proof.
  unfold hex.digit.
  assert (Forall (λ c, utf8.byteOf c < 128) hex.hextable) as Hall.
  { unfold hex.hextable. cbn [list_ascii_of_string].
    repeat (apply Forall_cons; split; [vm_compute; reflexivity|]).
    apply Forall_nil_2. }
  destruct (Nat.lt_ge_cases (Z.to_nat n) (length hex.hextable)) as [Hlt|Hge].
  - rewrite Forall_forall in Hall. apply Hall, list_elem_of_In, nth_In. done.
  - rewrite nth_overflow by done. vm_compute. reflexivity.
Qed.

(** The text of a digest is valid UTF-8. *)
Lemma ValidString_EncodeToString src :
  utf8.ValidString (hex.EncodeToString src) = true.
Proof.
  apply ValidString_ascii.
  induction src as [|b src IH]; cbn [hex.EncodeToString list_ascii_of_string];
    [constructor|].
  repeat (apply Forall_cons; split; [apply digit_ascii|]). done.
Qed.

(** C1 (amended): for a files mapping that is storable under the root
    (whole-second times other than 0, values within int64, paths that are
    the join of the root with their relative path, hashes and relative
    paths of valid UTF-8), a root path of valid UTF-8, a destination that
    can be written and a timestamp that the decoder reads back, loading
    what was saved of the built tree gives a tree with the same root (so
    the same root hash), the same root path and the same files map: the
    same keys with the same hash, size and modification time. *)
Theorem Load_Save_Build
    (platform : Platform) (files : gmap string FileData) (rootPath : string)
    (order1 order2 : list string) (dest : string) (now now' : time.Time)
    (created : string) (disk : Disk) :
  IterOrder files order1 →
  Storable rootPath files →
  utf8.ValidString rootPath = true →
  writable disk dest = true →
  timeMarshalJSON platform now = Ok created →
  timeUnmarshalJSON platform created = Ok now' →
  ∃ t disk' t',
    Build files rootPath order1 order2 = Some (Ok t)
    ∧ Save platform t dest now disk = (Ok (), disk')
    ∧ Load platform dest disk' = Ok t'
    ∧ Root t' = Root t ∧ rootHash t' = rootHash t
    ∧ RootPath t' = RootPath t
    ∧ Files t' = Files t.
Proof.
  intros Hord Hst Hvalid Hw Hm Hu.
  destruct (decide (size files = 0%nat)) as [Hz|Hnz].
  - apply map_size_empty_inv in Hz. subst files. rewrite Build_empty.
    eexists _.
    edestruct (Load_Save_tree platform) as (disk' & t' & HS & HL & H1 & H2 & _ & H4);
      [exact Hw|exact Hm|exact Hu| |].
    2:{ exists disk', t'. split; [done|]. split; [exact HS|].
        split; [exact HL|]. unfold rootHash.
        cbn [Root RootPath Files fmap option_fmap option_map] in *.
        rewrite H1, H2, H4, (coerce_valid rootPath) by done.
        split; [by vm_compute|]. split; [by vm_compute|]. done. }
    cbn [Root]. intros n [= <-]. unfold wfNode. cbn [subnodes].
    apply Forall_singleton. split; unfold int64_range; cbn; lia.
  - set (P := λ x : Node,
          (int64_range (NodeSize x) ∧ int64_range (MTime x))
          ∧ (∀ k, entryOf rootPath x = Some k → files !! k = Some (dataOf x))
          ∧ utf8.ValidString (NodeHash x) = true
          ∧ utf8.ValidString (Path x) = true).
    destruct (Build_root_Forall P files rootPath order1 order2 Hord Hnz)
      as (t & root & -> & Hroot & Hrp & Hfiles & _ & Hred & Hall).
    { intros l r. split; [cbn; unfold int64_range; lia|]. split.
      - intros k. unfold entryOf. cbn [parentOf Path].
        by rewrite decide_False by (by intros []).
      - cbn [parentOf NodeHash Path]. split; [|done].
        apply ValidString_EncodeToString. }
    { intros p fd Hp.
      destruct (leafNode_entry rootPath files p fd Hp Hst)
        as (He & Hd & Hr1 & Hr2).
      split; [done|]. split.
      - intros k. rewrite He, Hd. by intros [= <-].
      - destruct (Hst p fd Hp) as (_ & _ & _ & _ & _ & _ & Hvh & Hvp).
        unfold leafNode, lookupFile. rewrite Hp. by cbn. }
    assert (coerceNode root = root) as Hcoerce.
    { apply coerceNode_valid. unfold validNode.
      eapply Forall_impl; [exact Hall|]. by intros x (_ & _ & ?). }
    destruct (Load_Save_tree platform t dest now disk created now' Hw Hm Hu)
      as (disk' & t' & HS & HL & H1 & H2 & _ & H4).
    { rewrite Hroot. intros n [= <-]. unfold wfNode.
      eapply Forall_impl; [exact Hall|]. by intros x [? _]. }
    rewrite Hroot in H1, H4. cbn [fmap option_fmap option_map] in H1.
    rewrite Hcoerce in H1, H4. rewrite Hrp, coerce_valid in H2, H4 by done.
    exists t, disk', t'. split; [done|]. split; [done|]. split; [done|].
    split; [by rewrite H1, Hroot|].
    split; [unfold rootHash; by rewrite H1, Hroot|].
    split; [by rewrite H2, Hrp|].
    rewrite H4, Hfiles.
    set (m := (fold_left _ _ _).2).
    assert (m ⊆ files) as Hsub.
    { apply visit_fold_subseteq; [|apply map_empty_subseteq].
      eapply Forall_impl; [exact Hall|]. by intros x (_ & ? & _). }
    apply map_eq. intros k.
    destruct (files !! k) as [fd|] eqn:Hk.
    + destruct (m !! k) as [v|] eqn:Hmk.
      * eapply lookup_weaken in Hmk; [|exact Hsub]. congruence.
      * exfalso. unfold m in Hmk. apply visit_fold_lookup_None in Hmk.
        destruct Hmk as [_ Hno].
        destruct (leafNode_entry rootPath files k fd Hk Hst) as (He & _).
        apply (Hno (leafNode files (filepath.Clean rootPath) k)); [|done].
        destruct (elem_of_reduce_root (length order1)
                    (map (leafNode files (filepath.Clean rootPath))
                       (sort.Strings order1))
                    (leafNode files (filepath.Clean rootPath) k))
          as (r & Hr & Hin).
        { apply list_elem_of_fmap. exists k. split; [done|].
          apply sort_Strings_elem_of, (IterOrder_lookup files order1 k Hord).
          eauto. }
        rewrite Hred in Hr. apply list_elem_of_singleton in Hr. by subst.
    + destruct (m !! k) as [v|] eqn:Hmk; [|done].
      eapply lookup_weaken in Hmk; [|exact Hsub]. congruence.
Qed.

Lemma sum_with_elem_le {A} (f : A → Z) l x :
  (∀ y, y ∈ l → 0 ≤ f y) → x ∈ l → f x ≤ sum_with f l.
Proof.
  induction l as [|y l IH]; intros Hpos Hx.
  - by apply elem_of_nil in Hx.
  - cbn [sum_with]. apply elem_of_cons in Hx as [->|Hx].
    + assert (0 ≤ sum_with f l); [|lia].
      clear IH. induction l as [|z l IH]; cbn; [lia|].
      assert (0 ≤ f z) by (apply Hpos; right; left).
      assert (0 ≤ sum_with f l); [|lia].
      apply IH. intros w [->|Hw]%elem_of_cons; apply Hpos;
        [left|right; right]; done.
    + assert (0 ≤ f y) by (apply Hpos; left).
      assert (f x ≤ sum_with f l); [|lia].
      apply IH; [|done]. intros w Hw. apply Hpos. by right.
Qed.

Lemma sizesOf_orders (files : gmap string FileData) order1 order2 :
  IterOrder files order1 → IterOrder files order2 →
  sizesOf files (sort.Strings order1) = sizesOf files order2.
Proof.
  intros H1 H2. unfold sizesOf. apply sum_with_Permutation.
  unfold sort.Strings. rewrite merge_sort_Permutation.
  unfold IterOrder in *. by rewrite H1, H2.
Qed.

(** C10 (amended): Load sums the size over every leaf occurrence of the
    walk, a self-paired node counting twice.  For a tree built from files
    of positive size whose relative paths are not empty, with a level of
    odd length greater than 1, the total that Load of the saved tree
    returns exceeds the total of the built tree, provided the re-summed
    total fits int64; and for three files of sizes s1, s2, s3 in the order
    of the sorted paths it is s1 + s2 + 2*s3 (in int64 arithmetic). *)
Theorem Load_counts_duplicates :
  (∀ (platform : Platform) (files : gmap string FileData)
     (rootPath : string) (order1 order2 : list string) (t : MerkleTree)
     (root : Node) (dest : string) (now now' : time.Time)
     (created : string) (disk : Disk),
     IterOrder files order1 → IterOrder files order2 →
     (∀ p fd, files !! p = Some fd →
        0 < Size fd ∧ int64_range (time.sec (ModTime fd))
        ∧ relativePath (filepath.Clean rootPath) p ≠ "") →
     hasOddLevel (size files) = true →
     Build files rootPath order1 order2 = Some (Ok t) →
     Root t = Some root →
     walkSum root < 2 ^ 63 →
     writable disk dest = true →
     timeMarshalJSON platform now = Ok created →
     timeUnmarshalJSON platform created = Ok now' →
     ∃ disk' t',
       Save platform t dest now disk = (Ok (), disk')
       ∧ Load platform dest disk' = Ok t'
       ∧ TotalSize t' = walkSum root
       ∧ TotalSize t < TotalSize t')
  ∧ (∀ (platform : Platform) (files : gmap string FileData)
       (rootPath : string) (order1 order2 : list string)
       (p1 p2 p3 : string) (fd1 fd2 fd3 : FileData)
       (dest : string) (now now' : time.Time) (created : string)
       (disk : Disk),
       IterOrder files order1 →
       sort.Strings order1 = [p1; p2; p3] →
       files !! p1 = Some fd1 → files !! p2 = Some fd2 →
       files !! p3 = Some fd3 →
       (∀ p fd, files !! p = Some fd →
          int64_range (Size fd) ∧ int64_range (time.sec (ModTime fd))
          ∧ relativePath (filepath.Clean rootPath) p ≠ "") →
       writable disk dest = true →
       timeMarshalJSON platform now = Ok created →
       timeUnmarshalJSON platform created = Ok now' →
       ∃ t disk' t',
         Build files rootPath order1 order2 = Some (Ok t)
         ∧ Save platform t dest now disk = (Ok (), disk')
         ∧ Load platform dest disk' = Ok t'
         ∧ TotalSize t' = wrap_i64 (Size fd1 + Size fd2 + 2 * Size fd3)).
Proof.
  split.
  - intros platform files rootPath order1 order2 t root dest now now'
      created disk Ho1 Ho2 Hfiles Hodd HB Hroot Hfit Hw Hm Hu.
    assert (size files ≠ 0%nat) as Hnz.
    { intros Hz. rewrite Hz in Hodd. done. }
    set (cleanRoot := filepath.Clean rootPath) in *.
    set (leaves := map (leafNode files cleanRoot) (sort.Strings order1)).
    assert (∀ p, p ∈ sort.Strings order1 → is_Some (files !! p)) as Hin.
    { intros p Hp. rewrite sort_Strings_elem_of in Hp.
      by apply (IterOrder_lookup files order1 p Ho1). }
    assert (length leaves = length order1) as Hlen
      by (unfold leaves; by rewrite length_map, sort_Strings_length).
    assert (Forall (λ x, 0 < walkSum x) leaves) as Hpos.
    { unfold leaves. apply Forall_map, Forall_forall. intros p Hp.
      destruct (Hin p Hp) as [fd Hfd].
      destruct (Hfiles p fd Hfd) as (Hsz & _ & Hrel). cbn beta.
      rewrite walkSum_leafNode by done. unfold lookupFile. by rewrite Hfd. }
    assert (sum_with walkSum leaves = sizesOf files order2) as Hsum.
    { unfold leaves. rewrite levelSum_leaves.
      - by apply sizesOf_orders.
      - intros p Hp. destruct (Hin p Hp) as [fd Hfd].
        by destruct (Hfiles p fd Hfd) as (_ & _ & Hrel). }
    rewrite Build_nonempty in HB by done. cbv zeta in HB.
    fold cleanRoot in HB. fold leaves in HB. rewrite Hlen in HB.
    destruct (reduce_singleton (length order1) leaves) as [root' Hred];
      [lia|rewrite Hlen, (IterOrder_size files) by done; done|].
    rewrite Hred in HB. injection HB as <-. cbn [Root] in Hroot.
    injection Hroot as ->.
    destruct (levelSum_reduce (length order1) leaves Hpos) as [_ Hlt].
    rewrite Hlen, (IterOrder_size files order1 Ho1) in Hlt.
    fold (hasOddLevel (size files)) in Hlt. specialize (Hlt Hodd).
    rewrite <- (IterOrder_size files order1 Ho1), Hred in Hlt.
    cbn [sum_with] in Hlt. rewrite Z.add_0_r, Hsum in Hlt.
    (* every size is positive, so the exact sum is *)
    assert (0 ≤ sizesOf files order2) as Hnonneg.
    { rewrite <- Hsum. clear -Hpos. induction Hpos; cbn; lia. }
    set (t := {| Root := Some root; RootPath := rootPath;
                 TotalSize := sumSizes files order2; Files := files |}).
    destruct (Load_Save_tree platform t dest now disk created now' Hw Hm Hu)
      as (disk' & t' & HS & HL & _ & _ & H3 & _).
    { cbn [Root t]. intros n [= <-]. unfold wfNode.
      assert (Forall (λ y, Forall (λ x, int64_range (NodeSize x)
                                        ∧ int64_range (MTime x))
                             (subnodes y)) [root]) as Hall.
      { rewrite <- Hred. apply Forall_subnodes_reduce.
        - intros l r. cbn. unfold int64_range. lia.
        - unfold leaves. apply Forall_map, Forall_forall. intros p Hp.
          destruct (Hin p Hp) as [fd Hfd].
          destruct (Hfiles p fd Hfd) as (Hsz & Hmt & Hrel). cbn beta.
          rewrite subnodes_leafNode. apply Forall_singleton.
          unfold leafNode, lookupFile. rewrite Hfd.
          cbn [NodeSize MTime default time.Unix_of]. split; [|done].
          assert (Size fd ≤ sizesOf files (sort.Strings order1)) as Hle.
          { pose proof (sum_with_elem_le (λ q, Size (lookupFile files q))
                          (sort.Strings order1) p) as Hle.
            cbn beta in Hle. unfold lookupFile at 2 in Hle.
            rewrite Hfd in Hle. apply Hle; [|done]. intros q Hq.
            destruct (Hin q Hq) as [fd' Hfd']. unfold lookupFile.
            rewrite Hfd'. cbn. destruct (Hfiles q fd' Hfd'). lia. }
          rewrite (sizesOf_orders files order1 order2) in Hle by done.
          unfold int64_range, id. lia. }
      by rewrite Forall_singleton in Hall. }
    exists disk', t'. split; [done|]. split; [done|].
    rewrite H3. cbn [Root t TotalSize].
    rewrite wrap_i64_id by (unfold int64_range; lia). split; [done|].
    rewrite sumSizes_wrap, wrap_i64_id by (unfold int64_range; lia). done.
  - intros platform files rootPath order1 order2 p1 p2 p3 fd1 fd2 fd3
      dest now now' created disk Ho1 Hsort H1 H2 H3 Hfiles Hw Hm Hu.
    assert (size files ≠ 0%nat) as Hnz.
    { rewrite <- (IterOrder_size files order1 Ho1), <- sort_Strings_length,
        Hsort. done. }
    rewrite Build_nonempty by done. cbv zeta. rewrite Hsort.
    cbn [map length reduce pairs Nat.ltb Nat.leb head].
    match goal with
    | |- context [Some (Ok ?t0)] => set (t := t0)
    end.
    destruct (Hfiles p1 fd1 H1) as (Hs1 & Hm1 & Hr1).
    destruct (Hfiles p2 fd2 H2) as (Hs2 & Hm2 & Hr2).
    destruct (Hfiles p3 fd3 H3) as (Hs3 & Hm3 & Hr3).
    destruct (Load_Save_tree platform t dest now disk created now' Hw Hm Hu)
      as (disk' & t' & HS & HL & _ & _ & Htot & _).
    { cbn [Root t]. intros n [= <-]. unfold wfNode, parentOf.
      cbn [subnodes app]. unfold leafNode, lookupFile.
      rewrite H1, H2, H3. unfold default, from_option, id, time.Unix_of.
      repeat (apply Forall_cons;
              split; [cbn [NodeSize MTime]; unfold int64_range in *; lia|]).
      constructor. }
    exists t, disk', t'. split; [done|]. split; [done|]. split; [done|].
    rewrite Htot. cbn [Root t]. f_equal.
    rewrite !walkSum_parentOf, !walkSum_leafNode by done.
    unfold lookupFile. rewrite H1, H2, H3. cbn. lia.
Qed.

(** * Properties of [HashFile] *)

Lemma blocks_length k v s :
  (32 * k ≤ length s)%nat →
  length (xxhash.blocks k v s).2 = (length s - 32 * k)%nat.
Proof.
  revert v s. induction k as [|k IH]; intros v s Hk; cbn [xxhash.blocks].
  - cbn. lia.
  - rewrite IH; rewrite length_skipn; lia.
Qed.

Lemma blocks_add k1 k2 v s :
  xxhash.blocks (k1 + k2) v s =
    xxhash.blocks k2 (xxhash.blocks k1 v s).1 (xxhash.blocks k1 v s).2.
Proof.
  revert v s. induction k1 as [|k1 IH]; intros v s; [done|].
  cbn [Nat.add xxhash.blocks]. apply IH.
Qed.

Lemma blocks_app k v s b :
  (32 * k ≤ length s)%nat →
  xxhash.blocks k v (s ++ b) =
    ((xxhash.blocks k v s).1, (xxhash.blocks k v s).2 ++ b).
Proof.
  revert v s. induction k as [|k IH]; intros v s Hk; cbn [xxhash.blocks].
  - done.
  - rewrite firstn_app, skipn_app.
    replace (32 - length s)%nat with 0%nat by lia.
    cbn [firstn skipn]. rewrite app_nil_r.
    apply IH. rewrite length_skipn. lia.
Qed.

Lemma absorb_length v s : (length (absorb v s).2 < 32)%nat.
Proof.
  unfold absorb. rewrite blocks_length.
  - pose proof (Nat.div_mod_eq (length s) 32).
    pose proof (Nat.mod_upper_bound (length s) 32 ltac:(lia)). lia.
  - pose proof (Nat.div_mod_eq (length s) 32). lia.
Qed.

Lemma absorb_app v s b :
  absorb v (s ++ b) = absorb (absorb v s).1 ((absorb v s).2 ++ b).
Proof.
  unfold absorb at 1. rewrite length_app.
  pose proof (Nat.div_mod_eq (length s) 32) as Hdm.
  pose proof (Nat.mod_upper_bound (length s) 32 ltac:(lia)) as Hlt.
  assert (((length s + length b) / 32
           = length s / 32 + (length s mod 32 + length b) / 32)%nat) as ->.
  { replace (length s + length b)%nat
      with ((length s mod 32 + length b) + (length s / 32) * 32)%nat by lia.
    rewrite Nat.div_add by lia. lia. }
  rewrite blocks_add, blocks_app by lia. cbn [fst snd].
  fold (absorb v s). unfold absorb at 3.
  rewrite length_app. unfold absorb at 3. rewrite blocks_length by lia.
  replace (length s - 32 * (length s / 32))%nat with (length s mod 32)%nat
    by lia.
  done.
Qed.

(** What [Write] does, in one piece. *)
Lemma Write_absorb d b :
  (length (xxhash.mem d) < 32)%nat →
  xxhash.Write d b =
    {| xxhash.lanes := (absorb (xxhash.lanes d) (xxhash.mem d ++ b)).1;
       xxhash.total := xxhash.add64 (xxhash.total d) (Z.of_nat (length b));
       xxhash.mem := (absorb (xxhash.lanes d) (xxhash.mem d ++ b)).2 |}.
Proof.
  intros Hmem. unfold xxhash.Write.
  destruct (length (xxhash.mem d) + length b <? 32)%nat eqn:Hsmall.
  - apply Nat.ltb_lt in Hsmall. unfold absorb. rewrite length_app.
    rewrite Nat.div_small by lia. done.
  - apply Nat.ltb_ge in Hsmall.
    destruct (0 <? length (xxhash.mem d))%nat eqn:Hn.
    + apply Nat.ltb_lt in Hn.
      set (c := (32 - length (xxhash.mem d))%nat).
      assert (xxhash.mem d ++ b
              = (xxhash.mem d ++ firstn c b) ++ skipn c b) as Hsplit
        by (by rewrite <- app_assoc, firstn_skipn).
      assert (length (xxhash.mem d ++ firstn c b) = 32%nat) as Hblock
        by (rewrite length_app, length_firstn; lia).
      rewrite Hsplit.
      set (blk := xxhash.mem d ++ firstn c b) in *.
      set (b1 := skipn c b).
      unfold absorb. rewrite length_app, Hblock.
      replace (32 + length b1)%nat with (length b1 + 1 * 32)%nat by lia.
      rewrite Nat.div_add by lia.
      replace (length b1 / 32 + 1)%nat with (S (length b1 / 32)) by lia.
      cbn [xxhash.blocks].
      rewrite firstn_app, skipn_app, Hblock. cbn [Nat.sub firstn skipn].
      rewrite app_nil_r, firstn_all2, skipn_all2 by lia. cbn [app].
      destruct (32 <=? length b1)%nat eqn:Hb1.
      * unfold xxhash.writeBlocks. by destruct (xxhash.blocks _ _ _).
      * apply Nat.leb_gt in Hb1. by rewrite Nat.div_small by lia.
    + apply Nat.ltb_ge in Hn.
      assert (xxhash.mem d = []) as Hnil
        by (destruct (xxhash.mem d); [done|simpl in Hn; lia]).
      rewrite Hnil in *. cbn [app length] in *.
      assert ((32 <=? length b)%nat = true) as -> by (apply Nat.leb_le; lia).
      unfold xxhash.writeBlocks, absorb. by destruct (xxhash.blocks _ _ _).
Qed.

Lemma wfDigest_New : wfDigest xxhash.New.
Proof. unfold wfDigest. cbn. lia. Qed.

Lemma wfDigest_Write d b : wfDigest d → wfDigest (xxhash.Write d b).
Proof.
  intros [Hmem Htot]. rewrite Write_absorb by done. split; cbn.
  - apply absorb_length.
  - unfold xxhash.add64, wrap_u64. apply Z.mod_pos_bound. lia.
Qed.

Lemma Write_nil d : wfDigest d → xxhash.Write d [] = d.
Proof.
  intros [Hmem Htot]. unfold xxhash.Write. cbn [length]. rewrite Nat.add_0_r.
  assert ((length (xxhash.mem d) <? 32)%nat = true) as ->
    by (by apply Nat.ltb_lt).
  rewrite app_nil_r. unfold xxhash.add64, wrap_u64. cbn [Z.of_nat].
  rewrite Z.add_0_r, Z.mod_small by lia. by destruct d.
Qed.

(** Two writes are one write of the two pieces. *)
Lemma Write_Write d a b :
  wfDigest d → xxhash.Write (xxhash.Write d a) b = xxhash.Write d (a ++ b).
Proof.
  intros [Hmem Htot].
  rewrite (Write_absorb d a), (Write_absorb d (a ++ b)) by done.
  rewrite Write_absorb by (cbn [xxhash.mem]; apply absorb_length).
  cbn [xxhash.lanes xxhash.mem xxhash.total].
  rewrite app_assoc, (absorb_app _ (xxhash.mem d ++ a) b).
  f_equal. unfold xxhash.add64, wrap_u64.
  rewrite Zplus_mod_idemp_l, length_app. f_equal. lia.
Qed.

Lemma feed_Write h data : wfDigest h → hash.feed h data = xxhash.Write h data.
Proof.
  intros Hwf. unfold hash.feed. destruct data as [|x data]; cbn.
  - by rewrite Write_nil.
  - done.
Qed.

Lemma readLoop_chunks h chunks last rest :
  wfDigest h →
  hash.readLoop h (map os.ReadData chunks ++ os.ReadEOF last :: rest) =
    Some (Ok (hex.EncodeToString
                (xxhash.Sum (xxhash.Write h (concat chunks ++ last)) []))).
Proof.
  revert h. induction chunks as [|c chunks IH]; intros h Hwf.
  - cbn. by rewrite feed_Write.
  - cbn [map app hash.readLoop concat]. rewrite feed_Write by done.
    rewrite IH by (by apply wfDigest_Write).
    by rewrite Write_Write, app_assoc.
Qed.

Lemma digit_lower n : hex.digit n ∈ hex.hextable.
Proof.
  unfold hex.digit.
  destruct (Nat.lt_ge_cases (Z.to_nat n) (length hex.hextable)) as [Hlt|Hge].
  - apply list_elem_of_In, nth_In. done.
  - rewrite nth_overflow by done. vm_compute. left.
Qed.

Lemma EncodeToString_lower src : lowerHex (hex.EncodeToString src).
Proof.
  unfold lowerHex. induction src as [|b src IH]; cbn; [constructor|].
  repeat (constructor; [apply digit_lower|]). done.
Qed.

Lemma EncodeToString_length src :
  String.length (hex.EncodeToString src) = (2 * length src)%nat.
Proof. induction src as [|b src IH]; cbn; [done|]. rewrite IH. lia. Qed.

(** C8: the digest that [HashFile] returns depends on the content alone:
    however the content arrives (reads of any sizes, in any number, the
    last with the end of file) the result is the hash of the whole byte
    sequence written at once, sixteen lowercase hexadecimal digits. *)
Theorem HashFile_chunking
    (fs : os.FileSystem) (path : string) (chunks : list (list byte))
    (last : list byte) (rest : os.File) :
  fs path = Ok (map os.ReadData chunks ++ os.ReadEOF last :: rest) →
  hash.HashFile fs path = Some (Ok (hashBytes (concat chunks ++ last)))
  ∧ lowerHex (hashBytes (concat chunks ++ last))
  ∧ String.length (hashBytes (concat chunks ++ last)) = 16%nat.
Proof.
  intros Hopen. unfold hash.HashFile. rewrite Hopen. split.
  - apply readLoop_chunks, wfDigest_New.
  - split; [apply EncodeToString_lower|].
    unfold hashBytes. rewrite EncodeToString_length. done.
Qed.

(** * Properties of [HashFiles] *)

Lemma sum_list_insert (ws : list walker.Worker) i w w' :
  ws !! i = Some w →
  (sum_list (map workerSteps (<[i := w']> ws)) + workerSteps w
   = sum_list (map workerSteps ws) + workerSteps w')%nat.
Proof.
  revert i. induction ws as [|x ws IH]; intros [|i] Hi; simplify_eq/=.
  - lia.
  - specialize (IH i Hi). lia.
Qed.

(** Each step takes one from the potential. *)
Lemma step_potential fs a s s' :
  walker.step fs a s = Some s' → (potential s = S (potential s'))%nat.
Proof.
  unfold walker.step, potential.
  destruct (walker.returned s) eqn:Hret; [done|]. intros Hstep.
  destruct a as [| |i|i|i|i| | |].
  - destruct (walker.toSend s) as [|f rest]; simplify_eq/=.
    rewrite ?Hret, length_app. cbn. lia.
  - destruct (walker.toSend s); [|done].
    destruct (walker.jobsClosed s); simplify_eq/=. rewrite ?Hret. lia.
  - destruct (walker.workers s !! i) as [[]|] eqn:Hw; try done.
    destruct (walker.jobs s) as [|job rest]; simplify_eq/=.
    pose proof (sum_list_insert _ i _ (walker.Working job) Hw) as Hsum.
    cbn in Hsum. rewrite ?Hret. lia.
  - destruct (walker.workers s !! i) as [[|job| |]|] eqn:Hw; try done.
    destruct (hash.HashFile fs _) as [[h|e]|]; simplify_eq/=;
      rewrite ?Hret;
      match goal with
      | |- context [<[i := ?w]> _] =>
          pose proof (sum_list_insert _ i _ w Hw) as Hsum
      end; cbn in Hsum; lia.
  - destruct (walker.workers s !! i) as [[| |r|]|] eqn:Hw; simplify_eq/=.
    pose proof (sum_list_insert _ i _ walker.Waiting Hw) as Hsum.
    cbn in Hsum. rewrite ?Hret, length_app. cbn. lia.
  - destruct (walker.workers s !! i) as [[]|] eqn:Hw; try done.
    destruct (walker.jobs s) as [|job rest] eqn:Hj; [|done].
    destruct (walker.jobsClosed s) eqn:Hc; simplify_eq/=.
    pose proof (sum_list_insert _ i _ walker.Done Hw) as Hsum.
    cbn in Hsum. rewrite ?Hret. lia.
  - destruct (walker.allDone (walker.workers s)); [|done].
    destruct (walker.resultsClosed s); simplify_eq/=. rewrite ?Hret. lia.
  - destruct (walker.results s) as [|r rest]; simplify_eq/=.
    rewrite ?Hret. lia.
  - destruct (walker.results s); [|done].
    destruct (walker.resultsClosed s); simplify_eq/=. lia.
Qed.

(** A run is as long as the potential that it has used. *)
Lemma run_potential fs schedule s s' :
  walker.run fs schedule s = Some s' →
  (potential s = length schedule + potential s')%nat.
Proof.
  revert s. induction schedule as [|a schedule IH]; intros s Hrun;
    cbn in Hrun.
  - by simplify_eq.
  - destruct (walker.step fs a s) as [s1|] eqn:Hstep; [|done].
    apply step_potential in Hstep. apply IH in Hrun.
    cbn [length]. lia.
Qed.

Lemma run_app fs schedule1 schedule2 s :
  walker.run fs (schedule1 ++ schedule2) s =
    walker.run fs schedule1 s ≫= walker.run fs schedule2.
Proof.
  revert s. induction schedule1 as [|a schedule1 IH]; intros s; [done|].
  cbn. destruct (walker.step fs a s); [apply IH|done].
Qed.

Lemma bag_insert (f : walker.Worker → list string) ws i w w' :
  ws !! i = Some w →
  bag (mjoin (map f (<[i := w']> ws))) ⊎ bag (f w)
  = bag (mjoin (map f ws)) ⊎ bag (f w').
Proof.
  unfold bag. revert i.
  induction ws as [|x ws IH]; intros [|i] Hi; simplify_eq/=.
  - rewrite !list_to_set_disj_app. multiset_solver.
  - specialize (IH i Hi). rewrite !list_to_set_disj_app. multiset_solver.
Qed.

Lemma bag_Permutation l k : bag l = bag k → l ≡ₚ k.
Proof.
  unfold bag. revert k. induction l as [|x l IH]; intros k Hk.
  - destruct k as [|y k]; [done|].
    rewrite list_to_set_disj_nil, list_to_set_disj_cons in Hk.
    multiset_solver.
  - assert (x ∈ k) as Hx.
    { apply elem_of_list_to_set_disj.
      rewrite <- Hk, list_to_set_disj_cons. multiset_solver. }
    apply elem_of_Permutation in Hx as [k' Hk'].
    rewrite Hk'. constructor. apply IH.
    rewrite Hk', !list_to_set_disj_cons in Hk. multiset_solver.
Qed.

Lemma allDone_Forall ws :
  walker.allDone ws = true ↔ Forall (λ w, w = walker.Done) ws.
Proof.
  unfold walker.allDone. induction ws as [|w ws IH]; cbn.
  - split; [constructor|done].
  - rewrite Forall_cons, <- IH, andb_true_iff.
    destruct w; split; intros [Hw Hws]; done.
Qed.

Lemma allDone_lookup ws i w :
  walker.allDone ws = true → ws !! i = Some w → w = walker.Done.
Proof.
  rewrite allDone_Forall, Forall_lookup. intros Hall Hi. by apply (Hall i).
Qed.

Lemma not_allDone ws :
  walker.allDone ws = false → ∃ i w, ws !! i = Some w ∧ w ≠ walker.Done.
Proof.
  induction ws as [|w ws IH]; [done|]. cbn. intros Hall.
  destruct w; try (by eexists 0%nat, _).
  destruct (IH Hall) as (i & w & Hi & Hw). by exists (S i), w.
Qed.

Lemma mjoin_nil {A B} (f : A → list B) (l : list A) :
  Forall (λ x, f x = []) l → mjoin (map f l) = [].
Proof.
  induction 1 as [|x l Hx _ IH]; [done|].
  change (mjoin (map f (x :: l))) with (f x ++ mjoin (map f l)).
  by rewrite Hx, IH.
Qed.

Lemma allDone_working ws :
  walker.allDone ws = true → mjoin (map workingOf ws) = [].
Proof.
  rewrite allDone_Forall. intros Hall. apply mjoin_nil.
  eapply Forall_impl; [done|]. by intros w ->.
Qed.

Lemma allDone_unsent ws : walker.allDone ws = true → unsent ws = [].
Proof.
  rewrite allDone_Forall. intros Hall. apply mjoin_nil.
  eapply Forall_impl; [done|]. by intros w ->.
Qed.

Lemma elem_of_insert_inv {A} (l : list A) i x y :
  x ∈ <[i := y]> l → x = y ∨ x ∈ l.
Proof.
  revert i. induction l as [|z l IH]; intros [|i]; cbn; [by right..| |].
  - intros [->|Hx]%elem_of_cons; [by left|]. right. by right.
  - intros [->|Hx]%elem_of_cons; [right; left|].
    destruct (IH i Hx) as [->|Hl]; [by left|]. right. by right.
Qed.

Lemma bag_app l k : bag (l ++ k) = bag l ⊎ bag k.
Proof. apply list_to_set_disj_app. Qed.

Lemma bag_cons x l : bag (x :: l) = {[+ x +]} ⊎ bag l.
Proof. apply list_to_set_disj_cons. Qed.

Lemma bag_nil : bag [] = ∅.
Proof. done. Qed.

Lemma elem_of_bag x l : x ∈ bag l ↔ x ∈ l.
Proof. apply elem_of_list_to_set_disj. Qed.

(** A worker that is not at its end shows that [results] is open. *)
Lemma busy_resultsOpen fs files s collected i w :
  poolInv fs files s collected →
  walker.workers s !! i = Some w → w ≠ walker.Done →
  walker.resultsClosed s = false.
Proof.
  intros Hinv Hi Hw. destruct (walker.resultsClosed s) eqn:Hc; [|done].
  destruct Hw. eapply allDone_lookup; [|done]. by apply (inv_resultsClosed _ _ _ _ Hinv).
Qed.

Ltac bag_solve :=
  lazymatch goal with
  | |- @eq (gmultiset string) _ _ =>
      repeat match goal with
        | H : ?T |- _ =>
            lazymatch T with
            | @eq (gmultiset string) _ _ => fail
            | _ => clear H
            end
        end;
      unfold unsent, bag in *; cbn [map app] in *;
      repeat rewrite ?map_app, ?list_to_set_disj_app, ?list_to_set_disj_cons,
        ?list_to_set_disj_nil in *;
      multiset_solver
  end.

(** A step keeps the invariant. *)
Lemma step_poolInv fs files a s s' collected :
  poolInv fs files s collected →
  walker.step fs a s = Some s' →
  ∃ collected', poolInv fs files s' collected'.
Proof.
  intros Hinv. pose proof Hinv as [H1 H2 H3 H4 H5 H6 H7 H8 H9 H10 H11].
  unfold walker.step. destruct (walker.returned s) eqn:Hret; [done|].
  specialize (H11 eq_refl). clear H10.
  unfold pending, hashed in *. rewrite !bag_app in *.
  destruct a as [| |i|i|i|i| | |]; intros Hstep.
  - (* SendJob *)
    destruct (walker.toSend s) as [|f rest] eqn:Hsend; simplify_eq/=.
    assert (walker.jobsClosed s = false) as Hopen.
    { destruct (walker.jobsClosed s); [|done]. by specialize (H7 eq_refl). }
    exists collected.
    split; unfold pending, hashed; cbn; rewrite ?bag_app, ?map_app; try done;
      try bag_solve.
    + by rewrite Hopen.
    + intros Hd. apply H9 in Hd as [Hd _]. by rewrite Hopen in Hd.
  - (* CloseJobs *)
    destruct (walker.toSend s) eqn:Hsend; [|done].
    destruct (walker.jobsClosed s) eqn:Hc; simplify_eq/=.
    exists collected.
    split; unfold pending, hashed; cbn; rewrite ?bag_app; try done;
      try bag_solve.
    intros Hd. by apply H9 in Hd as [Hd _].
  - (* Receive *)
    destruct (walker.workers s !! i) as [[]|] eqn:Hw; try done.
    destruct (walker.jobs s) as [|job rest] eqn:Hjobs; simplify_eq/=.
    pose proof (busy_resultsOpen _ _ _ _ _ _ Hinv Hw ltac:(done)) as Hopen.
    pose proof (bag_insert workingOf _ i _ (walker.Working job) Hw) as Hb.
    pose proof (bag_insert (λ w, map walker.path (sendingOf w)) _ i _
                  (walker.Working job) Hw) as Hu.
    cbn [workingOf sendingOf map] in Hb, Hu. fold (unsent (walker.workers s)) in Hu.
    exists collected.
    split; unfold pending, hashed; cbn; rewrite ?bag_app, ?length_insert;
      try done;
      try bag_solve.
    + by apply Forall_insert.
    + by rewrite Hopen.
    + intros [Hd|Hd]%elem_of_insert_inv; [done|].
      by apply H9 in Hd as [_ Hd].
  - (* Hash *)
    destruct (walker.workers s !! i) as [[|job| |]|] eqn:Hw; try done.
    pose proof (busy_resultsOpen _ _ _ _ _ _ Hinv Hw ltac:(done)) as Hopen.
    set (p := walker.Path (walker.fileInfo job)) in *.
    assert (∃ r, outcome fs p = Some r ∧ walker.path r = p
                 ∧ s' = walker.mkState (walker.toSend s) (walker.jobs s)
                          (walker.jobsClosed s)
                          (<[i := walker.Sending r]> (walker.workers s))
                          (walker.results s) (walker.resultsClosed s)
                          (walker.result s) false (walker.attempts s ++ [p]))
      as (r & Hr & Hp & ->).
    { unfold outcome.
      destruct (hash.HashFile fs p) as [[h|e]|]; simplify_eq/=;
        by eexists. }
    clear Hstep.
    pose proof (bag_insert workingOf _ i _ (walker.Sending r) Hw) as Hb.
    pose proof (bag_insert (λ w, map walker.path (sendingOf w)) _ i _
                  (walker.Sending r) Hw) as Hu.
    cbn [workingOf sendingOf map] in Hb, Hu. fold p in Hb. rewrite Hp in Hu.
    exists collected.
    split; unfold pending, hashed; cbn; rewrite ?bag_app, ?length_insert;
      try done;
      try bag_solve.
    + apply Forall_insert; [done|]. cbn. apply Forall_singleton.
      unfold faithful. by rewrite Hp.
    + by rewrite Hopen.
    + intros [Hd|Hd]%elem_of_insert_inv; [done|]. by apply H9.
  - (* SendResult *)
    destruct (walker.workers s !! i) as [[| |r|]|] eqn:Hw; simplify_eq/=.
    pose proof (busy_resultsOpen _ _ _ _ _ _ Hinv Hw ltac:(done)) as Hopen.
    pose proof (bag_insert workingOf _ i _ walker.Waiting Hw) as Hb.
    pose proof (bag_insert (λ w, map walker.path (sendingOf w)) _ i _
                  walker.Waiting Hw) as Hu.
    cbn [workingOf sendingOf map] in Hb, Hu.
    exists collected.
    split; unfold pending, hashed; cbn;
      rewrite ?map_app, ?bag_app, ?length_insert; try done;
      try bag_solve.
    + apply Forall_insert; [done|]. constructor.
    + apply Forall_app. split; [done|]. apply Forall_singleton.
      rewrite Forall_lookup in H3. specialize (H3 i _ Hw). cbn in H3.
      by rewrite Forall_singleton in H3.
    + by rewrite Hopen.
    + intros [Hd|Hd]%elem_of_insert_inv; [done|]. by apply H9.
  - (* Exit *)
    destruct (walker.workers s !! i) as [[]|] eqn:Hw; try done.
    destruct (walker.jobs s) as [|job rest] eqn:Hjobs; [|done].
    destruct (walker.jobsClosed s) eqn:Hc; simplify_eq/=.
    pose proof (busy_resultsOpen _ _ _ _ _ _ Hinv Hw ltac:(done)) as Hopen.
    pose proof (bag_insert workingOf _ i _ walker.Done Hw) as Hb.
    pose proof (bag_insert (λ w, map walker.path (sendingOf w)) _ i _
                  walker.Done Hw) as Hu.
    cbn [workingOf sendingOf map] in Hb, Hu.
    exists collected.
    split; unfold pending, hashed; cbn; rewrite ?bag_app, ?length_insert;
      try done;
      try bag_solve.
    + apply Forall_insert; [done|]. constructor.
    + by rewrite Hopen.
  - (* CloseResults *)
    destruct (walker.allDone (walker.workers s)) eqn:Hall; [|done].
    destruct (walker.resultsClosed s) eqn:Hc; simplify_eq/=.
    exists collected.
    split; unfold pending, hashed; cbn; rewrite ?bag_app; try done;
      try bag_solve.
  - (* Collect *)
    destruct (walker.results s) as [|r rest] eqn:Hres; simplify_eq/=.
    apply Forall_cons in H4 as [Hr H4].
    exists (collected ++ [r]).
    split; unfold pending, hashed; cbn; rewrite ?map_app, ?bag_app;
      try done;
      try bag_solve.
    + apply Forall_app. split; [done|]. by apply Forall_singleton.
    + by rewrite fold_left_app, <- H6.
  - (* Return *)
    destruct (walker.results s) eqn:Hres; [|done].
    destruct (walker.resultsClosed s) eqn:Hc; simplify_eq/=.
    specialize (H8 eq_refl).
    assert (walker.Done ∈ walker.workers s) as Hd.
    { destruct (walker.workers s) as [|w ws] eqn:Hws; [cbn in H11; lia|].
      rewrite (allDone_lookup (w :: ws) 0%nat w H8 eq_refl). left. }
    destruct (H9 Hd) as [Hjc Hj].
    exists collected.
    split; unfold pending, hashed; cbn; rewrite ?bag_app; try done;
      try bag_solve.
    intros _. by rewrite H7.
Qed.

Lemma workerCount_pos numWorkers : (0 < walker.workerCount numWorkers)%nat.
Proof.
  unfold walker.workerCount. destruct (numWorkers <=? 0) eqn:Hn; [lia|].
  apply Z.leb_gt in Hn. lia.
Qed.

(** The invariant holds when the goroutines start. *)
Lemma start_poolInv fs files numWorkers :
  poolInv fs files (walker.start files numWorkers) [].
Proof.
  unfold walker.start. destruct (decide (length files = 0%nat)) as [Hz|Hnz].
  - apply length_zero_iff_nil in Hz as ->.
    split; try done; try (by constructor).
    cbn. multiset_solver.
  - assert (∀ f : walker.Worker → list string,
              f walker.Waiting = [] →
              mjoin (map f (replicate (walker.workerCount numWorkers)
                              walker.Waiting)) = []) as Hidle.
    { intros f Hf. apply mjoin_nil, Forall_replicate. done. }
    split; unfold pending, hashed, unsent; cbn [walker.toSend walker.jobs
      walker.jobsClosed walker.workers walker.results walker.resultsClosed
      walker.result walker.returned walker.attempts map];
      rewrite ?Hidle by done; try done.
    + cbn [app]. rewrite !app_nil_r, bag_nil. multiset_solver.
    + apply Forall_replicate. constructor.
    + intros [Hd _]%elem_of_replicate. done.
    + intros _. rewrite length_replicate. apply workerCount_pos.
Qed.

(** The invariant holds along every run. *)
Lemma run_poolInv fs files schedule s s' collected :
  poolInv fs files s collected →
  walker.run fs schedule s = Some s' →
  ∃ collected', poolInv fs files s' collected'.
Proof.
  revert s collected.
  induction schedule as [|a schedule IH]; intros s collected Hinv Hrun;
    cbn in Hrun.
  - simplify_eq. by exists collected.
  - destruct (walker.step fs a s) as [s1|] eqn:Hstep; [|done].
    destruct (step_poolInv _ _ _ _ _ _ Hinv Hstep) as [collected1 Hinv1].
    by apply (IH s1 collected1).
Qed.

(** While [HashFiles] has not returned, one of its goroutines can take a
    step, when every file of the batch can be read to its end or to an
    error. *)
Lemma poolInv_progress fs files s collected :
  (∀ f, f ∈ files → is_Some (hash.HashFile fs (walker.Path f))) →
  poolInv fs files s collected →
  walker.returned s = false →
  ∃ a s', walker.step fs a s = Some s'.
Proof.
  intros Htotal Hinv Hret. unfold walker.step. rewrite Hret.
  destruct (walker.toSend s) as [|f rest] eqn:Hsend;
    [|by eexists walker.SendJob, _].
  destruct (walker.jobsClosed s) eqn:Hjc;
    [|by eexists walker.CloseJobs, _].
  destruct (walker.results s) as [|r rest] eqn:Hres;
    [|by eexists walker.Collect, _].
  destruct (walker.resultsClosed s) eqn:Hrc;
    [by eexists walker.Return, _|].
  destruct (walker.allDone (walker.workers s)) eqn:Hall;
    [by eexists walker.CloseResults, _|].
  destruct (not_allDone _ Hall) as (i & w & Hi & Hw).
  destruct w as [|job|r|]; [| | |done].
  - destruct (walker.jobs s) as [|job rest] eqn:Hjobs.
    + eexists (walker.Exit i), _. cbv beta iota. by rewrite Hi.
    + eexists (walker.Receive i), _. cbv beta iota. by rewrite Hi.
  - assert (walker.Path (walker.fileInfo job) ∈ map walker.Path files)
      as Hin.
    { apply elem_of_bag.
      rewrite <- (inv_paths _ _ _ _ Hinv). unfold pending.
      rewrite !bag_app. apply gmultiset_elem_of_disj_union. left.
      apply gmultiset_elem_of_disj_union. right.
      apply gmultiset_elem_of_disj_union. right.
      apply elem_of_bag, list_elem_of_join.
      exists (workingOf (walker.Working job)). split; [left|].
      apply list_elem_of_In, in_map, list_elem_of_In.
      by eapply list_elem_of_lookup_2. }
    apply list_elem_of_In, in_map_iff in Hin as (f & Hf & Hin).
    apply list_elem_of_In, Htotal in Hin as [res Hres']. rewrite Hf in Hres'.
    destruct res as [h|e]; eexists (walker.Hash i), _; cbv beta iota zeta;
      by rewrite Hi, Hres'.
  - eexists (walker.SendResult i), _. cbv beta iota. by rewrite Hi.
Qed.

Lemma outcome_path fs p r : outcome fs p = Some r → walker.path r = p.
Proof.
  unfold outcome. destruct (hash.HashFile fs p) as [[h|e]|]; intros Hr;
    by simplify_eq.
Qed.

Lemma outcomes_faithful fs files : Forall (faithful fs) (outcomes fs files).
Proof.
  unfold outcomes. apply Forall_forall. intros r Hr.
  apply list_elem_of_omap in Hr as (f & _ & Hf). unfold faithful.
  by rewrite (outcome_path _ _ _ Hf).
Qed.

Lemma outcomes_paths fs files p :
  p ∈ map walker.path (outcomes fs files) → p ∈ map walker.Path files.
Proof.
  intros Hp. apply list_elem_of_In, in_map_iff in Hp as (r & <- & Hr).
  apply list_elem_of_In, list_elem_of_omap in Hr as (f & Hf & Hr).
  rewrite (outcome_path _ _ _ Hr). by apply list_elem_of_In, in_map, list_elem_of_In.
Qed.

Lemma outcomes_NoDup fs files :
  NoDup (map walker.Path files) →
  NoDup (map walker.path (outcomes fs files)).
Proof.
  induction files as [|f files IH]; [constructor|].
  intros [Hf Hnd]%NoDup_cons. unfold outcomes. cbn [omap list_omap].
  fold (omap (λ f, outcome fs (walker.Path f)) files).
  fold (outcomes fs files).
  destruct (outcome fs (walker.Path f)) as [r|] eqn:Hr; [|by apply IH].
  cbn [map]. apply NoDup_cons. split; [|by apply IH].
  rewrite (outcome_path _ _ _ Hr). intros Hin. by apply outcomes_paths in Hin.
Qed.

Lemma faithful_omap fs cs :
  Forall (faithful fs) cs → omap (outcome fs) (map walker.path cs) = cs.
Proof.
  induction 1 as [|r cs Hr _ IH]; [done|].
  cbn [map omap list_omap]. unfold faithful in Hr. rewrite Hr.
  f_equal. apply IH.
Qed.

Lemma outcomes_omap fs files :
  outcomes fs files = omap (outcome fs) (map walker.Path files).
Proof.
  unfold outcomes. induction files as [|f files IH]; [done|].
  cbn [map omap list_omap]. destruct (outcome fs (walker.Path f));
    [f_equal|]; apply IH.
Qed.

(** Results that are faithful and have the paths of the batch are the
    outcomes of the batch, in some order. *)
Lemma faithful_outcomes fs files cs :
  Forall (faithful fs) cs →
  map walker.path cs ≡ₚ map walker.Path files →
  cs ≡ₚ outcomes fs files.
Proof.
  intros Hcs Hperm.
  rewrite outcomes_omap, <- (faithful_omap fs cs Hcs) at 1.
  by apply omap_Permutation.
Qed.

Lemma okOf_paths cs p :
  p ∈ (omap okOf cs).*1 → p ∈ map walker.path cs.
Proof.
  intros Hp. apply list_elem_of_fmap in Hp as ([q h] & -> & Hq).
  apply list_elem_of_omap in Hq as (r & Hr & Hq). unfold okOf in Hq.
  destruct (walker.err r); simplify_eq/=.
  by apply list_elem_of_In, in_map, list_elem_of_In.
Qed.

Lemma okOf_NoDup cs :
  NoDup (map walker.path cs) → NoDup (omap okOf cs).*1.
Proof.
  induction cs as [|r cs IH]; [constructor|].
  intros [Hr Hnd]%NoDup_cons. cbn [omap list_omap].
  fold (omap okOf cs). unfold okOf at 1.
  destruct (walker.err r); [by apply IH|].
  cbn [fmap list_fmap fst]. apply NoDup_cons. split; [|by apply IH].
  intros Hin. by apply okOf_paths in Hin.
Qed.

(** What the collecting loop makes of the results that it receives. *)
Lemma fold_collect cs :
  NoDup (map walker.path cs) →
  walker.Hashes (fold_left walker.collect cs emptyResult)
  = list_to_map (omap okOf cs)
  ∧ walker.Errors (fold_left walker.collect cs emptyResult) = omap errOf cs.
Proof.
  induction cs as [|r cs IH] using rev_ind; [done|].
  rewrite map_app. intros Hnd. apply NoDup_app in Hnd as (Hnd & Hr & _).
  destruct (IH Hnd) as [IH1 IH2].
  rewrite fold_left_app, !omap_app. cbn [fold_left omap list_omap].
  revert IH1 IH2.
  generalize (fold_left walker.collect cs emptyResult). intros acc IH1 IH2.
  unfold walker.collect, okOf at 2, errOf at 2.
  destruct (walker.err r) as [e|]; cbn [walker.Hashes walker.Errors].
  - by rewrite app_nil_r, IH1, IH2.
  - rewrite app_nil_r, IH1, IH2. split; [|done].
    rewrite list_to_map_snoc; [done|]. intros Hin%okOf_paths.
    apply (Hr (walker.path r)); [done|]. left.
Qed.

Lemma okOf_errOf_length cs :
  (length (omap okOf cs) + length (omap errOf cs) = length cs)%nat.
Proof.
  induction cs as [|r cs IH]; [done|]. cbn [omap list_omap length].
  fold (omap okOf cs). fold (omap errOf cs). unfold okOf at 1, errOf at 1.
  destruct (walker.err r); cbn [length]; lia.
Qed.

(** A file that is hashed is in the map of the batch. *)
Lemma hashesOf_Ok fs files f h :
  NoDup (map walker.Path files) → f ∈ files →
  hash.HashFile fs (walker.Path f) = Some (Ok h) →
  hashesOf fs files !! walker.Path f = Some h.
Proof.
  intros Hnd Hf Hh. unfold hashesOf. apply elem_of_list_to_map_1.
  - by apply okOf_NoDup, outcomes_NoDup.
  - apply list_elem_of_omap.
    exists (walker.mkHashJobResult (walker.Path f) h None). split; [|done].
    apply list_elem_of_omap. exists f. split; [done|].
    unfold outcome. by rewrite Hh.
Qed.

(** A file that fails is not in the map, and its error is in the list. *)
Lemma hashesOf_Err fs files f e :
  f ∈ files →
  hash.HashFile fs (walker.Path f) = Some (Err e) →
  hashesOf fs files !! walker.Path f = None
  ∧ walker.Path f +:+ ": " +:+ e ∈ errorsOf fs files.
Proof.
  intros Hf He. split.
  - unfold hashesOf. apply not_elem_of_list_to_map_1. intros Hin.
    apply list_elem_of_fmap in Hin as ([q h] & Hq & Hin). cbn in Hq.
    apply list_elem_of_omap in Hin as (r & Hr & Hok).
    pose proof (outcomes_faithful fs files) as Hall.
    rewrite Forall_forall in Hall. specialize (Hall r Hr).
    unfold okOf in Hok. destruct (walker.err r) eqn:Herr; [done|].
    injection Hok as <- <-.
    unfold faithful, outcome in Hall. rewrite <- Hq, He in Hall.
    injection Hall as <-. done.
  - unfold errorsOf. apply list_elem_of_omap.
    exists (walker.mkHashJobResult (walker.Path f) "" (Some e)).
    split; [|done]. apply list_elem_of_omap. exists f. split; [done|].
    unfold outcome. by rewrite He.
Qed.

(** An entry of the map is the hash of a file of the batch. *)
Lemma hashesOf_lookup fs files p h :
  hashesOf fs files !! p = Some h →
  p ∈ map walker.Path files ∧ hash.HashFile fs p = Some (Ok h).
Proof.
  unfold hashesOf. intros Hin%elem_of_list_to_map_2.
  apply list_elem_of_omap in Hin as (r & Hr & Hok).
  pose proof (outcomes_faithful fs files) as Hall.
  rewrite Forall_forall in Hall. specialize (Hall r Hr).
  unfold okOf in Hok. destruct (walker.err r) eqn:Herr; [done|].
  injection Hok as <- <-. split.
  - apply outcomes_paths with fs.
    by apply list_elem_of_In, in_map, list_elem_of_In.
  - unfold faithful, outcome in Hall.
    destruct (hash.HashFile fs (walker.path r)) as [[h|e]|]; [| |done];
      injection Hall as Hall.
    + by rewrite <- Hall.
    + by rewrite <- Hall in Herr.
Qed.

Lemma outcomes_length fs files :
  (length (outcomes fs files) ≤ length files)%nat.
Proof.
  unfold outcomes. induction files as [|f files IH]; [done|].
  cbn [omap list_omap length]. fold (omap (λ f, outcome fs (walker.Path f)) files).
  destruct (outcome fs (walker.Path f)); cbn [length]; lia.
Qed.

(** When no outcome is missing, every file of the batch was read to its
    end or to an error. *)
Lemma outcomes_total fs files f :
  length (outcomes fs files) = length files →
  f ∈ files → is_Some (hash.HashFile fs (walker.Path f)).
Proof.
  induction files as [|f' files IH]; intros Hlen Hf;
    [by apply elem_of_nil in Hf|].
  pose proof (outcomes_length fs files) as Hle.
  revert Hlen. unfold outcomes. cbn [omap list_omap length].
  fold (omap (λ f, outcome fs (walker.Path f)) files).
  fold (outcomes fs files).
  destruct (outcome fs (walker.Path f')) as [r|] eqn:Hr; cbn [length];
    [|lia].
  intros Hlen. apply elem_of_cons in Hf as [->|Hf]; [|apply IH; [lia|done]].
  unfold outcome in Hr.
  by destruct (hash.HashFile fs (walker.Path f')) as [res|].
Qed.

(** When [HashFiles] has returned, its caller has received the outcome of
    every file of the batch, and every file was hashed once. *)
Lemma poolInv_returned fs files s collected :
  poolInv fs files s collected →
  walker.returned s = true →
  collected ≡ₚ outcomes fs files
  ∧ walker.attempts s ≡ₚ map walker.Path files
  ∧ length collected = length files.
Proof.
  intros Hinv Hret.
  destruct (inv_returned _ _ _ _ Hinv Hret) as (Hsend & Hjobs & Hres & Hall).
  pose proof (inv_paths _ _ _ _ Hinv) as H1.
  pose proof (inv_attempts _ _ _ _ Hinv) as H2.
  unfold pending, hashed in H1, H2.
  rewrite Hsend, Hjobs, Hres, allDone_working, allDone_unsent in * by done.
  cbn [map app] in H1, H2. rewrite bag_nil in H1.
  assert (bag (map walker.path collected) = bag (map walker.Path files))
    as H1' by (rewrite <- H1; multiset_solver).
  apply bag_Permutation in H1'. split; [|split].
  - by apply faithful_outcomes; [apply (inv_collected _ _ _ _ Hinv)|].
  - apply bag_Permutation. rewrite H2, <- H1. multiset_solver.
  - by rewrite <- (length_map walker.path collected), H1', length_map.
Qed.

(** The outputs of a run that has returned. *)
Lemma poolInv_result fs files s collected :
  NoDup (map walker.Path files) →
  poolInv fs files s collected →
  walker.returned s = true →
  walker.Hashes (walker.result s) = hashesOf fs files
  ∧ walker.Errors (walker.result s) ≡ₚ errorsOf fs files
  ∧ walker.attempts s ≡ₚ map walker.Path files
  ∧ (size (walker.Hashes (walker.result s))
     + length (walker.Errors (walker.result s)) = length files)%nat.
Proof.
  intros Hnd Hinv Hret.
  destruct (poolInv_returned _ _ _ _ Hinv Hret) as (Hc & Ha & Hlen).
  assert (NoDup (map walker.path collected)) as Hndc.
  { rewrite Hc. by apply outcomes_NoDup. }
  destruct (fold_collect collected Hndc) as [Hh He].
  rewrite (inv_result _ _ _ _ Hinv), Hh, He.
  split; [|split; [|split]].
  - unfold hashesOf. apply list_to_map_proper; [by apply okOf_NoDup|].
    by apply omap_Permutation.
  - unfold errorsOf. by apply omap_Permutation.
  - done.
  - rewrite map_size_list_to_map by (by apply okOf_NoDup).
    by rewrite okOf_errOf_length.
Qed.

(** From every state of a run, some schedule runs [HashFiles] to its
    return. *)
Lemma poolInv_returns fs files n s collected :
  (∀ f, f ∈ files → is_Some (hash.HashFile fs (walker.Path f))) →
  poolInv fs files s collected →
  (potential s ≤ n)%nat →
  ∃ schedule s',
    walker.run fs schedule s = Some s' ∧ walker.returned s' = true.
Proof.
  intros Htotal. revert s collected.
  induction n as [|n IH]; intros s collected Hinv Hn.
  - destruct (walker.returned s) eqn:Hret; [by exists [], s|].
    unfold potential in Hn. rewrite Hret in Hn. lia.
  - destruct (walker.returned s) eqn:Hret; [by exists [], s|].
    destruct (poolInv_progress _ _ _ _ Htotal Hinv Hret) as (a & s1 & Hstep).
    destruct (step_poolInv _ _ _ _ _ _ Hinv Hstep) as [collected1 Hinv1].
    pose proof (step_potential _ _ _ _ Hstep) as Hpot.
    destruct (IH s1 collected1 Hinv1 ltac:(lia)) as (schedule & s' & Hrun & Hr).
    exists (a :: schedule), s'. cbn [walker.run]. by rewrite Hstep.
Qed.

Lemma potential_start files numWorkers :
  (potential (walker.start files numWorkers)
   ≤ 5 * length files + walker.workerCount numWorkers + 3)%nat.
Proof.
  unfold walker.start, potential.
  destruct (decide (length files = 0%nat)); cbn; [lia|].
  assert (sum_list (map workerSteps
                      (replicate (walker.workerCount numWorkers)
                         walker.Waiting))
          = walker.workerCount numWorkers) as ->; [|lia].
  induction (walker.workerCount numWorkers) as [|k IH]; cbn; [done|].
  by rewrite IH.
Qed.

(** C5: for files of distinct paths and for every worker count, however
    the goroutines of [HashFiles] are scheduled: a run takes at most
    5 * len(files) + workers + 3 steps; when [HashFiles] returns,
    [hash.HashFile] was called once for each file, the map holds exactly
    the files whose hashing succeeded, each with its hash, and the error
    list exactly one error, tagged with the path, for each file whose
    hashing failed, so that every file is in one of the two; the map and,
    as a multiset, the errors are the same for every worker count and every
    schedule; a count of zero or less starts one worker.  When every file
    can be read to its end or to an error, [HashFiles] is never stuck
    before its return, and some schedule runs it to its return. *)
Theorem HashFiles_pipeline (fs : os.FileSystem)
    (files : list walker.FileInfo) :
  NoDup (map walker.Path files) →
  (∀ numWorkers schedule s,
     walker.run fs schedule (walker.start files numWorkers) = Some s →
     (length schedule
      ≤ 5 * length files + walker.workerCount numWorkers + 3)%nat
     ∧ (walker.returned s = true →
        walker.attempts s ≡ₚ map walker.Path files
        ∧ walker.Hashes (walker.result s) = hashesOf fs files
        ∧ walker.Errors (walker.result s) ≡ₚ errorsOf fs files))
  ∧ (∀ numWorkers schedule r,
       walker.HashFiles fs files numWorkers schedule = Some r →
       (size (walker.Hashes r) + length (walker.Errors r)
        = length files)%nat
       ∧ (∀ p h, walker.Hashes r !! p = Some h →
            p ∈ map walker.Path files
            ∧ hash.HashFile fs p = Some (Ok h))
       ∧ (∀ f, f ∈ files →
            match hash.HashFile fs (walker.Path f) with
            | Some (Ok h) => walker.Hashes r !! walker.Path f = Some h
            | Some (Err e) =>
                walker.Hashes r !! walker.Path f = None
                ∧ walker.Path f +:+ ": " +:+ e ∈ walker.Errors r
            | None => False
            end))
  ∧ (∀ numWorkers1 numWorkers2 schedule1 schedule2 r1 r2,
       walker.HashFiles fs files numWorkers1 schedule1 = Some r1 →
       walker.HashFiles fs files numWorkers2 schedule2 = Some r2 →
       walker.Hashes r1 = walker.Hashes r2
       ∧ walker.Errors r1 ≡ₚ walker.Errors r2)
  ∧ (∀ numWorkers, numWorkers ≤ 0 →
       walker.start files numWorkers = walker.start files 1)
  ∧ ((∀ f, f ∈ files → is_Some (hash.HashFile fs (walker.Path f))) →
     (∀ numWorkers schedule s,
        walker.run fs schedule (walker.start files numWorkers) = Some s →
        walker.returned s = false → ∃ a s', walker.step fs a s = Some s')
     ∧ (∀ numWorkers,
          ∃ schedule r,
            walker.HashFiles fs files numWorkers schedule = Some r)).
Proof.
  intros Hnd.
  assert (∀ numWorkers schedule r,
            walker.HashFiles fs files numWorkers schedule = Some r →
            walker.Hashes r = hashesOf fs files
            ∧ walker.Errors r ≡ₚ errorsOf fs files
            ∧ (size (walker.Hashes r) + length (walker.Errors r)
               = length files)%nat
            ∧ ∀ f, f ∈ files →
                is_Some (hash.HashFile fs (walker.Path f))) as Hres.
  { intros numWorkers schedule r. unfold walker.HashFiles.
    destruct (walker.run fs schedule _) as [s|] eqn:Hrun; [|done].
    destruct (walker.returned s) eqn:Hret; [|done]. intros [= <-].
    destruct (run_poolInv _ _ _ _ _ _ (start_poolInv fs files numWorkers)
                Hrun) as [collected Hinv].
    destruct (poolInv_result _ _ _ _ Hnd Hinv Hret) as (Hh & He & _ & Hn).
    destruct (poolInv_returned _ _ _ _ Hinv Hret) as (Hc & _ & Hlen).
    repeat (split; [done|]). intros f. apply outcomes_total.
    by rewrite <- Hc. }
  split; [|split; [|split; [|split]]].
  - intros numWorkers schedule s Hrun.
    destruct (run_poolInv _ _ _ _ _ _ (start_poolInv fs files numWorkers)
                Hrun) as [collected Hinv].
    split.
    + pose proof (run_potential _ _ _ _ Hrun) as Hpot.
      pose proof (potential_start files numWorkers). lia.
    + intros Hret.
      destruct (poolInv_result _ _ _ _ Hnd Hinv Hret) as (Hh & He & Ha & _).
      done.
  - intros numWorkers schedule r Hr.
    destruct (Hres _ _ _ Hr) as (Hh & He & Hn & Htotal).
    split; [done|]. split.
    + intros p h. rewrite Hh. apply hashesOf_lookup.
    + intros f Hf. destruct (Htotal f Hf) as [[h|e] Hf']; rewrite Hf'.
      * rewrite Hh. by apply hashesOf_Ok.
      * rewrite Hh, He. by apply hashesOf_Err.
  - intros numWorkers1 numWorkers2 schedule1 schedule2 r1 r2 Hr1 Hr2.
    destruct (Hres _ _ _ Hr1) as (Hh1 & He1 & _).
    destruct (Hres _ _ _ Hr2) as (Hh2 & He2 & _).
    by rewrite Hh1, Hh2, He1, He2.
  - intros numWorkers Hle. unfold walker.start, walker.workerCount.
    by rewrite (proj2 (Z.leb_le numWorkers 0) Hle).
  - intros Htotal. split.
    + intros numWorkers schedule s Hrun.
      destruct (run_poolInv _ _ _ _ _ _ (start_poolInv fs files numWorkers)
                  Hrun) as [collected Hinv].
      by apply (poolInv_progress _ _ _ _ Htotal Hinv).
    + intros numWorkers.
      destruct (poolInv_returns fs files _ _ _ Htotal
                  (start_poolInv fs files numWorkers) (Nat.le_refl _))
        as (schedule & s & Hrun & Hret).
      exists schedule, (walker.result s). unfold walker.HashFiles.
      by rewrite Hrun, Hret.
Qed.

(** * The shape of the tree that [Build] returns *)

Lemma leafNode_leafOf files rootPath p fd :
  files !! p = Some fd →
  leafOf rootPath p fd (leafNode files (filepath.Clean rootPath) p).
Proof.
  intros Hp. unfold leafOf, leafNode, lookupFile. rewrite Hp. done.
Qed.

(** X1: in the tree that [Build] returns for a mapping that is not empty,
    every node is either the leaf of an entry of the mapping or an inner
    node with two children whose hash is the digest of the hashes of the
    children. *)
Theorem Build_nodes
    (files : gmap string FileData) (rootPath : string)
    (order1 order2 : list string) :
  IterOrder files order1 →
  size files ≠ 0%nat →
  ∃ t root,
    Build files rootPath order1 order2 = Some (Ok t)
    ∧ Root t = Some root
    ∧ ∀ n, n ∈ subnodes root →
        innerNode n
        ∨ ∃ p fd, files !! p = Some fd ∧ leafOf rootPath p fd n.
Proof.
  intros Ho Hnz.
  destruct (Build_root_Forall
              (λ n, innerNode n
                    ∨ ∃ p fd, files !! p = Some fd ∧ leafOf rootPath p fd n)
              files rootPath order1 order2 Ho Hnz)
    as (t & root & HB & Hroot & _ & _ & _ & _ & Hall).
  - intros l r. left. by exists l, r.
  - intros p fd Hp. right. exists p, fd. split; [done|].
    by apply leafNode_leafOf.
  - exists t, root. split; [done|]. split; [done|].
    by apply Forall_forall.
Qed.

(** X2: [Build] drops no file: each entry of the mapping is a leaf of the
    tree, with the hash, size and time of the entry. *)
Theorem Build_keeps_files
    (files : gmap string FileData) (rootPath : string)
    (order1 order2 : list string) (p : string) (fd : FileData) :
  IterOrder files order1 →
  files !! p = Some fd →
  ∃ t root n,
    Build files rootPath order1 order2 = Some (Ok t)
    ∧ Root t = Some root
    ∧ n ∈ subnodes root ∧ leafOf rootPath p fd n.
Proof.
  intros Ho Hp.
  assert (size files ≠ 0%nat) as Hnz.
  { intros Hz. apply map_size_empty_inv in Hz. subst. done. }
  destruct (Build_root_Forall (λ _, True) files rootPath order1 order2
              Ho Hnz) as (t & root & HB & Hroot & _ & _ & _ & Hred & _);
    [done..|].
  assert (leafNode files (filepath.Clean rootPath) p
          ∈ map (leafNode files (filepath.Clean rootPath))
              (sort.Strings order1)) as Hin.
  { apply list_elem_of_In, in_map, list_elem_of_In.
    apply sort_Strings_elem_of.
    by apply (IterOrder_lookup files order1 p Ho). }
  destruct (elem_of_reduce_root (length order1) _ _ Hin) as (r & Hr & Hsub).
  rewrite Hred in Hr. apply list_elem_of_singleton in Hr as ->.
  exists t, root, (leafNode files (filepath.Clean rootPath) p).
  split; [done|]. split; [done|]. split; [done|].
  by apply leafNode_leafOf.
Qed.

Lemma IterOrder_singleton {V} (p : string) (v : V) order :
  IterOrder ({[p := v]} : gmap string V) order → order = [p].
Proof.
  unfold IterOrder. rewrite map_to_list_singleton. cbn.
  intros Hp. by apply Permutation_singleton_r.
Qed.

Lemma sort_Strings_singleton p : sort.Strings [p] = [p].
Proof.
  apply Permutation_singleton_r. unfold sort.Strings.
  by rewrite merge_sort_Permutation.
Qed.

(** X3: for a mapping of one file [Build] hashes nothing: the root is the
    leaf of the file, and the root hash is the content hash of the file as
    it stands in the mapping. *)
Theorem Build_single_file
    (p : string) (fd : FileData) (rootPath : string)
    (order1 order2 : list string) :
  IterOrder ({[p := fd]} : gmap string FileData) order1 →
  IterOrder ({[p := fd]} : gmap string FileData) order2 →
  Build {[p := fd]} rootPath order1 order2 =
    Some (Ok {| Root := Some {| NodeHash := Hash fd;
                               Left := None; Right := None;
                               Path := relativePath (filepath.Clean rootPath) p;
                               NodeSize := Size fd;
                               MTime := time.sec (ModTime fd) |};
                RootPath := rootPath;
                TotalSize := wrap_i64 (Size fd);
                Files := {[p := fd]} |}).
Proof.
  intros ->%IterOrder_singleton ->%IterOrder_singleton.
  rewrite Build_nonempty by (by rewrite map_size_singleton).
  cbv zeta. rewrite sort_Strings_singleton.
  cbn [map length reduce Nat.ltb Nat.leb head].
  unfold leafNode, lookupFile. rewrite lookup_singleton_eq.
  cbn [default from_option id]. unfold sumSizes, lookupFile.
  cbn [fold_left]. rewrite lookup_singleton_eq. done.
Qed.

Lemma digest_format data :
  lowerHex (digest data) ∧ String.length (digest data) = 16%nat.
Proof.
  unfold digest. split; [apply EncodeToString_lower|].
  by rewrite EncodeToString_length.
Qed.

Lemma pairs_parents level :
  Forall (λ n, ∃ l r, n = parentOf l r) (pairs level).
Proof.
  induction level as [level IH] using (induction_ltof1 _ (@length Node)).
  destruct level as [|l [|r rest]]; cbn [pairs].
  - constructor.
  - apply Forall_singleton. by exists l, l.
  - apply Forall_cons. split; [by exists l, r|].
    apply IH. unfold ltof. simpl. lia.
Qed.

Lemma reduce_parents fuel level :
  Forall (λ n, ∃ l r, n = parentOf l r) level →
  Forall (λ n, ∃ l r, n = parentOf l r) (reduce fuel level).
Proof.
  revert level. induction fuel as [|fuel IH]; intros level Hall;
    cbn [reduce]; destruct (1 <? length level)%nat; try done.
  apply IH, pairs_parents.
Qed.

(** The root of two leaves or more is a parent. *)
Lemma reduce_root_parent fuel level root :
  (1 < length level)%nat → (length level ≤ S fuel)%nat →
  reduce fuel level = [root] → ∃ l r, root = parentOf l r.
Proof.
  intros Hlen Hfuel Hred. destruct fuel as [|fuel]; [lia|].
  cbn [reduce] in Hred.
  assert ((1 <? length level)%nat = true) as Hlt by (by apply Nat.ltb_lt).
  rewrite Hlt in Hred.
  pose proof (reduce_parents fuel (pairs level) (pairs_parents level))
    as Hall.
  rewrite Hred in Hall. by rewrite Forall_singleton in Hall.
Qed.

(** X4: the root hash of a tree built from two files or more, or from
    none, is a digest of [XXHashFunc]: sixteen lowercase hexadecimal
    digits, whatever the content hashes of the mapping are. *)
Theorem Build_root_hash_format
    (files : gmap string FileData) (rootPath : string)
    (order1 order2 : list string) :
  IterOrder files order1 →
  size files ≠ 1%nat →
  ∃ t h,
    Build files rootPath order1 order2 = Some (Ok t)
    ∧ rootHash t = Some h
    ∧ lowerHex h ∧ String.length h = 16%nat.
Proof.
  intros Ho Hone.
  destruct (decide (size files = 0%nat)) as [Hz|Hnz].
  - apply map_size_empty_inv in Hz as ->. rewrite Build_empty.
    eexists _, _. split; [done|]. split; [done|]. cbn [NodeHash].
    assert (digest (list_byte_of_string "empty-tree") = "ec229c7e99d32baa")
      as <- by (vm_compute; reflexivity).
    apply digest_format.
  - destruct (Build_root_Forall (λ _, True) files rootPath order1 order2
                Ho Hnz) as (t & root & HB & Hroot & _ & _ & _ & Hred & _);
      [done..|].
    apply reduce_root_parent in Hred as (l & r & ->).
    + exists t, (H (NodeHash l) (NodeHash r)). split; [done|].
      unfold rootHash. rewrite Hroot. split; [done|].
      apply digest_format.
    + rewrite length_map, sort_Strings_length, (IterOrder_size files) by done.
      lia.
    + rewrite length_map, sort_Strings_length. lia.
Qed.

Lemma hpairs_sameBytes hs hs' :
  Forall2 sameBytes hs hs' → hpairs hs = hpairs hs'.
Proof.
  revert hs'.
  induction hs as [hs IH] using (induction_ltof1 _ (@length string)).
  intros hs' Hall. destruct Hall as [|a a' ? ? Ha Hall]; [done|].
  destruct Hall as [|b b' hs hs' Hb Hall]; cbn [hpairs].
  - unfold H, sameBytes in *. by rewrite Ha.
  - unfold sameBytes in Ha, Hb. f_equal.
    + unfold H. by rewrite Ha, Hb.
    + apply IH; [unfold ltof; simpl; lia|done].
Qed.

(** X5: [Build] drops the errors of [hex.DecodeString], so that beyond the
    bytes that can be decoded a content hash plays no part: two mappings of
    two files or more with the same paths, whose hashes decode to the same
    bytes, have the same root hash. *)
Theorem Build_decoded_hashes
    (files files' : gmap string FileData) (rootPath rootPath' : string)
    (order1 order2 order1' order2' : list string) :
  IterOrder files order1 → IterOrder files' order1' →
  (1 < size files)%nat →
  dom files = dom files' →
  (∀ p fd fd', files !! p = Some fd → files' !! p = Some fd' →
               sameBytes (Hash fd) (Hash fd')) →
  ∃ t t' h,
    Build files rootPath order1 order2 = Some (Ok t)
    ∧ Build files' rootPath' order1' order2' = Some (Ok t')
    ∧ rootHash t = Some h ∧ rootHash t' = Some h.
Proof.
  intros Ho Ho' Hsize Hdom Hsame.
  assert (size files' = size files) as Hsize'.
  { by rewrite <- !size_dom, Hdom. }
  destruct (rootHash_Build files rootPath order1 order2) as (t & HB & Hr & _);
    [lia|].
  destruct (rootHash_Build files' rootPath' order1' order2')
    as (t' & HB' & Hr' & _); [lia|].
  assert (order1 ≡ₚ order1') as Hperm.
  { apply NoDup_Permutation; [by eapply IterOrder_NoDup..|].
    intros p. rewrite (IterOrder_lookup files order1 p Ho),
      (IterOrder_lookup files' order1' p Ho').
    by rewrite <- !elem_of_dom, Hdom. }
  assert (length order1' = length order1) as Hlen by (by rewrite Hperm).
  rewrite <- (sort_Strings_unique _ _ Hperm), Hlen in Hr'.
  assert (length order1 = size files) as Hl by (by apply IterOrder_size).
  destruct (length order1) as [|k] eqn:Hk; [lia|].
  assert (∀ hs : list string, (1 < length hs)%nat →
            hreduce (S k) hs = hreduce k (hpairs hs)) as Hstep.
  { intros hs Hhs. cbn [hreduce].
    by rewrite (proj2 (Nat.ltb_lt 1 (length hs)) Hhs). }
  assert (length (sort.Strings order1) = S k) as Hsl
    by (by rewrite sort_Strings_length).
  rewrite Hstep in Hr, Hr'
    by (unfold leafHashes; rewrite length_map, Hsl; lia).
  assert (hpairs (leafHashes files (sort.Strings order1))
          = hpairs (leafHashes files' (sort.Strings order1))) as Heq.
  { apply hpairs_sameBytes. unfold leafHashes.
    apply Forall2_fmap, Forall_Forall2_diag, Forall_forall.
    intros p Hp. rewrite sort_Strings_elem_of in Hp.
    pose proof (proj1 (IterOrder_lookup files order1 p Ho) Hp) as [fd Hfd].
    assert (is_Some (files' !! p)) as [fd' Hfd'].
    { apply elem_of_dom. rewrite <- Hdom. apply elem_of_dom. by exists fd. }
    unfold lookupFile. rewrite Hfd, Hfd'. cbn. by eapply Hsame. }
  rewrite <- Heq in Hr'.
  destruct (head (hreduce k (hpairs (leafHashes files (sort.Strings order1)))))
    as [h|] eqn:Hh.
  - by exists t, t', h.
  - exfalso. unfold rootHash in Hr.
    destruct (Build_root_Forall (λ _, True) files rootPath order1 order2 Ho)
      as (t0 & root & HB0 & Hroot & _); [lia|done..|].
    rewrite HB in HB0. injection HB0 as <-. by rewrite Hroot in Hr.
Qed.

(** * Further properties of [Save] and [Load] *)

Lemma levelSum_pairs_even level :
  Nat.odd (length level) = false →
  sum_with walkSum (pairs level) = sum_with walkSum level.
Proof.
  induction level as [level IH] using (induction_ltof1 _ (@length Node)).
  destruct level as [|l [|r rest]]; intros Hodd; [done..|].
  cbn [pairs sum_with]. rewrite walkSum_parentOf, IH; [lia| |].
  - unfold ltof. simpl. lia.
  - cbn [length] in Hodd. by rewrite Nat.odd_succ, Nat.even_succ in Hodd.
Qed.

Lemma levelSum_reduce_even fuel level :
  oddLevel fuel (length level) = false →
  sum_with walkSum (reduce fuel level) = sum_with walkSum level.
Proof.
  revert level. induction fuel as [|fuel IH]; intros level;
    cbn [reduce oddLevel]; destruct (1 <? length level)%nat; try done.
  intros [Hodd Hrest]%orb_false_iff.
  rewrite IH by (by rewrite length_pairs). by apply levelSum_pairs_even.
Qed.

Lemma oddLevel_pow2 fuel k : oddLevel fuel (2 ^ k) = false.
Proof.
  revert fuel. induction k as [|k IH]; intros fuel.
  - by destruct fuel.
  - destruct fuel as [|fuel]; cbn [oddLevel];
      destruct (1 <? 2 ^ S k)%nat; try done.
    rewrite Nat.pow_succ_r', Nat.odd_mul. cbn [Nat.odd Nat.even andb orb].
    replace ((2 * 2 ^ k + 1) / 2)%nat with (2 ^ k)%nat; [apply IH|].
    apply Nat.div_unique with 1%nat; lia.
Qed.

(** X6: when the number of files is a power of two no level of the pairing
    is odd, no leaf is doubled, and the total size that [Load] sums from
    the saved tree is the total size of the built tree. *)
Theorem Load_total_power_of_two
    (platform : Platform) (files : gmap string FileData)
    (rootPath : string) (order1 order2 : list string) (k : nat)
    (dest : string) (now now' : time.Time) (created : string)
    (disk : Disk) :
  IterOrder files order1 → IterOrder files order2 →
  size files = (2 ^ k)%nat →
  (∀ p fd, files !! p = Some fd →
     int64_range (Size fd) ∧ int64_range (time.sec (ModTime fd))
     ∧ relativePath (filepath.Clean rootPath) p ≠ "") →
  writable disk dest = true →
  timeMarshalJSON platform now = Ok created →
  timeUnmarshalJSON platform created = Ok now' →
  ∃ t disk' t',
    Build files rootPath order1 order2 = Some (Ok t)
    ∧ Save platform t dest now disk = (Ok (), disk')
    ∧ Load platform dest disk' = Ok t'
    ∧ TotalSize t' = TotalSize t.
Proof.
  intros Ho1 Ho2 Hsize Hfiles Hw Hm Hu.
  assert (size files ≠ 0%nat) as Hnz.
  { rewrite Hsize. apply Nat.pow_nonzero. lia. }
  destruct (Build_root_Forall
              (λ x, int64_range (NodeSize x) ∧ int64_range (MTime x))
              files rootPath order1 order2 Ho1 Hnz)
    as (t & root & HB & Hroot & Hrp & _ & Htot & Hred & Hall).
  { intros l r. cbn. unfold int64_range. lia. }
  { intros p fd Hp. destruct (Hfiles p fd Hp) as (Hs & Ht & _).
    unfold leafNode, lookupFile. rewrite Hp. done. }
  destruct (Load_Save_tree platform t dest now disk created now' Hw Hm Hu)
    as (disk' & t' & HS & HL & _ & _ & Htot' & _).
  { rewrite Hroot. by intros n [= <-]. }
  exists t, disk', t'. split; [done|]. split; [done|]. split; [done|].
  rewrite Htot', Hroot, Htot, sumSizes_wrap. f_equal.
  assert (walkSum root
          = sum_with walkSum
              (reduce (length order1)
                 (map (leafNode files (filepath.Clean rootPath))
                    (sort.Strings order1)))) as ->.
  { rewrite Hred. cbn. lia. }
  rewrite levelSum_reduce_even.
  - rewrite levelSum_leaves; [by apply sizesOf_orders|].
    intros p Hp. rewrite sort_Strings_elem_of in Hp.
    apply (IterOrder_lookup files order1 p Ho1) in Hp as [fd Hfd].
    by destruct (Hfiles p fd Hfd) as (_ & _ & Hrel).
  - rewrite length_map, sort_Strings_length, (IterOrder_size files order1),
      Hsize by done.
    apply oddLevel_pow2.
Qed.

Lemma visit_snd_lookup root acc x k :
  (visit root acc x).2 !! k =
    if decide (entryOf root x = Some k) then Some (dataOf x) else acc.2 !! k.
Proof.
  unfold visit, entryOf, dataOf.
  destruct (decide (Path x ≠ "")) as [Hp|Hp];
    [destruct (decide (MTime x ≠ 0)) as [Hm|Hm]|]; cbn [snd].
  - destruct (decide (Some (filepath.Join [root; Path x]) = Some k))
      as [[= <-]|Hne].
    + by rewrite lookup_insert_eq.
    + rewrite lookup_insert_ne; [done|]. intros Heq. apply Hne.
      by rewrite Heq.
  - by rewrite decide_False.
  - by rewrite decide_False.
Qed.

(** What the walk leaves under a key: the entry of the last node that
    makes one for the key, or what was there. *)
Lemma visit_fold_lookup_Some root nodes acc k fd :
  (fold_left (visit root) nodes acc).2 !! k = Some fd ↔
  (acc.2 !! k = Some fd ∧ ∀ x, x ∈ nodes → entryOf root x ≠ Some k)
  ∨ ∃ pre x post,
      nodes = pre ++ x :: post ∧ entryOf root x = Some k ∧ fd = dataOf x
      ∧ ∀ y, y ∈ post → entryOf root y ≠ Some k.
Proof.
  revert acc. induction nodes as [|x nodes IH]; intros acc.
  - cbn [fold_left]. split.
    + intros Hacc. left. split; [done|]. intros x Hx.
      by apply elem_of_nil in Hx.
    + intros [[Hacc _]|(pre & x & post & Hnil & _)]; [done|].
      by destruct pre.
  - cbn [fold_left]. rewrite IH, visit_snd_lookup. split.
    + intros [[Hv Hnone]|(pre & y & post & -> & Hy & -> & Hpost)].
      * destruct (decide (entryOf root x = Some k)) as [Hx|Hx].
        -- right. exists [], x, nodes. by simplify_eq.
        -- left. split; [done|]. intros y [->|Hy]%elem_of_cons; eauto.
      * right. by exists (x :: pre), y, post.
    + intros [[Hacc Hnone]|(pre & y & post & Heq & Hy & -> & Hpost)].
      * left. rewrite decide_False by (apply Hnone; left).
        split; [done|]. intros y Hy. apply Hnone. by right.
      * destruct pre as [|x' pre]; simplify_eq/=.
        -- left. by rewrite decide_True.
        -- right. by exists pre, y, post.
Qed.

Lemma Load_inv platform path disk t :
  Load platform path disk = Ok t →
  ∃ data st,
    ReadFile disk path = Ok data ∧ unmarshal platform data = Ok st
    ∧ t = fromSerialized st.
Proof.
  unfold Load, wrapErr.
  destruct (ReadFile disk path) as [data|] eqn:Hread; [|done].
  destruct (unmarshal platform data) as [st|] eqn:Hst; [|done].
  intros [= <-]. by exists data, st.
Qed.

(** X7: the files mapping that [Load] returns holds nothing but what the
    stored tree holds: under a key stands the hash, size and time of the
    last node of the walk (a node before its children, left before right)
    that has a path, a time other than 0, and whose path joined to the
    stored root is the key. *)
Theorem Load_files_origin
    (platform : Platform) (path : string) (disk : Disk) (t : MerkleTree)
    (k : string) (fd : FileData) :
  Load platform path disk = Ok t →
  Files t !! k = Some fd ↔
  ∃ root pre x post,
    Root t = Some root
    ∧ subnodes root = pre ++ x :: post
    ∧ Path x ≠ "" ∧ MTime x ≠ 0
    ∧ k = filepath.Join [RootPath t; Path x]
    ∧ fd = {| Hash := NodeHash x; Size := NodeSize x;
              ModTime := time.Unix (MTime x) |}
    ∧ ∀ y, y ∈ post →
        ¬ (Path y ≠ "" ∧ MTime y ≠ 0
           ∧ filepath.Join [RootPath t; Path y] = k).
Proof.
  intros (data & st & _ & _ & ->)%Load_inv. rewrite fromSerialized_spec.
  cbn [Files Root RootPath].
  assert (∀ x, entryOf (SRoot st) x = Some k ↔
               Path x ≠ "" ∧ MTime x ≠ 0
               ∧ filepath.Join [SRoot st; Path x] = k) as Hentry.
  { intros x. unfold entryOf.
    destruct (decide (Path x ≠ "")) as [Hp|Hp];
      [destruct (decide (MTime x ≠ 0)) as [Hm|Hm]|].
    - split; [by intros [= <-]|by intros (_ & _ & <-)].
    - split; [done|by intros (_ & Hm' & _)].
    - split; [done|by intros (Hp' & _)]. }
  destruct (Tree st) as [root|].
  - rewrite visit_fold_lookup_Some. cbn [snd]. rewrite lookup_empty. split.
    + intros [[? _]|(pre & x & post & Hsub & Hx & -> & Hpost)]; [done|].
      apply Hentry in Hx as (Hp & Hm & <-).
      exists root, pre, x, post. repeat (split; [done|]).
      intros y Hy Hy'. by apply (Hpost y Hy), Hentry.
    + intros (root' & pre & x & post & [= <-] & Hsub & Hp & Hm & -> & ->
              & Hpost).
      right. exists pre, x, post. split; [done|].
      split; [by apply Hentry|]. split; [done|].
      intros y Hy Hy'. by apply (Hpost y Hy), Hentry.
  - rewrite lookup_empty. split; [done|]. by intros (? & ? & ? & ? & ? & _).
Qed.

Lemma fromSerialized_ext st st' :
  Tree st = Tree st' → SRoot st = SRoot st' →
  fromSerialized st = fromSerialized st'.
Proof. intros Ht Hr. by rewrite !fromSerialized_spec, Ht, Hr. Qed.

Lemma height_coerceNode n : height (coerceNode n) = height n.
Proof.
  induction n as [h l r p sz mt IHl IHr] using Node_ind'.
  destruct l as [l'|], r as [r'|]; cbn [coerceNode height];
    rewrite ?(IHl _ eq_refl), ?(IHr _ eq_refl); reflexivity.
Qed.

(** X8: a loaded tree is a fixed point.  A tree whose sizes and times fit
    int64 and whose height is below the 10000 nested values that the
    encoder accepts is saved, whatever its strings are; what [Load]
    returns of it is again such a tree, and saved again, anywhere and at
    any time, it is loaded as it was. *)
Theorem Load_Save_fixed_point
    (platform : Platform) (t : MerkleTree) (dest : string)
    (now now' : time.Time) (created : string) (disk : Disk) :
  writable disk dest = true →
  timeMarshalJSON platform now = Ok created →
  timeUnmarshalJSON platform created = Ok now' →
  (∀ n, Root t = Some n → wfNode n ∧ Z.of_nat (height n) < 10000) →
  ∃ disk' t',
    Save platform t dest now disk = (Ok (), disk')
    ∧ Load platform dest disk' = Ok t'
    ∧ (∀ n', Root t' = Some n' → wfNode n' ∧ Z.of_nat (height n') < 10000)
    ∧ ∀ dest2 now2 now2' created2 disk2,
        writable disk2 dest2 = true →
        timeMarshalJSON platform now2 = Ok created2 →
        timeUnmarshalJSON platform created2 = Ok now2' →
        ∃ disk2',
          Save platform t' dest2 now2 disk2 = (Ok (), disk2')
          ∧ Load platform dest2 disk2' = Ok t'.
Proof.
  intros Hw Hm Hu Hwf.
  destruct (Load_Save platform t dest now disk created now' Hw Hm Hu)
    as (disk' & HS & HL); [intros n Hn; by apply Hwf|].
  eexists disk', _. split; [done|]. split; [done|].
  set (t' := fromSerialized _).
  assert (Root t' = coerceNode <$> Root t
          ∧ RootPath t' = json.coerce (RootPath t)) as [Hr Hp].
  { unfold t'. by rewrite fromSerialized_spec. }
  assert (∀ n', Root t' = Some n' → wfNode n' ∧ Z.of_nat (height n') < 10000)
    as Hwf'.
  { intros n'. rewrite Hr. destruct (Root t) as [n|]; [|done].
    intros [= <-]. destruct (Hwf n eq_refl) as [Hn Hh].
    split; [by apply wfNode_coerceNode|by rewrite height_coerceNode]. }
  split; [done|].
  intros dest2 now2 now2' created2 disk2 Hw2 Hm2 Hu2.
  destruct (Load_Save platform t' dest2 now2 disk2 created2 now2' Hw2 Hm2 Hu2)
    as (disk2' & HS2 & HL2); [intros n Hn; by apply Hwf'|].
  exists disk2'. split; [done|]. rewrite HL2, Hr, Hp. f_equal.
  unfold t'. apply fromSerialized_ext; cbn [Tree SRoot].
  - destruct (Root t) as [n|]; [|done].
    cbn [fmap option_fmap option_map]. by rewrite coerceNode_coerceNode.
  - by rewrite coerce_coerce.
Qed.

(** * Properties of [Compare] *)

Global Instance byPath_transitive : Transitive compare.byPath.
Proof. intros a b c. unfold compare.byPath. apply transitivity. Qed.

Global Instance byPath_total : Total compare.byPath.
Proof. intros a b. unfold compare.byPath. apply total, _. Qed.

Lemma NoDup_map_inj_on {A B} (f : A → B) (l : list A) x y :
  NoDup (map f l) → x ∈ l → y ∈ l → f x = f y → x = y.
Proof.
  induction l as [|z l IH]; intros Hnd Hx Hy Hf;
    [by apply elem_of_nil in Hx|].
  cbn [map] in Hnd. apply NoDup_cons in Hnd as [Hz Hnd].
  apply elem_of_cons in Hx as [->|Hx]; apply elem_of_cons in Hy as [->|Hy].
  - done.
  - destruct Hz. rewrite Hf. by apply list_elem_of_In, in_map, list_elem_of_In.
  - destruct Hz. rewrite <- Hf.
    by apply list_elem_of_In, in_map, list_elem_of_In.
  - by apply IH.
Qed.

(** Changes of distinct paths have one sorted order. *)
Lemma sortByPath_unique l l' :
  l ≡ₚ l' → NoDup (map compare.Path l) →
  compare.sortByPath l = compare.sortByPath l'.
Proof.
  intros Hperm Hnd. unfold compare.sortByPath.
  apply (Sorted_unique_strong compare.byPath);
    try apply (Sorted_merge_sort compare.byPath).
  - intros x1 x2 Hx1 Hx2 H12 H21.
    rewrite merge_sort_Permutation in Hx1, Hx2. rewrite <- Hperm in Hx2.
    apply (NoDup_map_inj_on compare.Path l); [done..|].
    unfold compare.byPath in *. by apply (anti_symm String.le).
  - by rewrite !merge_sort_Permutation.
Qed.

Lemma sortByPath_sorted l :
  NoDup (map compare.Path l) → sortedByPath (compare.sortByPath l).
Proof.
  intros Hnd. unfold sortedByPath, compare.sortByPath. split.
  - apply (StronglySorted_merge_sort compare.byPath).
  - by rewrite merge_sort_Permutation.
Qed.

Lemma NoDup_omap_paths (f : string → option compare.Change) order :
  (∀ p c, f p = Some c → compare.Path c = p) →
  NoDup order → NoDup (map compare.Path (omap f order)).
Proof.
  intros Hf. induction 1 as [|p order Hp Hnd IH]; [constructor|].
  cbn [omap list_omap]. fold (omap f order).
  destruct (f p) as [c|] eqn:Hc; [|done].
  cbn [map]. apply NoDup_cons. split; [|done].
  rewrite (Hf p c Hc). intros Hin.
  apply list_elem_of_In, in_map_iff in Hin as (c' & Hpath & Hin).
  apply list_elem_of_In, list_elem_of_omap in Hin as (q & Hq & Hc').
  rewrite (Hf q c' Hc') in Hpath. by subst.
Qed.

Lemma addedOf_path oldFiles newFiles p c :
  addedOf oldFiles newFiles p = Some c → compare.Path c = p.
Proof.
  unfold addedOf. destruct (newFiles !! p), (oldFiles !! p); try done.
  by intros [= <-].
Qed.

Lemma modifiedOf_path oldFiles newFiles p c :
  modifiedOf oldFiles newFiles p = Some c → compare.Path c = p.
Proof.
  unfold modifiedOf. destruct (newFiles !! p), (oldFiles !! p); try done.
  destruct (decide _); [|done]. by intros [= <-].
Qed.

Lemma deletedOf_path oldFiles newFiles p c :
  deletedOf oldFiles newFiles p = Some c → compare.Path c = p.
Proof.
  unfold deletedOf. destruct (oldFiles !! p), (newFiles !! p); try done.
  by intros [= <-].
Qed.

Lemma IterOrder_Permutation {V} (m : gmap string V) order order' :
  IterOrder m order → IterOrder m order' → order ≡ₚ order'.
Proof. unfold IterOrder. by intros -> ->. Qed.

(** X9: the result of [Compare] does not depend on the orders in which the
    two maps are iterated, and each of its three sequences is in the
    strict order of its paths. *)
Theorem Compare_deterministic
    (oldTree newTree : MerkleTree)
    (orderNew orderOld orderNew' orderOld' : list string) :
  IterOrder (Files newTree) orderNew → IterOrder (Files oldTree) orderOld →
  IterOrder (Files newTree) orderNew' →
  IterOrder (Files oldTree) orderOld' →
  compare.Compare oldTree newTree orderNew orderOld
  = compare.Compare oldTree newTree orderNew' orderOld'
  ∧ sortedByPath
      (compare.added (compare.Compare oldTree newTree orderNew orderOld))
  ∧ sortedByPath
      (compare.modified (compare.Compare oldTree newTree orderNew orderOld))
  ∧ sortedByPath
      (compare.deleted (compare.Compare oldTree newTree orderNew orderOld)).
Proof.
  intros Hn Ho Hn' Ho'. rewrite !Compare_sequences.
  cbn [compare.added compare.modified compare.deleted].
  pose proof (IterOrder_Permutation _ _ _ Hn Hn') as Hpn.
  pose proof (IterOrder_Permutation _ _ _ Ho Ho') as Hpo.
  pose proof (IterOrder_NoDup _ _ Hn) as Hndn.
  pose proof (IterOrder_NoDup _ _ Ho) as Hndo.
  assert (NoDup (map compare.Path
                   (omap (addedOf (Files oldTree) (Files newTree)) orderNew)))
    as Ha by (apply NoDup_omap_paths; [apply addedOf_path|done]).
  assert (NoDup (map compare.Path
                   (omap (modifiedOf (Files oldTree) (Files newTree))
                      orderNew)))
    as Hm by (apply NoDup_omap_paths; [apply modifiedOf_path|done]).
  assert (NoDup (map compare.Path
                   (omap (deletedOf (Files oldTree) (Files newTree))
                      orderOld)))
    as Hd by (apply NoDup_omap_paths; [apply deletedOf_path|done]).
  split; [|by repeat split; apply sortByPath_sorted].
  f_equal; apply sortByPath_unique; try done; by apply omap_Permutation.
Qed.

Lemma sortByPath_nil l : compare.sortByPath l = [] ↔ l = [].
Proof.
  unfold compare.sortByPath. split.
  - intros Hnil. apply Permutation_nil_r.
    by rewrite <- (merge_sort_Permutation compare.byPath l), Hnil.
  - by intros ->.
Qed.

Lemma omap_nil_iff {A B} (f : A → option B) (l : list A) :
  omap f l = [] ↔ ∀ x, x ∈ l → f x = None.
Proof.
  induction l as [|x l IH]; cbn [omap list_omap].
  - split; [|done]. intros _ x Hx. by apply elem_of_nil in Hx.
  - fold (omap f l). destruct (f x) as [y|] eqn:Hy.
    + split; [done|]. intros Hall. specialize (Hall x ltac:(left)).
      congruence.
    + rewrite IH. split.
      * intros Hall z [->|Hz]%elem_of_cons; eauto.
      * intros Hall z Hz. apply Hall. by right.
Qed.

Lemma length_zero_ltb {A} (l : list A) : (0 <? length l)%nat = false ↔ l = [].
Proof. destruct l; cbn; split; done. Qed.

(** X10: [Compare] reports no change exactly when the two files mappings
    have the same paths with the same content hashes, whatever the sizes,
    the times and the rest of the two trees. *)
Theorem Compare_no_changes
    (oldTree newTree : MerkleTree) (orderNew orderOld : list string) :
  IterOrder (Files newTree) orderNew → IterOrder (Files oldTree) orderOld →
  compare.HasChanges (compare.Compare oldTree newTree orderNew orderOld)
  = false
  ↔ Hash <$> Files oldTree = Hash <$> Files newTree.
Proof.
  intros Hn Ho. rewrite Compare_sequences. unfold compare.HasChanges.
  cbn [compare.added compare.modified compare.deleted].
  rewrite !orb_false_iff, !length_zero_ltb, !sortByPath_nil, !omap_nil_iff.
  split.
  - intros [[Ha Hm] Hd]. apply map_eq. intros p. rewrite !lookup_fmap.
    destruct (Files newTree !! p) as [newData|] eqn:Hnew.
    + assert (p ∈ orderNew) as Hp
        by (apply (IterOrder_lookup _ _ p Hn); by exists newData).
      specialize (Ha p Hp). specialize (Hm p Hp).
      unfold addedOf, modifiedOf in Ha, Hm. rewrite Hnew in Ha, Hm.
      destruct (Files oldTree !! p) as [oldData|]; [|done].
      destruct (decide (Hash oldData ≠ Hash newData)) as [|Heq]; [done|].
      apply dec_stable in Heq. cbn. by rewrite Heq.
    + destruct (Files oldTree !! p) as [oldData|] eqn:Hold; [|done].
      assert (p ∈ orderOld) as Hp
        by (apply (IterOrder_lookup _ _ p Ho); by exists oldData).
      specialize (Hd p Hp). unfold deletedOf in Hd.
      by rewrite Hold, Hnew in Hd.
  - intros Heq.
    assert (∀ p, Hash <$> Files oldTree !! p = Hash <$> Files newTree !! p)
      as Hp by (intros p; by rewrite <- !lookup_fmap, Heq).
    repeat split; intros p _; specialize (Hp p);
      unfold addedOf, modifiedOf, deletedOf;
      destruct (Files newTree !! p) as [newData|],
               (Files oldTree !! p) as [oldData|]; try done.
    cbn in Hp. injection Hp as Hp. by rewrite decide_False by (by intros []).
Qed.

Lemma omap_fmap_swap (f g : string → option compare.Change) order :
  (∀ p, g p = swap <$> f p) → omap g order = map swap (omap f order).
Proof.
  intros Hfg. induction order as [|p order IH]; [done|].
  cbn [omap list_omap]. fold (omap g order). fold (omap f order).
  rewrite Hfg, IH. by destruct (f p).
Qed.

Lemma swap_sorted l : sortedByPath l → sortedByPath (map swap l).
Proof.
  intros [Hs Hnd]. split.
  - clear Hnd. induction Hs as [|c l Hs IH Hc]; [constructor|].
    cbn [map]. constructor; [done|].
    apply Forall_map. eapply Forall_impl; [done|]. by intros c'.
  - by rewrite map_map.
Qed.

Lemma sortedByPath_unique l l' :
  sortedByPath l → sortedByPath l' → l ≡ₚ l' → l = l'.
Proof.
  intros [Hs Hnd] [Hs' Hnd'] Hperm.
  apply (StronglySorted_unique_strong compare.byPath); try done.
  intros x1 x2 Hx1 Hx2 H12 H21. rewrite <- Hperm in Hx2.
  apply (NoDup_map_inj_on compare.Path l); [done..|].
  unfold compare.byPath in *. by apply (anti_symm String.le).
Qed.

(** The changes of two lists of keys that differ in keys without a
    change only. *)
Lemma omap_support (f : string → option compare.Change) l l' :
  NoDup l → NoDup l' →
  (∀ p c, f p = Some c → compare.Path c = p) →
  (∀ p c, f p = Some c → p ∈ l ↔ p ∈ l') →
  omap f l ≡ₚ omap f l'.
Proof.
  intros Hnd Hnd' Hpath Hsupp.
  apply NoDup_Permutation; [by apply NoDup_omap_path..|].
  intros c. rewrite !list_elem_of_omap.
  split; intros (p & Hp & Hc); exists p; (split; [|done]);
    by apply (Hsupp p c Hc).
Qed.

(** X11: comparing the other way round exchanges the roles: what is added
    from old to new is deleted from new to old, with the same data, and the
    modified paths are the same with the old and the new data exchanged. *)
Theorem Compare_swap
    (oldTree newTree : MerkleTree)
    (orderNew orderOld orderNew' orderOld' : list string) :
  IterOrder (Files newTree) orderNew → IterOrder (Files oldTree) orderOld →
  IterOrder (Files newTree) orderNew' →
  IterOrder (Files oldTree) orderOld' →
  let r := compare.Compare oldTree newTree orderNew orderOld in
  let r' := compare.Compare newTree oldTree orderOld' orderNew' in
  compare.added r' = map swap (compare.deleted r)
  ∧ compare.modified r' = map swap (compare.modified r)
  ∧ compare.deleted r' = map swap (compare.added r).
Proof.
  intros Hn Ho Hn' Ho' r r'. unfold r, r'. rewrite !Compare_sequences.
  cbn [compare.added compare.modified compare.deleted].
  pose proof (IterOrder_Permutation _ _ _ Hn' Hn) as Hpn.
  pose proof (IterOrder_Permutation _ _ _ Ho' Ho) as Hpo.
  pose proof (IterOrder_NoDup _ _ Hn) as Hndn.
  pose proof (IterOrder_NoDup _ _ Ho) as Hndo.
  pose proof (IterOrder_NoDup _ _ Hn') as Hndn'.
  pose proof (IterOrder_NoDup _ _ Ho') as Hndo'.
  assert (∀ p, addedOf (Files newTree) (Files oldTree) p
               = swap <$> deletedOf (Files oldTree) (Files newTree) p) as Had.
  { intros p. unfold addedOf, deletedOf.
    by destruct (Files oldTree !! p), (Files newTree !! p). }
  assert (∀ p, deletedOf (Files newTree) (Files oldTree) p
               = swap <$> addedOf (Files oldTree) (Files newTree) p) as Hda.
  { intros p. unfold addedOf, deletedOf.
    by destruct (Files oldTree !! p), (Files newTree !! p). }
  assert (∀ p, modifiedOf (Files newTree) (Files oldTree) p
               = swap <$> modifiedOf (Files oldTree) (Files newTree) p)
    as Hmm.
  { intros p. unfold modifiedOf.
    destruct (Files oldTree !! p) as [o|], (Files newTree !! p) as [n|];
      try done.
    destruct (decide (Hash n ≠ Hash o)), (decide (Hash o ≠ Hash n));
      try done; congruence. }
  repeat split.
  - apply sortedByPath_unique.
    + apply sortByPath_sorted, NoDup_omap_paths; [apply addedOf_path|done].
    + apply swap_sorted, sortByPath_sorted, NoDup_omap_paths;
        [apply deletedOf_path|done].
    + unfold compare.sortByPath. rewrite !merge_sort_Permutation.
      rewrite <- (omap_fmap_swap _ _ orderOld Had).
      by apply omap_Permutation.
  - apply sortedByPath_unique.
    + apply sortByPath_sorted, NoDup_omap_paths; [apply modifiedOf_path|done].
    + apply swap_sorted, sortByPath_sorted, NoDup_omap_paths;
        [apply modifiedOf_path|done].
    + unfold compare.sortByPath. rewrite !merge_sort_Permutation.
      rewrite <- (omap_fmap_swap _ _ orderNew Hmm).
      apply omap_support; [done..|apply modifiedOf_path|].
      intros p c Hc. unfold modifiedOf in Hc.
      rewrite (IterOrder_lookup _ _ p Ho'), (IterOrder_lookup _ _ p Hn).
      destruct (Files oldTree !! p), (Files newTree !! p); try done;
        split; eauto.
  - apply sortedByPath_unique.
    + apply sortByPath_sorted, NoDup_omap_paths; [apply deletedOf_path|done].
    + apply swap_sorted, sortByPath_sorted, NoDup_omap_paths;
        [apply addedOf_path|done].
    + unfold compare.sortByPath. rewrite !merge_sort_Permutation.
      rewrite <- (omap_fmap_swap _ _ orderNew Hda).
      by apply omap_Permutation.
Qed.

(** * Properties of [FormatReport] *)

Lemma firstByte_app s t c :
  firstByte s = Some c → firstByte (s +:+ t) = Some c.
Proof. by destruct s. Qed.

Section report_lemmas.

Variable formatDate : time.Time → string.

Lemma report_fold_None (line : compare.Change → option string) changes :
  fold_left (λ report change,
               report ← report; l ← line change; Some (report +:+ l))
    changes None = None.
Proof. by induction changes. Qed.

Lemma report_fold_Some (line : compare.Change → option string) changes
    report c :
  Forall (λ change, is_Some (line change)) changes →
  firstByte report = Some c →
  ∃ report',
    fold_left (λ report change,
                 report ← report; l ← line change; Some (report +:+ l))
      changes (Some report) = Some report'
    ∧ firstByte report' = Some c.
Proof.
  intros Hall. revert report.
  induction Hall as [|change changes [l Hl] _ IH]; intros report Hc.
  - by exists report.
  - cbn [fold_left mbind option_bind]. rewrite Hl. cbn [mbind option_bind].
    apply IH. by apply firstByte_app.
Qed.

Lemma report_fold_panic (line : compare.Change → option string) changes
    report change :
  change ∈ changes → line change = None →
  fold_left (λ report change,
               report ← report; l ← line change; Some (report +:+ l))
    changes (Some report) = None.
Proof.
  revert report. induction changes as [|x changes IH]; intros report Hin Hl;
    [by apply elem_of_nil in Hin|].
  cbn [fold_left mbind option_bind].
  destruct (line x) as [l|] eqn:Hx; cbn [mbind option_bind].
  - apply elem_of_cons in Hin as [->|Hin]; [congruence|]. by apply IH.
  - apply report_fold_None.
Qed.

Lemma block_Some heading line changes report c :
  Forall (λ change, is_Some (line change)) changes →
  firstByte report = Some c →
  ∃ report',
    compare.block heading line changes report = Some report'
    ∧ firstByte report' = Some c.
Proof.
  intros Hall Hc. unfold compare.block.
  destruct (0 <? length changes)%nat; [|by exists report].
  destruct (report_fold_Some line changes
              (report +:+ heading +:+ " (" +:+ pretty (length changes)
               +:+ " files):" +:+ compare.newline) c Hall)
    as (report' & -> & Hc'); [by apply firstByte_app|].
  cbn [mbind option_bind]. eexists. split; [done|].
  by apply firstByte_app.
Qed.

Lemma block_panic heading line changes report change :
  change ∈ changes → line change = None →
  compare.block heading line changes report = None.
Proof.
  intros Hin Hl. unfold compare.block.
  destruct changes as [|x changes]; [by apply elem_of_nil in Hin|].
  cbn [length Nat.ltb Nat.leb].
  by rewrite (report_fold_panic line _ _ change Hin Hl).
Qed.

(** The changes that [Compare] makes carry the data that [FormatReport]
    reads. *)
Lemma Compare_data oldTree newTree orderNew orderOld :
  let r := compare.Compare oldTree newTree orderNew orderOld in
  Forall (λ c, is_Some (compare.NewData c)) (compare.added r)
  ∧ Forall (λ c, is_Some (compare.OldData c) ∧ is_Some (compare.NewData c))
      (compare.modified r)
  ∧ Forall (λ c, is_Some (compare.OldData c)) (compare.deleted r).
Proof.
  intros r. unfold r. rewrite Compare_sequences.
  cbn [compare.added compare.modified compare.deleted].
  repeat split; apply Forall_forall; intros c Hc;
    rewrite elem_of_sortByPath, list_elem_of_omap in Hc;
    destruct Hc as (p & _ & Hc).
  - unfold addedOf in Hc.
    destruct (Files newTree !! p), (Files oldTree !! p); try done.
    by injection Hc as <-.
  - unfold modifiedOf in Hc.
    destruct (Files newTree !! p), (Files oldTree !! p); try done.
    destruct (decide _); [|done]. by injection Hc as <-.
  - unfold deletedOf in Hc.
    destruct (Files oldTree !! p), (Files newTree !! p); try done.
    by injection Hc as <-.
Qed.

(** X12: on a result of [Compare] the pointers that [FormatReport] follows
    are never nil: it returns a report, and the report is the sentence
    "No changes detected." exactly when the result has no change.  A
    result whose added change has no new data makes it panic. *)
Theorem FormatReport_Compare
    (oldTree newTree : MerkleTree) (orderNew orderOld : list string) :
  (∃ report,
     compare.FormatReport formatDate
       (compare.Compare oldTree newTree orderNew orderOld) = Some report
     ∧ (report = "No changes detected."
        ↔ compare.HasChanges
            (compare.Compare oldTree newTree orderNew orderOld) = false))
  ∧ (∀ (result : compare.CompareResult) (change : compare.Change),
       change ∈ compare.added result →
       compare.NewData change = None →
       compare.FormatReport formatDate result = None).
Proof.
  split.
  - destruct (Compare_data oldTree newTree orderNew orderOld)
      as (Ha & Hm & Hd).
    set (r := compare.Compare oldTree newTree orderNew orderOld) in *.
    unfold compare.FormatReport.
    destruct (compare.HasChanges r) eqn:Hch; cbn [negb].
    + destruct (block_Some "ADDED" compare.addedLine (compare.added r)
                  ("Changes detected:" +:+ compare.newline
                   +:+ compare.newline) "C"%char)
        as (r1 & -> & H1); [|done|].
      { eapply Forall_impl; [exact Ha|]. intros c [d Hd'].
        unfold compare.addedLine, compare.deref. rewrite Hd'. by eexists. }
      cbn [mbind option_bind].
      destruct (block_Some "MODIFIED" (compare.modifiedLines formatDate)
                  (compare.modified r) r1 "C"%char)
        as (r2 & -> & H2); [|done|].
      { eapply Forall_impl; [exact Hm|]. intros c [[d Hd'] [d' Hd'']].
        unfold compare.modifiedLines, compare.deref. rewrite Hd', Hd''.
        by eexists. }
      cbn [mbind option_bind].
      destruct (block_Some "DELETED" compare.deletedLine
                  (compare.deleted r) r2 "C"%char)
        as (r3 & -> & H3); [|done|].
      { eapply Forall_impl; [exact Hd|]. intros c [d Hd'].
        unfold compare.deletedLine, compare.deref. rewrite Hd'. by eexists. }
      cbn [mbind option_bind]. eexists. split; [done|].
      split; [|done]. intros Heq.
      apply (f_equal firstByte) in Heq.
      rewrite (firstByte_app _ _ "C"%char) in Heq by done. done.
    + by exists "No changes detected.".
  - intros result change Hin Hnone. unfold compare.FormatReport.
    assert (compare.HasChanges result = true) as ->.
    { unfold compare.HasChanges.
      destruct (compare.added result); [by apply elem_of_nil in Hin|done]. }
    cbn [negb].
    rewrite (block_panic "ADDED" compare.addedLine _ _ change Hin); [done|].
    unfold compare.addedLine, compare.deref. by rewrite Hnone.
Qed.

End report_lemmas.

(** * Further properties of [HashFile] *)

Lemma be_bytes_length s : length (xxhash.be_bytes s) = 8%nat.
Proof. done. Qed.

(** X13: the two hash functions of the package agree: the digest that
    [HashFile] returns for a file is the hexadecimal text of the eight
    bytes that [XXHashFunc] returns for its content, and [XXHashFunc]
    never fails. *)
Theorem HashFile_XXHashFunc
    (fs : os.FileSystem) (path : string) (chunks : list (list byte))
    (last : list byte) (rest : os.File) :
  fs path = Ok (map os.ReadData chunks ++ os.ReadEOF last :: rest) →
  ∃ sum,
    hash.XXHashFunc (concat chunks ++ last) = Ok sum
    ∧ length sum = 8%nat
    ∧ hash.HashFile fs path = Some (Ok (hex.EncodeToString sum)).
Proof.
  intros Hopen. eexists. split; [done|]. split; [apply be_bytes_length|].
  unfold hash.HashFile. rewrite Hopen.
  by rewrite readLoop_chunks by apply wfDigest_New.
Qed.

Lemma readLoop_fail h chunks data msg rest :
  hash.readLoop h (map os.ReadData chunks ++ os.ReadFail data msg :: rest)
  = Some (Err ("failed to read file: " +:+ msg)).
Proof.
  revert h. induction chunks as [|c chunks IH]; intros h; [done|].
  cbn [map app hash.readLoop]. apply IH.
Qed.

Lemma readLoop_format h file hashStr :
  hash.readLoop h file = Some (Ok hashStr) →
  lowerHex hashStr ∧ String.length hashStr = 16%nat.
Proof.
  revert h. induction file as [|[data|data|data msg] file IH]; intros h;
    cbn [hash.readLoop]; [done|apply IH| |done].
  intros Heq.
  replace hashStr
    with (hex.EncodeToString (xxhash.Sum (hash.feed h data) []))
    by congruence.
  split; [apply EncodeToString_lower|].
  rewrite EncodeToString_length. unfold xxhash.Sum. cbn [app].
  by rewrite be_bytes_length.
Qed.

(** X14: [HashFile] returns a digest only at the end of the file: a file
    that cannot be opened and a read that fails, whatever was read before
    it, give the error with its context and no digest; a digest, when
    there is one, is sixteen lowercase hexadecimal digits. *)
Theorem HashFile_errors (fs : os.FileSystem) (path : string) :
  (∀ msg, fs path = Err msg →
     hash.HashFile fs path = Some (Err ("failed to open file: " +:+ msg)))
  ∧ (∀ chunks data msg rest,
       fs path = Ok (map os.ReadData chunks ++ os.ReadFail data msg :: rest) →
       hash.HashFile fs path = Some (Err ("failed to read file: " +:+ msg)))
  ∧ (∀ hashStr, hash.HashFile fs path = Some (Ok hashStr) →
       lowerHex hashStr ∧ String.length hashStr = 16%nat).
Proof.
  unfold hash.HashFile. split; [|split].
  - by intros msg ->.
  - intros chunks data msg rest ->. apply readLoop_fail.
  - intros hashStr. destruct (fs path) as [file|]; [|done].
    apply readLoop_format.
Qed.

(** * Properties of [shouldExclude] *)

Lemma append_cons c s t : String c s +:+ t = String c (s +:+ t).
Proof. done. Qed.

Lemma substring_0_all t : String.substring 0 (String.length t) t = t.
Proof. induction t as [|c t IH]; cbn; [done|]. by rewrite IH. Qed.

Lemma substring_0_append s t :
  String.substring 0 (String.length s) (s +:+ t) = s.
Proof.
  induction s as [|c s IH]; [by destruct t|].
  rewrite append_cons. cbn [String.length String.substring]. by rewrite IH.
Qed.

Lemma substring_skip_append s t :
  String.substring (String.length s) (String.length t) (s +:+ t) = t.
Proof.
  induction s as [|c s IH]; [apply substring_0_all|].
  rewrite append_cons. cbn [String.length String.substring]. apply IH.
Qed.

Lemma length_append s t :
  String.length (s +:+ t) = (String.length s + String.length t)%nat.
Proof.
  induction s as [|c s IH]; [done|].
  rewrite append_cons. cbn [String.length]. by rewrite IH.
Qed.

Lemma HasSuffix_append s t : strings.HasSuffix (s +:+ t) t = true.
Proof.
  unfold strings.HasSuffix. rewrite length_append.
  replace (String.length s + String.length t - String.length t)%nat
    with (String.length s) by lia.
  rewrite substring_skip_append, String.eqb_refl, andb_true_r.
  apply Nat.leb_le. lia.
Qed.

Lemma TrimSuffix_append s t : strings.TrimSuffix (s +:+ t) t = s.
Proof.
  unfold strings.TrimSuffix. rewrite HasSuffix_append, length_append.
  replace (String.length s + String.length t - String.length t)%nat
    with (String.length s) by lia.
  apply substring_0_append.
Qed.

Section exclusion_lemmas.

Variable Match : string → string → result bool.

Lemma shouldExclude_existsb relPath d exclusions :
  walker.shouldExclude Match relPath d exclusions
  = existsb (walker.excludes Match relPath) exclusions.
Proof.
  induction exclusions as [|pattern rest IH]; [done|].
  cbn [walker.shouldExclude existsb]. rewrite IH.
  by destruct (walker.excludes Match relPath pattern).
Qed.

(** X15: a pattern that ends with a slash excludes every path one of whose
    elements is the name before the slash, be the element a directory or a
    file, and whatever [filepath.Match] makes of the name; the entry [d]
    plays no part in the decision. *)
Theorem shouldExclude_directory_pattern
    (relPath name : string) (d d' : walker.DirEntry)
    (exclusions : list string) :
  (name +:+ "/" ∈ exclusions →
   name ∈ strings.Split relPath "/" →
   walker.shouldExclude Match relPath d exclusions = true)
  ∧ walker.shouldExclude Match relPath d exclusions
    = walker.shouldExclude Match relPath d' exclusions.
Proof.
  split; [|by rewrite !shouldExclude_existsb].
  intros Hin Hname. rewrite shouldExclude_existsb.
  apply existsb_exists. exists (name +:+ "/"). split; [by apply list_elem_of_In|].
  unfold walker.excludes. rewrite HasSuffix_append, TrimSuffix_append.
  apply existsb_exists. exists name. split; [by apply list_elem_of_In|].
  rewrite bool_decide_eq_true_2 by done. apply orb_true_r.
Qed.

Lemma HasSuffix_cons c r suffix :
  (String.length suffix ≤ String.length r)%nat →
  strings.HasSuffix (String c r) suffix = strings.HasSuffix r suffix.
Proof.
  intros Hlen. unfold strings.HasSuffix. cbn [String.length].
  rewrite (proj2 (Nat.leb_le _ _) Hlen),
    (proj2 (Nat.leb_le (String.length suffix) (S (String.length r)))
       ltac:(lia)).
  replace (S (String.length r) - String.length suffix)%nat
    with (S (String.length r - String.length suffix)) by lia.
  done.
Qed.

(** A pattern that ends with a slash holds a slash. *)
Lemma HasSuffix_Contains pattern :
  strings.HasSuffix pattern "/" = true → strings.Contains pattern "/" = true.
Proof.
  induction pattern as [|c r IH]; [done|].
  destruct (decide (r = EmptyString)) as [->|Hr].
  - unfold strings.HasSuffix. cbn. intros Hc.
    destruct (Ascii.eqb_spec c "/"%char) as [->|]; [done|].
    by destruct (Ascii.eqb c "/").
  - assert (1 ≤ String.length r)%nat as Hlen
      by (destruct r; [done|cbn; lia]).
    rewrite HasSuffix_cons by done. intros Hs%IH.
    cbn [strings.Contains]. rewrite Hs. apply orb_true_r.
Qed.

(** X16: a pattern without a slash is matched against the last element of
    the path alone: under such patterns two paths with the same last
    element are excluded alike, at any depth. *)
Theorem shouldExclude_base_name
    (relPath relPath' : string) (d d' : walker.DirEntry)
    (exclusions : list string) :
  Forall (λ pattern, strings.Contains pattern "/" = false) exclusions →
  filepath.Base relPath = filepath.Base relPath' →
  walker.shouldExclude Match relPath d exclusions
  = walker.shouldExclude Match relPath' d' exclusions.
Proof.
  intros Hall Hbase. rewrite !shouldExclude_existsb.
  induction Hall as [|pattern exclusions Hp _ IH]; [done|].
  cbn [existsb]. rewrite IH. f_equal. unfold walker.excludes.
  destruct (strings.HasSuffix pattern "/") eqn:Hs.
  - apply HasSuffix_Contains in Hs. congruence.
  - by rewrite Hp, Hbase.
Qed.

End exclusion_lemmas.

(** * The files mapping of [generateTree] *)

Lemma HashFile_format fs path hashStr :
  hash.HashFile fs path = Some (Ok hashStr) →
  lowerHex hashStr ∧ String.length hashStr = 16%nat.
Proof.
  unfold hash.HashFile. destruct (fs path) as [file|]; [|done].
  apply readLoop_format.
Qed.

(** The map and the errors of a run of [HashFiles] that has returned. *)
Lemma HashFiles_outputs fs files numWorkers schedule r :
  NoDup (map walker.Path files) →
  walker.HashFiles fs files numWorkers schedule = Some r →
  walker.Hashes r = hashesOf fs files
  ∧ walker.Errors r ≡ₚ errorsOf fs files.
Proof.
  intros Hnd. unfold walker.HashFiles.
  destruct (walker.run fs schedule _) as [s|] eqn:Hrun; [|done].
  destruct (walker.returned s) eqn:Hret; [|done]. intros [= <-].
  destruct (run_poolInv _ _ _ _ _ _ (start_poolInv fs files numWorkers) Hrun)
    as [collected Hinv].
  by destruct (poolInv_result _ _ _ _ Hnd Hinv Hret) as (Hh & He & _).
Qed.

Lemma fileDataMap_fold (files : list walker.FileInfo)
    (hashes : gmap string string) (acc : gmap string FileData) p fd :
  NoDup (map walker.Path files) →
  fold_left
    (λ fileDataMap fileInfo,
       match hashes !! walker.Path fileInfo with
       | Some hash =>
           <[walker.Path fileInfo := fileDataOf fileInfo hash]> fileDataMap
       | None => fileDataMap
       end) files acc !! p = Some fd ↔
  (∃ f h, f ∈ files ∧ walker.Path f = p ∧ hashes !! p = Some h
           ∧ fd = fileDataOf f h)
  ∨ (acc !! p = Some fd
     ∧ ∀ f, f ∈ files → walker.Path f = p → hashes !! p = None).
Proof.
  revert acc. induction files as [|x files IH]; intros acc Hnd.
  - cbn [fold_left]. split.
    + intros Hacc. right. split; [done|]. intros f Hf.
      by apply elem_of_nil in Hf.
    + intros [(f & h & Hf & _)|[Hacc _]]; [by apply elem_of_nil in Hf|done].
  - cbn [map] in Hnd. apply NoDup_cons in Hnd as [Hx Hnd].
    cbn [fold_left]. rewrite (IH _ Hnd). split.
    + intros [(f & h & Hf & Hp & Hh & ->)|[Hacc Hnone]].
      * left. exists f, h. split; [by right|done].
      * destruct (hashes !! walker.Path x) as [h|] eqn:Hh.
        -- destruct (decide (walker.Path x = p)) as [<-|Hne].
           ++ rewrite lookup_insert_eq in Hacc. injection Hacc as <-.
              left. exists x, h. split; [left|done].
           ++ rewrite lookup_insert_ne in Hacc by done. right.
              split; [done|]. intros f [->|Hf]%elem_of_cons Hp; [done|].
              by apply (Hnone f).
        -- right. split; [done|].
           intros f [->|Hf]%elem_of_cons Hp; [by rewrite <- Hp|].
           by apply (Hnone f).
    + intros [(f & h & [->|Hf]%elem_of_cons & Hp & Hh & ->)|[Hacc Hnone]].
      * right. rewrite Hp, Hh, <- Hp, lookup_insert_eq. split; [done|].
        intros f Hf Hpf. destruct Hx. rewrite <- Hpf.
        by apply list_elem_of_In, in_map, list_elem_of_In.
      * left. by exists f, h.
      * right. split.
        -- destruct (hashes !! walker.Path x) as [h|] eqn:Hh; [|done].
           destruct (decide (walker.Path x = p)) as [Hp|Hne].
           ++ rewrite Hp, (Hnone x) in Hh; [done|left|done].
           ++ by rewrite lookup_insert_ne.
        -- intros f Hf. apply (Hnone f). by right.
Qed.

Lemma fileDataMap_lookup (files : list walker.FileInfo)
    (hashes : gmap string string) p fd :
  NoDup (map walker.Path files) →
  main.fileDataMap files hashes !! p = Some fd ↔
  ∃ f h, f ∈ files ∧ walker.Path f = p ∧ hashes !! p = Some h
         ∧ fd = fileDataOf f h.
Proof.
  intros Hnd. pose proof (fileDataMap_fold files hashes ∅ p fd Hnd) as Hfold.
  unfold main.fileDataMap. etransitivity; [exact Hfold|].
  rewrite lookup_empty. split; [|by left]. by intros [?|[? _]].
Qed.

(** The entries that the loop makes of the hashes of a batch. *)
Lemma fileDataMap_hashesOf fs files p fd :
  NoDup (map walker.Path files) →
  main.fileDataMap files (hashesOf fs files) !! p = Some fd ↔
  ∃ f, f ∈ files ∧ walker.Path f = p
       ∧ hash.HashFile fs p = Some (Ok (Hash fd))
       ∧ Size fd = walker.Size f ∧ ModTime fd = walker.ModTime f.
Proof.
  intros Hnd. rewrite (fileDataMap_lookup _ _ _ _ Hnd). split.
  - intros (f & h & Hf & Hp & Hh & ->). exists f.
    by destruct (hashesOf_lookup _ _ _ _ Hh).
  - intros (f & Hf & Hp & Hh & Hs & Hm). exists f, (Hash fd).
    split; [done|]. split; [done|]. split.
    + rewrite <- Hp. apply hashesOf_Ok; [done..|]. by rewrite Hp.
    + destruct fd. cbn in *. by subst.
Qed.

(** X17: the files mapping that [generateTree] builds from the walk and
    from the result of [HashFiles] holds exactly the files that were
    hashed, each with its digest and with the size and the time of the
    walk; a file whose hashing failed is not in it. *)
Theorem fileDataMap_HashFiles
    (fs : os.FileSystem) (files : list walker.FileInfo) (numWorkers : Z)
    (schedule : list walker.Action) (r : walker.HashResult)
    (p : string) (fd : FileData) :
  NoDup (map walker.Path files) →
  walker.HashFiles fs files numWorkers schedule = Some r →
  main.fileDataMap files (walker.Hashes r) !! p = Some fd ↔
  ∃ f, f ∈ files ∧ walker.Path f = p
       ∧ hash.HashFile fs p = Some (Ok (Hash fd))
       ∧ Size fd = walker.Size f ∧ ModTime fd = walker.ModTime f.
Proof.
  intros Hnd Hr. destruct (HashFiles_outputs _ _ _ _ _ Hnd Hr) as [-> _].
  by apply fileDataMap_hashesOf.
Qed.

(** X18: the tree that [generateTree] builds from the files that were
    hashed always has a root, and its root hash is sixteen lowercase
    hexadecimal digits, for any number of files. *)
Theorem generateTree_root_hash
    (fs : os.FileSystem) (files : list walker.FileInfo) (numWorkers : Z)
    (schedule : list walker.Action) (r : walker.HashResult)
    (rootPath : string) (order1 order2 : list string) :
  NoDup (map walker.Path files) →
  walker.HashFiles fs files numWorkers schedule = Some r →
  IterOrder (main.fileDataMap files (walker.Hashes r)) order1 →
  ∃ t h,
    Build (main.fileDataMap files (walker.Hashes r)) rootPath order1 order2
    = Some (Ok t)
    ∧ rootHash t = Some h
    ∧ lowerHex h ∧ String.length h = 16%nat.
Proof.
  intros Hnd Hr. destruct (HashFiles_outputs _ _ _ _ _ Hnd Hr) as [-> _].
  intros Ho.
  set (fileDataMap := main.fileDataMap files (hashesOf fs files)) in *.
  destruct (decide (size fileDataMap = 0%nat)) as [Hz|Hnz].
  - apply map_size_empty_inv in Hz as ->. rewrite Build_empty.
    eexists _, _. split; [done|]. split; [done|]. cbn [NodeHash].
    assert (digest (list_byte_of_string "empty-tree") = "ec229c7e99d32baa")
      as <- by (vm_compute; reflexivity).
    apply digest_format.
  - destruct (Build_root_Forall
                (λ n, lowerHex (NodeHash n)
                      ∧ String.length (NodeHash n) = 16%nat)
                fileDataMap rootPath order1 order2 Ho Hnz)
      as (t & root & HB & Hroot & _ & _ & _ & _ & Hall).
    + intros l r'. apply digest_format.
    + intros p fd Hp. unfold leafNode, lookupFile. rewrite Hp.
      cbn [NodeHash default from_option id].
      apply (fileDataMap_hashesOf fs files p fd Hnd)
        in Hp as (f & _ & _ & Hh & _).
      by apply HashFile_format in Hh.
    + exists t, (NodeHash root). split; [done|].
      unfold rootHash. rewrite Hroot. split; [done|].
      apply Forall_forall with (x := root) in Hall; [done|].
      destruct root. left.
Qed.

(** * [HashFiles] with one worker *)

Lemma one_worker (ws : list walker.Worker) i w :
  (length ws ≤ 1)%nat → ws !! i = Some w → i = 0%nat ∧ ws = [w].
Proof.
  destruct ws as [|w' [|w'' ws]]; cbn; intros Hlen Hi; [done| |lia].
  destruct i; by simplify_eq/=.
Qed.

Ltac line_simpl :=
  unfold line, unsent in *;
  repeat match goal with
    | H : walker.toSend _ = _ |- _ => rewrite H in *; clear H
    | H : walker.jobs _ = _ |- _ => rewrite H in *; clear H
    | H : walker.results _ = _ |- _ => rewrite H in *; clear H
    end;
  cbn in *;
  rewrite ?map_app, ?app_nil_r in *; cbn in *.

Ltac line_solve :=
  rewrite <- ?app_assoc; cbn [app]; first [done|congruence].

Ltac line_close H1 H2 :=
  split; line_simpl; try done;
  try (rewrite <- H1; line_solve); try (rewrite H2; line_solve);
  try (by apply Forall_singleton).

Lemma step_lineInv fs files a s s' collected :
  lineInv fs files s collected →
  walker.step fs a s = Some s' →
  ∃ collected', lineInv fs files s' collected'.
Proof.
  intros [H1 H2 H3 H4 H5 H6 H7].
  unfold walker.step. destruct (walker.returned s) eqn:Hret; [done|].
  unfold line, unsent in H1, H2.
  destruct a as [| |i|i|i|i| | |]; intros Hstep.
  - destruct (walker.toSend s) as [|f rest] eqn:Hsend; simplify_eq/=.
    exists collected. line_close H1 H2.
  - destruct (walker.toSend s) eqn:Hsend; [|done].
    destruct (walker.jobsClosed s) eqn:Hc; simplify_eq/=.
    exists collected. line_close H1 H2.
  - destruct (walker.workers s !! i) as [[]|] eqn:Hw; try done.
    destruct (walker.jobs s) as [|job rest] eqn:Hjobs; simplify_eq/=.
    destruct (one_worker _ _ _ H7 Hw) as [-> Hws]. rewrite Hws in *.
    exists collected. line_close H1 H2.
  - destruct (walker.workers s !! i) as [[|job| |]|] eqn:Hw; try done.
    destruct (one_worker _ _ _ H7 Hw) as [-> Hws]. rewrite Hws in *.
    set (p := walker.Path (walker.fileInfo job)) in *.
    assert (∃ r, outcome fs p = Some r ∧ walker.path r = p
                 ∧ s' = walker.mkState (walker.toSend s) (walker.jobs s)
                          (walker.jobsClosed s) [walker.Sending r]
                          (walker.results s) (walker.resultsClosed s)
                          (walker.result s) false (walker.attempts s ++ [p]))
      as (r & Hr & Hp & ->).
    { unfold outcome.
      destruct (hash.HashFile fs p) as [[h|e]|]; simplify_eq/=;
        by eexists. }
    clear Hstep. exists collected. split; line_simpl; try done.
    + by rewrite Hp.
    + rewrite Hp, H2. line_solve.
    + apply Forall_singleton, Forall_singleton. unfold faithful.
      by rewrite Hp.
  - destruct (walker.workers s !! i) as [[| |r|]|] eqn:Hw; simplify_eq/=.
    destruct (one_worker _ _ _ H7 Hw) as [-> Hws]. rewrite Hws in *.
    exists collected. line_close H1 H2.
    apply Forall_app. split; [done|]. apply Forall_singleton.
    rewrite Forall_singleton in H3. cbn [sendingOf] in H3.
    by rewrite Forall_singleton in H3.
  - destruct (walker.workers s !! i) as [[]|] eqn:Hw; try done.
    destruct (walker.jobs s) as [|job rest] eqn:Hjobs; [|done].
    destruct (walker.jobsClosed s) eqn:Hc; simplify_eq/=.
    destruct (one_worker _ _ _ H7 Hw) as [-> Hws]. rewrite Hws in *.
    exists collected. line_close H1 H2.
  - destruct (walker.allDone (walker.workers s)) eqn:Hall; [|done].
    destruct (walker.resultsClosed s) eqn:Hc; simplify_eq/=.
    exists collected. line_close H1 H2.
  - destruct (walker.results s) as [|r rest] eqn:Hres; simplify_eq/=.
    apply Forall_cons in H4 as [Hr H4].
    exists (collected ++ [r]). line_close H1 H2.
    + apply Forall_app. split; [done|]. by apply Forall_singleton.
    + by rewrite fold_left_app, <- H6.
  - destruct (walker.results s) eqn:Hres; [|done].
    destruct (walker.resultsClosed s) eqn:Hc; simplify_eq/=.
    exists collected. line_close H1 H2.
Qed.
Lemma start_lineInv fs files numWorkers :
  numWorkers ≤ 1 → lineInv fs files (walker.start files numWorkers) [].
Proof.
  intros Hone. unfold walker.start.
  destruct (decide (length files = 0%nat)) as [Hz|Hnz].
  - apply length_zero_iff_nil in Hz as ->. split; cbn; try done.
    lia.
  - assert (walker.workerCount numWorkers = 1%nat) as ->.
    { unfold walker.workerCount. destruct (numWorkers <=? 0) eqn:Hn; [done|].
      apply Z.leb_gt in Hn. lia. }
    split; unfold line, unsent; cbn; try done.
    apply Forall_singleton. constructor.
Qed.

Lemma run_lineInv fs files schedule s s' collected :
  lineInv fs files s collected →
  walker.run fs schedule s = Some s' →
  ∃ collected', lineInv fs files s' collected'.
Proof.
  revert s collected.
  induction schedule as [|a schedule IH]; intros s collected Hinv Hrun;
    cbn in Hrun.
  - simplify_eq. by exists collected.
  - destruct (walker.step fs a s) as [s1|] eqn:Hstep; [|done].
    destruct (step_lineInv _ _ _ _ _ _ Hinv Hstep) as [collected1 Hinv1].
    by apply (IH s1 collected1).
Qed.

(** X19: with one worker (a worker count of 1 or less) the files are hashed
    in the order of the input, and the errors stand in the result in the
    order of the files that failed, however the goroutines are scheduled. *)
Theorem HashFiles_one_worker
    (fs : os.FileSystem) (files : list walker.FileInfo) (numWorkers : Z)
    (schedule : list walker.Action) (s : walker.State) :
  NoDup (map walker.Path files) →
  numWorkers ≤ 1 →
  walker.run fs schedule (walker.start files numWorkers) = Some s →
  walker.returned s = true →
  walker.attempts s = map walker.Path files
  ∧ walker.Errors (walker.result s) = errorsOf fs files
  ∧ walker.Hashes (walker.result s) = hashesOf fs files.
Proof.
  intros Hnd Hone Hrun Hret.
  destruct (run_poolInv _ _ _ _ _ _ (start_poolInv fs files numWorkers) Hrun)
    as [collected0 Hinv0].
  destruct (inv_returned _ _ _ _ Hinv0 Hret) as (Hsend & Hjobs & Hres & Hall).
  destruct (run_lineInv _ _ _ _ _ _ (start_lineInv fs files numWorkers Hone)
              Hrun) as [collected [H1 H2 H3 H4 H5 H6 H7]].
  unfold line in H1.
  rewrite Hsend, Hjobs, Hres, allDone_working, allDone_unsent in * by done.
  cbn [map app] in H1, H2. rewrite !app_nil_r in *.
  assert (collected = outcomes fs files) as ->.
  { by rewrite outcomes_omap, <- H1, faithful_omap. }
  assert (NoDup (map walker.path (outcomes fs files))) as Hndc
    by (by rewrite H1).
  destruct (fold_collect _ Hndc) as [Hh He].
  rewrite H6, Hh, He. by rewrite H2, H1.
Qed.

(** * Hashes of parents *)

(** X20: the text of a digest is decoded without loss: [hex.DecodeString]
    gives back the bytes that [hex.EncodeToString] was given, with no
    error, so that the hash of the parent of two digests is the text of
    the sum of [XXHashFunc] over the bytes of the left digest followed by
    the bytes of the right one. *)
Theorem parentHash_digests (leftSum rightSum : list byte) :
  hex.DecodeString (hex.EncodeToString leftSum) = (leftSum, false)
  ∧ ∃ sum,
      hash.XXHashFunc (leftSum ++ rightSum) = Ok sum
      ∧ parentHash (hex.EncodeToString leftSum) (hex.EncodeToString rightSum)
        = Ok (hex.EncodeToString sum).
Proof.
  split; [apply Decode_EncodeToString|].
  eexists. split; [done|].
  unfold parentHash, hex.DecodeString.
  by rewrite !Decode_EncodeToString.
Qed.

(** X21: the root hash of a tree of two files whose content hashes are the
    texts of two digests is the text of the sum of [XXHashFunc] over the
    eight bytes of the digest of the file with the smaller path followed by
    those of the other, whatever the order of iteration. *)
Theorem Build_two_files
    (p1 p2 : string) (fd1 fd2 : FileData) (sum1 sum2 : list byte)
    (rootPath : string) (order1 order2 : list string) :
  String.le p1 p2 → p1 ≠ p2 →
  Hash fd1 = hex.EncodeToString sum1 →
  Hash fd2 = hex.EncodeToString sum2 →
  IterOrder ({[p1 := fd1; p2 := fd2]} : gmap string FileData) order1 →
  ∃ t sum,
    Build {[p1 := fd1; p2 := fd2]} rootPath order1 order2 = Some (Ok t)
    ∧ hash.XXHashFunc (sum1 ++ sum2) = Ok sum
    ∧ rootHash t = Some (hex.EncodeToString sum).
Proof.
  intros Hle Hne Hh1 Hh2 Ho.
  set (files := ({[p1 := fd1; p2 := fd2]} : gmap string FileData)) in *.
  assert (files !! p1 = Some fd1) as Hp1 by apply lookup_insert_eq.
  assert (files !! p2 = Some fd2) as Hp2.
  { unfold files. rewrite lookup_insert_ne by done.
    apply lookup_singleton_eq. }
  assert (size files = 2%nat) as Hsize.
  { unfold files. rewrite map_size_insert_None, map_size_singleton; [done|].
    by apply lookup_singleton_ne. }
  destruct (rootHash_Build files rootPath order1 order2) as (t & HB & Hr & _);
    [lia|].
  assert (order1 ≡ₚ [p1; p2]) as Hperm.
  { apply NoDup_Permutation.
    - by eapply IterOrder_NoDup.
    - apply NoDup_cons. split; [|apply NoDup_singleton].
      by intros ->%list_elem_of_singleton.
    - intros p. rewrite (IterOrder_lookup files order1 p Ho).
      unfold files. rewrite !elem_of_cons, elem_of_nil.
      destruct (decide (p = p1)) as [->|Hn1].
      + rewrite lookup_insert_eq. split; [by left|by eexists].
      + rewrite lookup_insert_ne by done.
        destruct (decide (p = p2)) as [->|Hn2].
        * rewrite lookup_singleton_eq. split; [by right; left|by eexists].
        * rewrite lookup_singleton_ne by done.
          split; [by intros [? ?]|by intros [?|[?|?]]]. }
  assert (sort.Strings order1 = [p1; p2]) as Hsort.
  { apply (Sorted_unique String.le).
    - apply (Sorted_merge_sort String.le).
    - repeat constructor. done.
    - unfold sort.Strings. by rewrite merge_sort_Permutation. }
  assert (length order1 = 2%nat) as Hlen by (by rewrite Hperm).
  rewrite Hsort, Hlen in Hr. unfold leafHashes, lookupFile in Hr.
  cbn [map] in Hr. rewrite Hp1, Hp2 in Hr.
  cbn [default from_option id hreduce hpairs length Nat.ltb Nat.leb head]
    in Hr.
  exists t. eexists. split; [done|]. split; [done|].
  rewrite Hr, Hh1, Hh2. unfold H, hex.DecodeString.
  by rewrite !Decode_EncodeToString.
Qed.

(** * Paths of a walk *)

Lemma HasPrefix_empty s : strings.HasPrefix s "" = true.
Proof. by destruct s. Qed.

Lemma Contains_cons c r :
  strings.Contains (String c r) "/" = false →
  c ≠ filepath.Separator ∧ strings.Contains r "/" = false.
Proof.
  cbn [strings.Contains strings.HasPrefix]. rewrite HasPrefix_empty.
  intros [Hc Hr]%orb_false_elim. split; [|done].
  intros ->. by rewrite decide_True in Hc.
Qed.

Lemma elements_sep rest :
  filepath.elements (String filepath.Separator rest)
  = "" :: filepath.elements rest.
Proof. done. Qed.

Lemma elements_name_sep e rest :
  strings.Contains e "/" = false →
  filepath.elements (e +:+ String filepath.Separator rest)
  = e :: filepath.elements rest.
Proof.
  induction e as [|c e IH]; intros He; [done|].
  apply Contains_cons in He as [Hc He]. rewrite append_cons.
  cbn [filepath.elements]. rewrite decide_False by done.
  by rewrite IH.
Qed.

Lemma elements_name e :
  strings.Contains e "/" = false → filepath.elements e = [e].
Proof.
  induction e as [|c e IH]; intros He; [done|].
  apply Contains_cons in He as [Hc He].
  cbn [filepath.elements]. rewrite decide_False by done.
  by rewrite IH.
Qed.

Lemma Join_cons e e' rest :
  strings.Join (e :: e' :: rest) "/"
  = e +:+ String filepath.Separator (strings.Join (e' :: rest) "/").
Proof. done. Qed.

Lemma elements_Join names :
  names ≠ [] → Forall entryName names →
  filepath.elements (strings.Join names "/") = names.
Proof.
  induction names as [|e [|e' rest] IH]; intros Hne Hall; [done| |].
  - apply Forall_singleton in Hall as (_ & _ & _ & He).
    by apply elements_name.
  - apply Forall_cons in Hall as [(_ & _ & _ & He) Hall].
    rewrite Join_cons, elements_name_sep by done.
    by rewrite IH.
Qed.

Lemma cleanStep_names isRooted names out :
  Forall entryName names →
  fold_left (filepath.cleanStep isRooted) names out = rev names ++ out.
Proof.
  revert out. induction names as [|e names IH]; intros out Hall; [done|].
  apply Forall_cons in Hall as [(H1 & H2 & H3 & _) Hall].
  cbn [fold_left rev]. rewrite IH by done. unfold filepath.cleanStep.
  rewrite !decide_False by done. by rewrite <- app_assoc.
Qed.

(** [Clean] leaves an absolute path of names as it is. *)
Lemma Clean_names names :
  names ≠ [] → Forall entryName names →
  filepath.Clean (String filepath.Separator (strings.Join names "/"))
  = String filepath.Separator (strings.Join names "/").
Proof.
  intros Hne Hall. unfold filepath.Clean.
  rewrite decide_False by done. cbn [filepath.rooted].
  rewrite bool_decide_true by done. cbv zeta.
  rewrite elements_sep, elements_Join by done.
  cbn [fold_left]. unfold filepath.cleanStep at 2.
  rewrite decide_True by done.
  rewrite cleanStep_names, app_nil_r, rev_involutive by done. done.
Qed.

Lemma append_assoc s t u : (s +:+ t) +:+ u = s +:+ (t +:+ u).
Proof.
  induction s as [|c s IH]; [done|]. by rewrite !append_cons, IH.
Qed.

Lemma Join_app names names' :
  names ≠ [] → names' ≠ [] →
  strings.Join (names ++ names') "/"
  = strings.Join names "/"
    +:+ String filepath.Separator (strings.Join names' "/").
Proof.
  induction names as [|e [|e' rest] IH]; intros Hne Hne'; [done| |].
  - destruct names'; done.
  - change ((e :: e' :: rest) ++ names') with (e :: e' :: (rest ++ names')).
    rewrite !Join_cons.
    change (e' :: rest ++ names') with ((e' :: rest) ++ names').
    rewrite IH by done. by rewrite append_assoc.
Qed.

Lemma HasPrefix_append s t : strings.HasPrefix (s +:+ t) s = true.
Proof.
  induction s as [|c s IH]; [apply HasPrefix_empty|].
  rewrite append_cons. cbn [strings.HasPrefix]. by rewrite decide_True.
Qed.

Lemma drop_append s t : strings.drop (String.length s) (s +:+ t) = t.
Proof.
  induction s as [|c s IH]; [done|]. by rewrite append_cons.
Qed.

Lemma Join_names_nonempty names :
  names ≠ [] → Forall entryName names → strings.Join names "/" ≠ "".
Proof.
  destruct names as [|e [|e' rest]]; intros Hne Hall; [done| |].
  - by apply Forall_singleton in Hall as (? & _).
  - apply Forall_cons in Hall as [(He & _) _]. rewrite Join_cons.
    destruct e; done.
Qed.

Lemma Join_names_head names :
  names ≠ [] → Forall entryName names →
  ∃ c r, strings.Join names "/" = String c r ∧ c ≠ filepath.Separator.
Proof.
  destruct names as [|e rest]; intros Hne Hall; [done|].
  apply Forall_cons in Hall as [(He & _ & _ & Hs) _].
  destruct e as [|c e]; [done|]. apply Contains_cons in Hs as [Hc _].
  exists c. destruct rest as [|e' rest].
  - by exists e.
  - rewrite Join_cons, append_cons. by eexists.
Qed.

(** X22: the paths of a walk are stored and found again.  For an absolute
    root of names and a file some names below it, the leaf that [Build]
    makes holds the path below the root, which is not empty, and
    [filepath.Join] of the root and of that path, as [Load] computes it,
    is the path of the file.  Under the root [/] the leaf holds the whole
    path, and the join gives it back as well. *)
Theorem relativePath_walked (rootNames relNames : list string) :
  Forall entryName rootNames → Forall entryName relNames →
  relNames ≠ [] →
  let rootPath := "/" +:+ strings.Join rootNames "/" in
  let rel := strings.Join relNames "/" in
  rel ≠ ""
  ∧ (rootNames ≠ [] →
     relativePath (filepath.Clean rootPath) (rootPath +:+ "/" +:+ rel) = rel
     ∧ filepath.Join [rootPath; rel] = rootPath +:+ "/" +:+ rel)
  ∧ relativePath (filepath.Clean "/") ("/" +:+ rel) = "/" +:+ rel
  ∧ filepath.Join ["/"; "/" +:+ rel] = "/" +:+ rel.
Proof.
  intros Hroot Hrel Hne rootPath rel.
  assert (rel ≠ "") as Hnz by (by apply Join_names_nonempty).
  split; [done|]. split; [|split].
  - intros Hne'.
    assert (rootPath +:+ "/" +:+ rel
            = String filepath.Separator
                (strings.Join (rootNames ++ relNames) "/")) as Hpath.
    { unfold rootPath, rel. by rewrite Join_app. }
    assert (filepath.Clean rootPath = rootPath) as HcleanRoot
      by (by apply Clean_names).
    assert (filepath.Clean (rootPath +:+ "/" +:+ rel)
            = rootPath +:+ "/" +:+ rel) as Hclean.
    { rewrite Hpath. apply Clean_names.
      - by destruct rootNames.
      - by apply Forall_app. }
    split.
    + unfold relativePath. cbv zeta. rewrite Hclean, HcleanRoot.
      change (rootPath +:+ "/" +:+ rel)
        with (rootPath +:+ String filepath.Separator rel).
      assert (rootPath +:+ String filepath.Separator rel
              = (rootPath +:+ String filepath.Separator "") +:+ rel) as ->.
      { by rewrite append_assoc. }
      rewrite HasPrefix_append. unfold strings.TrimPrefix.
      by rewrite HasPrefix_append, drop_append.
    + cbn [filepath.Join]. rewrite decide_False by done. apply Hclean.
  - assert ("/" +:+ rel = String filepath.Separator (strings.Join relNames "/"))
      as Hpath by done.
    unfold relativePath. cbv zeta.
    rewrite Hpath, Clean_names by done.
    assert (filepath.Clean "/" = "/") as -> by (vm_compute; reflexivity).
    destruct (Join_names_head relNames Hne Hrel) as (c & r & Hj & Hc).
    rewrite Hj.
    change ("/" +:+ String filepath.Separator "") with "//".
    cbn [strings.HasPrefix].
    rewrite decide_True by done.
    rewrite (decide_False (P := filepath.Separator = c))
      by (by intros <-).
    by rewrite decide_False.
  - cbn [filepath.Join strings.Join]. rewrite decide_False by done.
    change ("/" +:+ "/" +:+ "/" +:+ rel)
      with (String filepath.Separator
              (String filepath.Separator (String filepath.Separator rel))).
    unfold filepath.Clean. rewrite decide_False by done.
    cbn [filepath.rooted]. rewrite bool_decide_true by done.
    cbv zeta. rewrite !elements_sep.
    unfold rel. rewrite elements_Join by done.
    cbn [fold_left]. unfold filepath.cleanStep at 2 3 4.
    rewrite !decide_True by done.
    by rewrite cleanStep_names, app_nil_r, rev_involutive.
Qed.

(** * Examples: witnesses and counterexamples *)

Lemma IterOrder_intro {V} (m : gmap string V) (order : list string) :
  NoDup order → list_to_set order = dom m → IterOrder m order.
Proof.
  intros Hnd Hdom. unfold IterOrder. apply NoDup_Permutation; [done| |].
  - apply NoDup_fst_map_to_list.
  - intros p. rewrite <- (elem_of_list_to_set (C := gset string)), Hdom.
    rewrite elem_of_dom, list_elem_of_fmap. split.
    + intros [v Hv]. exists (p, v). split; [done|].
      by apply elem_of_map_to_list.
    + intros [[k v] [-> Hin]]. apply elem_of_map_to_list in Hin. by exists v.
Qed.

Ltac iter_order :=
  apply IterOrder_intro;
  [apply (bool_decide_unpack _); vm_compute; reflexivity
  |apply (bool_decide_unpack _); vm_compute; reflexivity].

Example sampleOrder_ok : IterOrder sampleFiles sampleOrder.
Proof. iter_order. Qed.

Example sampleOrder'_ok : IterOrder sampleFiles' sampleOrder'.
Proof. iter_order. Qed.

Example sampleOrder_changed_ok :
  IterOrder (<["/r/c" := changedC]> sampleFiles) sampleOrder'.
Proof. iter_order. Qed.

Example sampleTree_ok :
  Build sampleFiles "/r" sampleOrder sampleOrder' = Some (Ok sampleTree)
  ∧ Root sampleTree = Some sampleRoot.
Proof. split; vm_compute; reflexivity. Qed.

(** The digests of the example files are those of their contents, however
    the reads are cut; a failing read and a missing file are errors. *)
Example sampleFS_hashes :
  hash.HashFile sampleFS "/r/a" = Some (Ok "415872f599cea71e")
  ∧ hash.HashFile sampleFS "/r/b" = Some (Ok "d24ec4f1a98c6e5b")
  ∧ hash.HashFile sampleFS "/r/c" = Some (Ok "8371a648434290e4")
  ∧ hash.HashFile sampleFS "/r/c2" = Some (Ok "a557b882098de358")
  ∧ hash.HashFile sampleFS "/r/bad"
    = Some (Err "failed to read file: input/output error")
  ∧ hash.HashFile sampleFS "/r/none"
    = Some (Err "failed to open file: no such file or directory").
Proof. repeat split; vm_compute; reflexivity. Qed.


(** Witness of C3. *)
Lemma Build_order_independent_witness :
  ∃ t t' h,
    Build sampleFiles "/r" sampleOrder sampleOrder' = Some (Ok t)
    ∧ Build sampleFiles' "/elsewhere" sampleOrder' sampleOrder' = Some (Ok t')
    ∧ rootHash t = Some h ∧ rootHash t' = Some h.
Proof.
  apply (Build_order_independent sampleFiles sampleFiles' "/r" "/elsewhere"
           sampleOrder sampleOrder' sampleOrder' sampleOrder').
  - exact sampleOrder_ok.
  - iter_order.
  - exact sampleOrder'_ok.
  - exact sampleOrder'_ok.
  - vm_compute. reflexivity.
Defined.

(** Counterexample of C6: the third file of [sampleFiles] is the last of an
    odd level; with the content [contentC'] instead of [contentC] its
    content hash differs and the root hash is the same. *)
Lemma Build_leaf_change_counterexample :
  ∃ fd t t',
    sampleFiles !! "/r/c" = Some fd
    ∧ Hash changedC ≠ Hash fd
    ∧ Build sampleFiles "/r" sampleOrder sampleOrder = Some (Ok t)
    ∧ Build (<["/r/c" := changedC]> sampleFiles) "/r" sampleOrder sampleOrder
      = Some (Ok t')
    ∧ rootHash t = rootHash t'.
Proof.
  eexists _, _, _. split; [vm_compute; reflexivity|].
  split; [discriminate|].
  split; [vm_compute; reflexivity|].
  split; [vm_compute; reflexivity|].
  vm_compute. reflexivity.
Qed.

(** Witness of C6 (amended). *)
Lemma Build_leaf_change_witness :
  ∃ t t',
    Build sampleFiles "/r" sampleOrder sampleOrder' = Some (Ok t)
    ∧ Build (<["/r/c" := changedC]> sampleFiles) "/r" sampleOrder' sampleOrder
      = Some (Ok t')
    ∧ (rootHash t ≠ rootHash t' ∨ DigestCollision t t').
Proof.
  apply (Build_leaf_change sampleFiles "/r" "/r/c"
           (mkFile "8371a648434290e4" 8 1700000002 0) changedC
           (map byte_of_Z [131; 113; 166; 72; 67; 66; 144; 228])
           (map byte_of_Z [165; 87; 184; 130; 9; 141; 227; 88])).
  - vm_compute. reflexivity.
  - vm_compute. reflexivity.
  - vm_compute. reflexivity.
  - discriminate.
  - exact sampleOrder_ok.
  - exact sampleOrder_changed_ok.
Defined.

(** The collision of the counterexample: for the last leaf paired with
    itself, sixteen bytes are hashed in each tree, the eight bytes of the
    digest twice; the bytes differ and [XXHashFunc] returns one sum. *)
Example Build_leaf_change_collision :
  map byte_of_Z [131; 113; 166; 72; 67; 66; 144; 228;
                 131; 113; 166; 72; 67; 66; 144; 228]
  ≠ map byte_of_Z [165; 87; 184; 130; 9; 141; 227; 88;
                   165; 87; 184; 130; 9; 141; 227; 88]
  ∧ hash.XXHashFunc
      (map byte_of_Z [131; 113; 166; 72; 67; 66; 144; 228;
                      131; 113; 166; 72; 67; 66; 144; 228])
    = hash.XXHashFunc
        (map byte_of_Z [165; 87; 184; 130; 9; 141; 227; 88;
                        165; 87; 184; 130; 9; 141; 227; 88]).
Proof. split; [discriminate|]. vm_compute. reflexivity. Qed.

(** A change of the case of a hash changes no byte that is hashed: the
    root hash is the same, and no digest collides. *)
Example Build_leaf_change_case :
  ∃ t t',
    Build sampleFiles "/r" sampleOrder sampleOrder = Some (Ok t)
    ∧ Build (<["/r/b" := mkFile "D24EC4F1A98C6E5B" 1 1700000001 0]>
               sampleFiles) "/r" sampleOrder sampleOrder = Some (Ok t')
    ∧ rootHash t = rootHash t'.
Proof.
  eexists _, _. split; [vm_compute; reflexivity|].
  split; vm_compute; reflexivity.
Qed.

(** Witness of C4: the scenario of the specification. *)
Lemma Compare_classifies_witness :
  let r := compare.Compare oldTree newTree sampleOrder_new sampleOrder_old in
  (∀ c, c ∈ compare.added r ↔
        ∃ p newData,
          c = compare.mkChange compare.Added p None (Some newData)
          ∧ Files newTree !! p = Some newData
          ∧ Files oldTree !! p = None)
  ∧ (∀ c, c ∈ compare.modified r ↔
          ∃ p oldData newData,
            c = compare.mkChange compare.Modified p (Some oldData)
                  (Some newData)
            ∧ Files oldTree !! p = Some oldData
            ∧ Files newTree !! p = Some newData
            ∧ Hash oldData ≠ Hash newData)
  ∧ (∀ c, c ∈ compare.deleted r ↔
          ∃ p oldData,
            c = compare.mkChange compare.Deleted p (Some oldData) None
            ∧ Files oldTree !! p = Some oldData
            ∧ Files newTree !! p = None)
  ∧ NoDup (compare.added r) ∧ NoDup (compare.modified r)
  ∧ NoDup (compare.deleted r).
Proof.
  apply (Compare_classifies oldTree newTree sampleOrder_new sampleOrder_old).
  - iter_order.
  - iter_order.
Defined.

(** The result of [Compare] on the scenario. *)
Example Compare_scenario :
  compare.Compare oldTree newTree sampleOrder_new sampleOrder_old =
    {| compare.added :=
         [compare.mkChange compare.Added "c.txt" None
            (Some (mkFile "57" 3 10 0))];
       compare.modified :=
         [compare.mkChange compare.Modified "b.txt"
            (Some (mkFile "59" 2 10 0)) (Some (mkFile "5a" 2 10 0))];
       compare.deleted := [] |}.
Proof. vm_compute. reflexivity. Qed.

Lemma Storable_map_Forall rootPath (files : gmap string FileData) :
  map_Forall (λ p fd,
      time.nsec (ModTime fd) = 0
      ∧ time.sec (ModTime fd) ≠ 0
      ∧ int64_range (Size fd)
      ∧ int64_range (time.sec (ModTime fd))
      ∧ relativePath (filepath.Clean rootPath) p ≠ ""
      ∧ filepath.Join [rootPath; relativePath (filepath.Clean rootPath) p] = p
      ∧ utf8.ValidString (Hash fd) = true
      ∧ utf8.ValidString (relativePath (filepath.Clean rootPath) p) = true)
    files →
  Storable rootPath files.
Proof. done. Qed.

Example sampleFiles_Storable : Storable "/r" sampleFiles.
Proof.
  apply Storable_map_Forall, (bool_decide_unpack _). vm_compute. reflexivity.
Qed.

(** Witness of C1 (amended). *)
Lemma Load_Save_Build_witness :
  ∃ t disk' t',
    Build sampleFiles "/r" sampleOrder sampleOrder' = Some (Ok t)
    ∧ Save examplePlatform t "output/tree.json" sampleNow emptyDisk
      = (Ok (), disk')
    ∧ Load examplePlatform "output/tree.json" disk' = Ok t'
    ∧ Root t' = Root t ∧ rootHash t' = rootHash t
    ∧ RootPath t' = RootPath t
    ∧ Files t' = Files t.
Proof.
  apply (Load_Save_Build examplePlatform sampleFiles "/r" sampleOrder
           sampleOrder' "output/tree.json" sampleNow (time.Unix 0)
           "1762691751" emptyDisk).
  - exact sampleOrder_ok.
  - exact sampleFiles_Storable.
  - vm_compute. reflexivity.
  - reflexivity.
  - vm_compute. reflexivity.
  - reflexivity.
Defined.

(** Counterexample of C1: a file last modified at the epoch is in the files
    map of the built tree and not in that of the loaded tree. *)
Lemma Load_Save_Build_counterexample :
  ∃ t disk' t' fd,
    Build epochFiles "/r" ["/r/a"] ["/r/a"] = Some (Ok t)
    ∧ Save examplePlatform t "output/tree.json" sampleNow emptyDisk
      = (Ok (), disk')
    ∧ Load examplePlatform "output/tree.json" disk' = Ok t'
    ∧ Files t !! "/r/a" = Some fd
    ∧ Files t' !! "/r/a" = None.
Proof.
  eexists _, _, _, _. split; [vm_compute; reflexivity|].
  split; [vm_compute; reflexivity|].
  split; [vm_compute; reflexivity|].
  split; vm_compute; reflexivity.
Qed.

(** Two more ways in which the files map is not carried through: the
    nanoseconds of a time are dropped, and a path outside the root comes
    back under the root. *)
Example Load_Save_drops_nanoseconds :
  ∃ t disk' t',
    Build (<["/r/a" := mkFile "415872f599cea71e" 4 1700000000 5]> ∅) "/r"
      ["/r/a"] ["/r/a"] = Some (Ok t)
    ∧ Save examplePlatform t "output/tree.json" sampleNow emptyDisk
      = (Ok (), disk')
    ∧ Load examplePlatform "output/tree.json" disk' = Ok t'
    ∧ Files t !! "/r/a" = Some (mkFile "415872f599cea71e" 4 1700000000 5)
    ∧ Files t' !! "/r/a" = Some (mkFile "415872f599cea71e" 4 1700000000 0).
Proof.
  eexists _, _, _. split; [vm_compute; reflexivity|].
  split; [vm_compute; reflexivity|].
  split; [vm_compute; reflexivity|].
  split; vm_compute; reflexivity.
Qed.

Example Load_Save_moves_outside_path :
  ∃ t disk' t',
    Build (<["/etc/x" := mkFile "415872f599cea71e" 4 1700000000 0]> ∅) "/r"
      ["/etc/x"] ["/etc/x"] = Some (Ok t)
    ∧ Save examplePlatform t "output/tree.json" sampleNow emptyDisk
      = (Ok (), disk')
    ∧ Load examplePlatform "output/tree.json" disk' = Ok t'
    ∧ Files t' !! "/etc/x" = None
    ∧ Files t' !! "/r/etc/x"
      = Some (mkFile "415872f599cea71e" 4 1700000000 0).
Proof.
  eexists _, _, _. split; [vm_compute; reflexivity|].
  split; [vm_compute; reflexivity|].
  split; [vm_compute; reflexivity|].
  split; vm_compute; reflexivity.
Qed.

(** The keys of the stored tree are read whatever the case of their
    letters: the mtime under the key [MTime] makes the entry of the leaf,
    and a text under it makes [Load] fail. *)
Example Load_keys_of_any_case :
  (∃ t,
     Load examplePlatform "tree.json"
       (diskWith "tree.json" (otherCaseKeys (JNumber 7))) = Ok t
     ∧ RootPath t = "/r"
     ∧ Files t !! "/r/a"
       = Some {| Hash := "8371a648434290e4"; Size := 5;
                 ModTime := time.Unix 7 |})
  ∧ ∃ msg,
      Load examplePlatform "tree.json"
        (diskWith "tree.json" (otherCaseKeys (JString "x")))
      = Err ("failed to unmarshal tree: " +:+ msg).
Proof.
  split; [|eexists; vm_compute; reflexivity].
  eexists. split; [vm_compute; reflexivity|].
  split; vm_compute; reflexivity.
Qed.

(** Witness of C9 (amended). *)
Lemma Load_skips_zero_mtime_witness :
  ∃ t,
    Load examplePlatform "tree.json" (diskWith "tree.json" twoLeavesOnePath)
      = Ok t
    ∧ TotalSize t = wrap_i64 (0 + 5 + (5 + 0))
    ∧ (Files t !! filepath.Join ["/r"; "a"] = None ↔
       ∀ x, x ∈ subnodes
                  (mkNode "bd071e350e380bf8"
                     (Some (mkNode "8371a648434290e4" None None "a" 5 0))
                     (Some (mkNode "8371a648434290e4" None None "a" 5 7))
                     "" 0 0) →
            Path x ≠ "" → MTime x ≠ 0 →
            filepath.Join ["/r"; Path x] ≠ filepath.Join ["/r"; "a"]).
Proof.
  apply (Load_skips_zero_mtime examplePlatform
           (diskWith "tree.json" twoLeavesOnePath) "tree.json"
           twoLeavesOnePath
           {| Generator := "merkle-go"; Created := time.zero; SRoot := "/r";
              SSize := "";
              Tree := Some (mkNode "bd071e350e380bf8"
                     (Some (mkNode "8371a648434290e4" None None "a" 5 0))
                     (Some (mkNode "8371a648434290e4" None None "a" 5 7))
                     "" 0 0) |}
           (mkNode "bd071e350e380bf8"
                     (Some (mkNode "8371a648434290e4" None None "a" 5 0))
                     (Some (mkNode "8371a648434290e4" None None "a" 5 7))
                     "" 0 0)
           (mkNode "8371a648434290e4" None None "a" 5 0)
           [mkNode "bd071e350e380bf8"
                     (Some (mkNode "8371a648434290e4" None None "a" 5 0))
                     (Some (mkNode "8371a648434290e4" None None "a" 5 7))
                     "" 0 0]
           [mkNode "8371a648434290e4" None None "a" 5 7]).
  - vm_compute. reflexivity.
  - vm_compute. discriminate.
  - vm_compute. reflexivity.
  - reflexivity.
  - reflexivity.
  - discriminate.
  - reflexivity.
Defined.

Example hugeOrder_ok : IterOrder hugeFiles sampleOrder.
Proof. iter_order. Qed.

(** Counterexample of C10: with a file of 2^62 bytes the re-summed total
    wraps around and is below the total of the built tree. *)
Lemma Load_counts_duplicates_counterexample :
  ∃ t disk' t',
    Build hugeFiles "/r" sampleOrder sampleOrder = Some (Ok t)
    ∧ map_Forall (λ _ fd, 0 < Size fd) hugeFiles
    ∧ hasOddLevel (size hugeFiles) = true
    ∧ Save examplePlatform t "output/tree.json" sampleNow emptyDisk
      = (Ok (), disk')
    ∧ Load examplePlatform "output/tree.json" disk' = Ok t'
    ∧ TotalSize t = 2 ^ 62 + 2
    ∧ TotalSize t' = 2 - 2 ^ 63
    ∧ ¬ TotalSize t < TotalSize t'.
Proof.
  eexists _, _, _. split; [vm_compute; reflexivity|].
  split; [apply (bool_decide_unpack _); vm_compute; reflexivity|].
  split; [vm_compute; reflexivity|].
  split; [vm_compute; reflexivity|].
  split; [vm_compute; reflexivity|].
  split; [vm_compute; reflexivity|].
  split; [vm_compute; reflexivity|].
  vm_compute. discriminate.
Qed.

(** Witness of C10 (amended). *)
Lemma Load_counts_duplicates_witness :
  (∃ disk' t',
     Save examplePlatform sampleTree "output/tree.json" sampleNow emptyDisk
       = (Ok (), disk')
     ∧ Load examplePlatform "output/tree.json" disk' = Ok t'
     ∧ TotalSize t' = walkSum sampleRoot
     ∧ TotalSize sampleTree < TotalSize t')
  ∧ (∃ t disk' t',
       Build sampleFiles "/r" sampleOrder sampleOrder' = Some (Ok t)
       ∧ Save examplePlatform t "output/tree.json" sampleNow emptyDisk
         = (Ok (), disk')
       ∧ Load examplePlatform "output/tree.json" disk' = Ok t'
       ∧ TotalSize t' = wrap_i64 (4 + 1 + 2 * 8)).
Proof.
  split.
  - apply (proj1 Load_counts_duplicates examplePlatform sampleFiles "/r"
             sampleOrder sampleOrder' sampleTree sampleRoot
             "output/tree.json" sampleNow (time.Unix 0) "1762691751"
             emptyDisk).
    + exact sampleOrder_ok.
    + iter_order.
    + apply (bool_decide_unpack _). vm_compute. reflexivity.
    + vm_compute. reflexivity.
    + apply sampleTree_ok.
    + apply sampleTree_ok.
    + vm_compute. reflexivity.
    + reflexivity.
    + vm_compute. reflexivity.
    + reflexivity.
  - apply (proj2 Load_counts_duplicates examplePlatform sampleFiles "/r"
             sampleOrder sampleOrder' "/r/a" "/r/b" "/r/c"
             (mkFile "415872f599cea71e" 4 1700000000 0)
             (mkFile "d24ec4f1a98c6e5b" 1 1700000001 0)
             (mkFile "8371a648434290e4" 8 1700000002 0)
             "output/tree.json" sampleNow (time.Unix 0) "1762691751"
             emptyDisk).
    + exact sampleOrder_ok.
    + vm_compute. reflexivity.
    + vm_compute. reflexivity.
    + vm_compute. reflexivity.
    + vm_compute. reflexivity.
    + apply (bool_decide_unpack _). vm_compute. reflexivity.
    + reflexivity.
    + vm_compute. reflexivity.
    + reflexivity.
Defined.

(** Witness of C8: the content "asdf" read as "as", "df" and the end of
    file. *)
Lemma HashFile_chunking_witness :
  hash.HashFile sampleFS "/r/a"
  = Some (Ok (hashBytes (concat [list_byte_of_string "as";
                                 list_byte_of_string "df"] ++ [])))
  ∧ lowerHex (hashBytes (concat [list_byte_of_string "as";
                                 list_byte_of_string "df"] ++ []))
  ∧ String.length (hashBytes (concat [list_byte_of_string "as";
                                      list_byte_of_string "df"] ++ []))
    = 16%nat.
Proof.
  apply (HashFile_chunking sampleFS "/r/a"
           [list_byte_of_string "as"; list_byte_of_string "df"] [] []).
  reflexivity.
Defined.

(** Two schedules of two workers on the batch: the map is the same, and the
    errors come in the order in which the caller receives them. *)
Example HashFiles_schedules :
  walker.HashFiles sampleFS sampleBatch 2 scheduleOne
  = Some {| walker.Hashes :=
              <["/r/a" := "415872f599cea71e"]>
                (<["/r/b" := "d24ec4f1a98c6e5b"]> ∅);
            walker.Errors :=
              ["/r/bad: failed to read file: input/output error";
               "/r/none: failed to open file: no such file or directory"] |}
  ∧ walker.HashFiles sampleFS sampleBatch 2 scheduleTwo
    = Some {| walker.Hashes :=
                <["/r/a" := "415872f599cea71e"]>
                  (<["/r/b" := "d24ec4f1a98c6e5b"]> ∅);
              walker.Errors :=
                ["/r/none: failed to open file: no such file or directory";
                 "/r/bad: failed to read file: input/output error"] |}.
Proof. split; vm_compute; reflexivity. Qed.

(** A step that no goroutine can take is not a run: the caller cannot
    return while [results] is open, and a worker cannot leave while [jobs]
    is open. *)
Example HashFiles_not_enabled :
  walker.HashFiles sampleFS sampleBatch 2 [walker.Return] = None
  ∧ walker.HashFiles sampleFS sampleBatch 2 [walker.Exit 0] = None
  ∧ walker.HashFiles sampleFS sampleBatch 2 (scheduleOne ++ [walker.Collect])
    = None
  ∧ walker.HashFiles sampleFS sampleBatch 2 (removelast scheduleOne) = None.
Proof. repeat split; vm_compute; reflexivity. Qed.

(** With no file [HashFiles] returns at once. *)
Example HashFiles_no_file :
  walker.HashFiles sampleFS [] 4 []
  = Some {| walker.Hashes := ∅; walker.Errors := [] |}.
Proof. vm_compute. reflexivity. Qed.

(** Witness of C5: the batch of four files, of which two fail. *)
Lemma HashFiles_pipeline_witness :
  (∀ numWorkers,
     ∃ schedule r,
       walker.HashFiles sampleFS sampleBatch numWorkers schedule = Some r)
  ∧ (∀ numWorkers schedule r,
       walker.HashFiles sampleFS sampleBatch numWorkers schedule = Some r →
       (size (walker.Hashes r) + length (walker.Errors r) = 4)%nat
       ∧ walker.Hashes r !! "/r/a" = Some "415872f599cea71e"
       ∧ walker.Hashes r !! "/r/none" = None
       ∧ "/r/none: failed to open file: no such file or directory"
         ∈ walker.Errors r).
Proof.
  destruct (HashFiles_pipeline sampleFS sampleBatch)
    as (_ & Hresult & _ & _ & Hlive).
  - apply (bool_decide_unpack _). vm_compute. reflexivity.
  - split.
    + apply Hlive. intros f Hf. apply list_elem_of_In in Hf. cbn in Hf.
      destruct Hf as [<-|[<-|[<-|[<-|[]]]]]; vm_compute; eexists;
        reflexivity.
    + intros numWorkers schedule r Hr.
      destruct (Hresult numWorkers schedule r Hr) as (Hn & _ & Hfiles).
      split; [exact Hn|].
      pose proof (Hfiles (walker.mkFileInfo "/r/a" 4
                            {| time.sec := 1700000000; time.nsec := 0 |})
                    ltac:(left)) as Ha.
      assert (walker.mkFileInfo "/r/none" 0
                {| time.sec := 0; time.nsec := 0 |} ∈ sampleBatch) as Hin
        by (do 3 right; left).
      pose proof (Hfiles _ Hin) as Hnone.
      split; [exact Ha|]. exact Hnone.
Defined.

(** ** Witnesses of the further properties *)

Example soloState_ok :
  walker.run sampleFS scheduleSolo (walker.start sampleBatch 1)
  = Some soloState
  ∧ walker.returned soloState = true.
Proof. split; vm_compute; reflexivity. Qed.

Example pairOrder_ok : IterOrder pairFiles pairOrder.
Proof. iter_order. Qed.

(** Witness of X1. *)
Lemma Build_nodes_witness :
  ∃ t root,
    Build sampleFiles "/r" sampleOrder sampleOrder' = Some (Ok t)
    ∧ Root t = Some root
    ∧ ∀ n, n ∈ subnodes root →
        innerNode n
        ∨ ∃ p fd, sampleFiles !! p = Some fd ∧ leafOf "/r" p fd n.
Proof.
  apply (Build_nodes sampleFiles "/r" sampleOrder sampleOrder').
  - exact sampleOrder_ok.
  - apply (bool_decide_unpack _). vm_compute. reflexivity.
Defined.

(** Witness of X2. *)
Lemma Build_keeps_files_witness :
  ∃ t root n,
    Build sampleFiles "/r" sampleOrder sampleOrder' = Some (Ok t)
    ∧ Root t = Some root
    ∧ n ∈ subnodes root
    ∧ leafOf "/r" "/r/b" (mkFile "d24ec4f1a98c6e5b" 1 1700000001 0) n.
Proof.
  apply (Build_keeps_files sampleFiles "/r" sampleOrder sampleOrder' "/r/b"
           (mkFile "d24ec4f1a98c6e5b" 1 1700000001 0)).
  - exact sampleOrder_ok.
  - vm_compute. reflexivity.
Defined.

(** Witness of X3: the content hash of the only file, which is no digest,
    is the root hash. *)
Lemma Build_single_file_witness :
  Build {["/r/a" := mkFile "not a digest" 4 1700000000 0]} "/r"
    ["/r/a"] ["/r/a"] =
    Some (Ok {| Root := Some {| NodeHash := "not a digest";
                               Left := None; Right := None;
                               Path := relativePath (filepath.Clean "/r")
                                         "/r/a";
                               NodeSize := 4;
                               MTime := 1700000000 |};
                RootPath := "/r";
                TotalSize := wrap_i64 4;
                Files := {["/r/a" := mkFile "not a digest" 4 1700000000 0]} |}).
Proof.
  apply (Build_single_file "/r/a" (mkFile "not a digest" 4 1700000000 0)
           "/r" ["/r/a"] ["/r/a"]).
  - iter_order.
  - iter_order.
Defined.

(** Witness of X4. *)
Lemma Build_root_hash_format_witness :
  ∃ t h,
    Build sampleFiles "/r" sampleOrder sampleOrder' = Some (Ok t)
    ∧ rootHash t = Some h
    ∧ lowerHex h ∧ String.length h = 16%nat.
Proof.
  apply (Build_root_hash_format sampleFiles "/r" sampleOrder sampleOrder').
  - exact sampleOrder_ok.
  - apply (bool_decide_unpack _). vm_compute. reflexivity.
Defined.

(** Witness of X5: hashes in capitals, and with a rest that cannot be
    decoded, give the root hash of the hashes in small letters. *)
Lemma Build_decoded_hashes_witness :
  ∃ t t' h,
    Build mixedCaseFiles "/r" pairOrder pairOrder = Some (Ok t)
    ∧ Build mixedCaseFiles' "/s" pairOrder pairOrder = Some (Ok t')
    ∧ rootHash t = Some h ∧ rootHash t' = Some h.
Proof.
  apply (Build_decoded_hashes mixedCaseFiles mixedCaseFiles' "/r" "/s"
           pairOrder pairOrder pairOrder pairOrder).
  - iter_order.
  - iter_order.
  - vm_compute. lia.
  - apply (bool_decide_unpack _). vm_compute. reflexivity.
  - intros p fd fd' Hfd Hfd'.
    destruct (decide (p = "/r/a")) as [->|Ha].
    { vm_compute in Hfd, Hfd'. injection Hfd as <-. injection Hfd' as <-.
      vm_compute. reflexivity. }
    destruct (decide (p = "/r/b")) as [->|Hb].
    { vm_compute in Hfd, Hfd'. injection Hfd as <-. injection Hfd' as <-.
      vm_compute. reflexivity. }
    unfold mixedCaseFiles in Hfd.
    rewrite !lookup_insert_ne, lookup_empty in Hfd by done. discriminate.
Defined.

(** Witness of X6. *)
Lemma Load_total_power_of_two_witness :
  ∃ t disk' t',
    Build pairFiles "/r" pairOrder pairOrder = Some (Ok t)
    ∧ Save examplePlatform t "output/tree.json" sampleNow emptyDisk
      = (Ok (), disk')
    ∧ Load examplePlatform "output/tree.json" disk' = Ok t'
    ∧ TotalSize t' = TotalSize t.
Proof.
  apply (Load_total_power_of_two examplePlatform pairFiles "/r"
           pairOrder pairOrder 1 "output/tree.json" sampleNow (time.Unix 0)
           "1762691751" emptyDisk).
  - exact pairOrder_ok.
  - exact pairOrder_ok.
  - vm_compute. reflexivity.
  - apply map_Forall_lookup. apply (bool_decide_unpack _).
    vm_compute. reflexivity.
  - reflexivity.
  - vm_compute. reflexivity.
  - reflexivity.
Defined.

(** Witness of X7: of the two leaves of the stored tree with the path [a]
    the second stands in the mapping. *)
Lemma Load_files_origin_witness :
  Files loadedTwoLeaves !! "/r/a"
  = Some {| Hash := "8371a648434290e4"; Size := 5; ModTime := time.Unix 7 |}
  ↔ ∃ root pre x post,
      Root loadedTwoLeaves = Some root
      ∧ subnodes root = pre ++ x :: post
      ∧ Path x ≠ "" ∧ MTime x ≠ 0
      ∧ "/r/a" = filepath.Join [RootPath loadedTwoLeaves; Path x]
      ∧ {| Hash := "8371a648434290e4"; Size := 5; ModTime := time.Unix 7 |}
        = {| Hash := NodeHash x; Size := NodeSize x;
             ModTime := time.Unix (MTime x) |}
      ∧ ∀ y, y ∈ post →
          ¬ (Path y ≠ "" ∧ MTime y ≠ 0
             ∧ filepath.Join [RootPath loadedTwoLeaves; Path y] = "/r/a").
Proof.
  apply (Load_files_origin examplePlatform "tree.json"
           (diskWith "tree.json" twoLeavesOnePath) loadedTwoLeaves "/r/a"
           {| Hash := "8371a648434290e4"; Size := 5;
              ModTime := time.Unix 7 |}).
  vm_compute. reflexivity.
Defined.

(** Witness of X8: a tree with a path that is no UTF-8. *)
Lemma Load_Save_fixed_point_witness :
  ∃ disk' t',
    Save examplePlatform invalidTree "output/tree.json" sampleNow emptyDisk
    = (Ok (), disk')
    ∧ Load examplePlatform "output/tree.json" disk' = Ok t'
    ∧ (∀ n', Root t' = Some n' → wfNode n' ∧ Z.of_nat (height n') < 10000)
    ∧ ∀ dest2 now2 now2' created2 disk2,
        writable disk2 dest2 = true →
        timeMarshalJSON examplePlatform now2 = Ok created2 →
        timeUnmarshalJSON examplePlatform created2 = Ok now2' →
        ∃ disk2',
          Save examplePlatform t' dest2 now2 disk2 = (Ok (), disk2')
          ∧ Load examplePlatform dest2 disk2' = Ok t'.
Proof.
  apply (Load_Save_fixed_point examplePlatform invalidTree
           "output/tree.json" sampleNow (time.Unix 0) "1762691751"
           emptyDisk).
  - reflexivity.
  - vm_compute. reflexivity.
  - reflexivity.
  - intros n Hn. vm_compute in Hn. injection Hn as <-. split.
    + apply (bool_decide_unpack _). vm_compute. reflexivity.
    + vm_compute. reflexivity.
Defined.

(** The path of the loaded tree has U+FFFD for the byte that is no
    UTF-8: the loaded tree is not the saved one. *)
Example Load_Save_invalid_path :
  ∃ disk' t' root',
    Save examplePlatform invalidTree "output/tree.json" sampleNow emptyDisk
    = (Ok (), disk')
    ∧ Load examplePlatform "output/tree.json" disk' = Ok t'
    ∧ Root t' = Some root'
    ∧ Path root' = utf8.RuneError +:+ ".txt"
    ∧ Files t' !! ("/r/" +:+ utf8.RuneError +:+ ".txt")
      = Some (mkFile "415872f599cea71e" 4 1700000000 0)
    ∧ Files t' !! ("/r/" +:+ String (ascii_of_nat 255) ".txt") = None.
Proof.
  eexists _, _, _. split; [vm_compute; reflexivity|].
  split; [vm_compute; reflexivity|]. split; [vm_compute; reflexivity|].
  repeat split; vm_compute; reflexivity.
Qed.

Example sampleOrders_ok :
  IterOrder (Files newTree) sampleOrder_new
  ∧ IterOrder (Files oldTree) sampleOrder_old
  ∧ IterOrder (Files newTree) ["a.txt"; "b.txt"; "c.txt"]
  ∧ IterOrder (Files oldTree) ["a.txt"; "b.txt"].
Proof. repeat split; iter_order. Qed.

(** Witness of X9. *)
Lemma Compare_deterministic_witness :
  compare.Compare oldTree newTree sampleOrder_new sampleOrder_old
  = compare.Compare oldTree newTree ["a.txt"; "b.txt"; "c.txt"]
      ["a.txt"; "b.txt"]
  ∧ sortedByPath
      (compare.added
         (compare.Compare oldTree newTree sampleOrder_new sampleOrder_old))
  ∧ sortedByPath
      (compare.modified
         (compare.Compare oldTree newTree sampleOrder_new sampleOrder_old))
  ∧ sortedByPath
      (compare.deleted
         (compare.Compare oldTree newTree sampleOrder_new sampleOrder_old)).
Proof.
  apply (Compare_deterministic oldTree newTree sampleOrder_new
           sampleOrder_old ["a.txt"; "b.txt"; "c.txt"] ["a.txt"; "b.txt"]);
    apply sampleOrders_ok.
Defined.

(** Witness of X10: a tree against itself with other sizes and times. *)
Lemma Compare_no_changes_witness :
  compare.HasChanges
    (compare.Compare
       {| Root := None; RootPath := "/r"; TotalSize := 0;
          Files := sampleFiles |}
       {| Root := None; RootPath := "/s"; TotalSize := 5;
          Files := sampleFiles' |} sampleOrder' sampleOrder)
  = false
  ↔ Hash <$> sampleFiles = Hash <$> sampleFiles'.
Proof.
  apply (Compare_no_changes
           {| Root := None; RootPath := "/r"; TotalSize := 0;
              Files := sampleFiles |}
           {| Root := None; RootPath := "/s"; TotalSize := 5;
              Files := sampleFiles' |} sampleOrder' sampleOrder).
  - exact sampleOrder'_ok.
  - exact sampleOrder_ok.
Defined.

(** Witness of X11. *)
Lemma Compare_swap_witness :
  let r := compare.Compare oldTree newTree sampleOrder_new sampleOrder_old in
  let r' := compare.Compare newTree oldTree ["a.txt"; "b.txt"]
              ["a.txt"; "b.txt"; "c.txt"] in
  compare.added r' = map swap (compare.deleted r)
  ∧ compare.modified r' = map swap (compare.modified r)
  ∧ compare.deleted r' = map swap (compare.added r).
Proof.
  apply (Compare_swap oldTree newTree sampleOrder_new sampleOrder_old
           ["a.txt"; "b.txt"; "c.txt"] ["a.txt"; "b.txt"]);
    apply sampleOrders_ok.
Defined.

(** Witness of X12: the report of the scenario, and a result that
    [Compare] never returns. *)
Lemma FormatReport_Compare_witness :
  (∃ report,
     compare.FormatReport sampleDate
       (compare.Compare oldTree newTree sampleOrder_new sampleOrder_old)
     = Some report
     ∧ (report = "No changes detected."
        ↔ compare.HasChanges
            (compare.Compare oldTree newTree sampleOrder_new
               sampleOrder_old) = false))
  ∧ compare.FormatReport sampleDate
      {| compare.added :=
           [compare.mkChange compare.Added "c.txt" None None];
         compare.modified := []; compare.deleted := [] |} = None.
Proof.
  split.
  - apply (proj1 (FormatReport_Compare sampleDate oldTree newTree
                    sampleOrder_new sampleOrder_old)).
  - apply (proj2 (FormatReport_Compare sampleDate oldTree newTree
                    sampleOrder_new sampleOrder_old)
             {| compare.added :=
                  [compare.mkChange compare.Added "c.txt" None None];
                compare.modified := []; compare.deleted := [] |}
             (compare.mkChange compare.Added "c.txt" None None)).
    + apply list_elem_of_here.
    + reflexivity.
Defined.

(** Witness of X13. *)
Lemma HashFile_XXHashFunc_witness :
  ∃ sum,
    hash.XXHashFunc
      (concat [list_byte_of_string "as"; list_byte_of_string "df"] ++ [])
    = Ok sum
    ∧ length sum = 8%nat
    ∧ hash.HashFile sampleFS "/r/a" = Some (Ok (hex.EncodeToString sum)).
Proof.
  apply (HashFile_XXHashFunc sampleFS "/r/a"
           [list_byte_of_string "as"; list_byte_of_string "df"] [] []).
  reflexivity.
Defined.

(** Witness of X14. *)
Lemma HashFile_errors_witness :
  hash.HashFile sampleFS "/r/none"
  = Some (Err ("failed to open file: " +:+ "no such file or directory"))
  ∧ hash.HashFile sampleFS "/r/bad"
    = Some (Err ("failed to read file: " +:+ "input/output error"))
  ∧ lowerHex "415872f599cea71e"
  ∧ String.length "415872f599cea71e" = 16%nat.
Proof.
  split; [|split].
  - apply (proj1 (HashFile_errors sampleFS "/r/none")). reflexivity.
  - apply (proj1 (proj2 (HashFile_errors sampleFS "/r/bad"))
             [contentC] [] "input/output error" []).
    reflexivity.
  - apply (proj2 (proj2 (HashFile_errors sampleFS "/r/a"))).
    vm_compute. reflexivity.
Defined.

(** Witness of X15: the pattern [node_modules/] excludes a file of that
    name as it excludes what is below a directory of that name. *)
Lemma shouldExclude_directory_pattern_witness :
  walker.shouldExclude literalMatch "web/node_modules/x.js"
    (walker.mkDirEntry "x.js" false) ["*.o"; "node_modules/"] = true
  ∧ walker.shouldExclude literalMatch "node_modules"
      (walker.mkDirEntry "node_modules" false) ["*.o"; "node_modules/"]
    = true.
Proof.
  split.
  - apply (proj1 (shouldExclude_directory_pattern literalMatch
                    "web/node_modules/x.js" "node_modules"
                    (walker.mkDirEntry "x.js" false)
                    (walker.mkDirEntry "x.js" false)
                    ["*.o"; "node_modules/"])).
    + apply (bool_decide_unpack _). vm_compute. reflexivity.
    + apply (bool_decide_unpack _). vm_compute. reflexivity.
  - apply (proj1 (shouldExclude_directory_pattern literalMatch
                    "node_modules" "node_modules"
                    (walker.mkDirEntry "node_modules" false)
                    (walker.mkDirEntry "node_modules" false)
                    ["*.o"; "node_modules/"])).
    + apply (bool_decide_unpack _). vm_compute. reflexivity.
    + apply (bool_decide_unpack _). vm_compute. reflexivity.
Defined.

(** Witness of X16. *)
Lemma shouldExclude_base_name_witness :
  walker.shouldExclude literalMatch "a/b/notes.txt"
    (walker.mkDirEntry "notes.txt" false) ["notes.txt"; ".git"]
  = walker.shouldExclude literalMatch "notes.txt"
      (walker.mkDirEntry "notes.txt" true) ["notes.txt"; ".git"].
Proof.
  apply (shouldExclude_base_name literalMatch "a/b/notes.txt" "notes.txt"
           (walker.mkDirEntry "notes.txt" false)
           (walker.mkDirEntry "notes.txt" true) ["notes.txt"; ".git"]).
  - apply (bool_decide_unpack _). vm_compute. reflexivity.
  - vm_compute. reflexivity.
Defined.

(** Witness of X17. *)
Lemma fileDataMap_HashFiles_witness :
  main.fileDataMap sampleBatch (walker.Hashes sampleResult) !! "/r/b"
  = Some (mkFile "d24ec4f1a98c6e5b" 1 1700000001 0)
  ↔ ∃ f, f ∈ sampleBatch ∧ walker.Path f = "/r/b"
         ∧ hash.HashFile sampleFS "/r/b"
           = Some (Ok (Hash (mkFile "d24ec4f1a98c6e5b" 1 1700000001 0)))
         ∧ Size (mkFile "d24ec4f1a98c6e5b" 1 1700000001 0) = walker.Size f
         ∧ ModTime (mkFile "d24ec4f1a98c6e5b" 1 1700000001 0)
           = walker.ModTime f.
Proof.
  apply (fileDataMap_HashFiles sampleFS sampleBatch 2 scheduleOne
           sampleResult "/r/b" (mkFile "d24ec4f1a98c6e5b" 1 1700000001 0)).
  - apply (bool_decide_unpack _). vm_compute. reflexivity.
  - vm_compute. reflexivity.
Defined.

(** Witness of X18. *)
Lemma generateTree_root_hash_witness :
  ∃ t h,
    Build (main.fileDataMap sampleBatch (walker.Hashes sampleResult)) "/r"
      pairOrder pairOrder = Some (Ok t)
    ∧ rootHash t = Some h
    ∧ lowerHex h ∧ String.length h = 16%nat.
Proof.
  apply (generateTree_root_hash sampleFS sampleBatch 2 scheduleOne
           sampleResult "/r" pairOrder pairOrder).
  - apply (bool_decide_unpack _). vm_compute. reflexivity.
  - vm_compute. reflexivity.
  - iter_order.
Defined.

(** Witness of X19. *)
Lemma HashFiles_one_worker_witness :
  walker.attempts soloState = map walker.Path sampleBatch
  ∧ walker.Errors (walker.result soloState) = errorsOf sampleFS sampleBatch
  ∧ walker.Hashes (walker.result soloState) = hashesOf sampleFS sampleBatch.
Proof.
  apply (HashFiles_one_worker sampleFS sampleBatch 1 scheduleSolo soloState).
  - apply (bool_decide_unpack _). vm_compute. reflexivity.
  - lia.
  - vm_compute. reflexivity.
  - reflexivity.
Defined.

(** Witness of X21. *)
Lemma Build_two_files_witness :
  ∃ t sum,
    Build pairFiles "/r" pairOrder pairOrder = Some (Ok t)
    ∧ hash.XXHashFunc
        (map byte_of_Z [65; 88; 114; 245; 153; 206; 167; 30]
         ++ map byte_of_Z [210; 78; 196; 241; 169; 140; 110; 91]) = Ok sum
    ∧ rootHash t = Some (hex.EncodeToString sum).
Proof.
  apply (Build_two_files "/r/a" "/r/b"
           (mkFile "415872f599cea71e" 4 1700000000 0)
           (mkFile "d24ec4f1a98c6e5b" 1 1700000001 0)
           (map byte_of_Z [65; 88; 114; 245; 153; 206; 167; 30])
           (map byte_of_Z [210; 78; 196; 241; 169; 140; 110; 91])
           "/r" pairOrder pairOrder).
  - vm_compute. exact I.
  - discriminate.
  - vm_compute. reflexivity.
  - vm_compute. reflexivity.
  - exact pairOrder_ok.
Defined.

(** Witness of X22. *)
Lemma relativePath_walked_witness :
  let rootPath := "/" +:+ strings.Join ["home"; "user"; "repo"] "/" in
  let rel := strings.Join ["src"; "main.go"] "/" in
  rel ≠ ""
  ∧ (["home"; "user"; "repo"] ≠ [] →
     relativePath (filepath.Clean rootPath) (rootPath +:+ "/" +:+ rel) = rel
     ∧ filepath.Join [rootPath; rel] = rootPath +:+ "/" +:+ rel)
  ∧ relativePath (filepath.Clean "/") ("/" +:+ rel) = "/" +:+ rel
  ∧ filepath.Join ["/"; "/" +:+ rel] = "/" +:+ rel.
Proof.
  apply (relativePath_walked ["home"; "user"; "repo"] ["src"; "main.go"]).
  - repeat first [apply Forall_nil_2 | apply Forall_cons_2];
      (split; [discriminate|]); (split; [discriminate|]);
      (split; [discriminate|]); vm_compute; reflexivity.
  - repeat first [apply Forall_nil_2 | apply Forall_cons_2];
      (split; [discriminate|]); (split; [discriminate|]);
      (split; [discriminate|]); vm_compute; reflexivity.
  - discriminate.
Defined.

(** The report of the scenario, line by line. *)
Example FormatReport_scenario :
  compare.FormatReport sampleDate
    (compare.Compare oldTree newTree sampleOrder_new sampleOrder_old)
  = Some (strings.Join
            ["Changes detected:"; "";
             "ADDED (1 files):";
             "  + c.txt (hash: 57, size: 3 bytes)"; "";
             "MODIFIED (1 files):";
             "  ~ b.txt";
             "    Old: hash=59, size=2 bytes, modified=10";
             "    New: hash=5a, size=2 bytes, modified=10"; "";
             "Summary: 1 added, 1 modified, 0 deleted"; ""]
            compare.newline).
Proof. vm_compute. reflexivity. Qed.

(** The functions of package strings that [shouldExclude] calls. *)
Example strings_samples :
  strings.Split "a/b//c" "/" = ["a"; "b"; ""; "c"]
  ∧ strings.Split "" "/" = [""]
  ∧ strings.HasSuffix "bin/" "/" = true
  ∧ strings.HasSuffix "/" "bin/" = false
  ∧ strings.TrimSuffix "bin/" "/" = "bin"
  ∧ strings.TrimSuffix "bin" "/" = "bin"
  ∧ strings.Contains "a/b" "/" = true
  ∧ strings.Contains "ab" "/" = false.
Proof. repeat split. Qed.

(** A pattern with a slash in the middle is matched against the whole
    relative path as well, a pattern that ends with a slash against each
    element. *)
Example shouldExclude_samples :
  walker.shouldExclude literalMatch "docs/api.md"
    (walker.mkDirEntry "api.md" false) ["docs/api.md"] = true
  ∧ walker.shouldExclude literalMatch "src/docs/api.md"
      (walker.mkDirEntry "api.md" false) ["docs/api.md"] = false
  ∧ walker.shouldExclude literalMatch "src/docs/api.md"
      (walker.mkDirEntry "api.md" false) ["docs/"] = true
  ∧ walker.shouldExclude literalMatch "src/docs/api.md"
      (walker.mkDirEntry "api.md" false) [] = false.
Proof. repeat split. Qed.
